(** * Cinnarito: growth engine, game-state repository, player resources
      and chronicle templates

    A shallow embedding of the server-side core of the Cinnarito
    community game (TypeScript) together with the properties its
    specification states about it.

    Conventions of the embedding.
    - A JavaScript [number] is a finite number, a rational ([Q]); [NaN]
      and the infinities are outside the model, so a numeric argument
      stands for a finite number only.  The two [calculateGrowth]
      functions, whose result depends on binary64 rounding (they multiply
      by 0.1, and one rounds to two decimals), are evaluated with the
      operations of [Binary64]: the exact result rounded to the nearest
      binary64 number.  The counters, prices and balances of the
      repository and of the player resources are read in exact
      arithmetic.
    - A [Date] is its epoch-milliseconds value ([Z]).
    - A thrown [Error] is its message ([string]).
    - The Redis client is a finite map from key strings to the decoded
      JSON value stored under the key. *)

From Stdlib Require Import ZArith QArith Qround Qabs Qpower Lqa List Ascii Sorted.
From stdpp Require Import base option list strings gmap pretty.

Local Open Scope Q_scope.

(* ===================================================================== *)
(** * Shared constants ([shared/constants]) *)
(* ===================================================================== *)

Module GAME_CONFIG.

Module RESOURCE_COSTS.
Definition PLANT_SEED : Q := 5.
Definition FEED_SPIRIT : Q := 3.
Definition CHARGE_ROBOT : Q := 10.
Definition POST_UPDATE : Q := 0.
End RESOURCE_COSTS.

Module GROWTH_MULTIPLIERS.
Definition SEEDS_PLANTED : Q := 15 # 10.
Definition SPIRITS_FED : Q := 2.
Definition ROBOT_CHARGED : Q := 3.
Definition REDDIT_UPVOTES : Q := 1 # 10.
End GROWTH_MULTIPLIERS.

Module RESOURCE_REWARDS.
Definition UPVOTE_CINNAMON : Q := 1 # 10.
Definition STARTING_CINNAMON : Q := 10.
Definition DAILY_BONUS : Q := 5.
End RESOURCE_REWARDS.

(** One entry of the [TREE_LEVELS] table. *)
Record TreeLevel := mkTreeLevel { level : Q; growthRequired : Q }.

Definition SEEDLING := mkTreeLevel 1 0.
Definition SAPLING := mkTreeLevel 2 50.
Definition YOUNG_TREE := mkTreeLevel 3 150.
Definition MATURE_TREE := mkTreeLevel 4 300.
Definition ANCIENT_TREE := mkTreeLevel 5 500.
Definition SPIRIT_TREE := mkTreeLevel 6 1000.

(** [Object.values(GAME_CONFIG.TREE_LEVELS)]: the entries in the order
    the object literal declares them. *)
Definition TREE_LEVELS : list TreeLevel :=
  [SEEDLING; SAPLING; YOUNG_TREE; MATURE_TREE; ANCIENT_TREE; SPIRIT_TREE].

Module LIMITS.
Definition MAX_CINNAMON : Q := 10000.
End LIMITS.

End GAME_CONFIG.

Import GAME_CONFIG.

(** JavaScript comparisons on numbers. *)
Definition num_ge (a b : Q) : bool := Qle_bool b a.
Definition num_le (a b : Q) : bool := Qle_bool a b.
Definition num_lt (a b : Q) : bool := negb (Qle_bool b a).
Definition num_gt (a b : Q) : bool := negb (Qle_bool a b).

(** [Math.round]: the nearest integer, a tie going to the larger one. *)
Definition Math_round (x : Q) : Q := inject_Z (Qfloor (x + (1 # 2))).

(** [Math.min]. *)
Definition Math_min (a b : Q) : Q := if num_le a b then a else b.

(* ===================================================================== *)
(** * Binary64 arithmetic *)
(* ===================================================================== *)

(** The finite values of a JavaScript [number] are the binary64 numbers:
    the rationals [m * 2^e] with [|m| < 2^53] and [e >= -1074].  An
    arithmetic operation returns the exact result rounded to the nearest
    of them, a tie going to the one with the even [m].  Results of
    magnitude [2^1024] and more, which the runtime turns into an
    infinity, and a division by zero are outside the model. *)
Module Binary64.

(** The binary exponent of [x]: the [e] with [2^e <= |x| < 2^(e+1)],
    for [x] other than 0. *)
Definition ilog2 (x : Q) : Z :=
  let k := (Z.log2 (Z.abs (Qnum x)) - Z.log2 (Zpos (Qden x)))%Z in
  if Qle_bool (2 ^ k) (Qabs x) then k else (k - 1)%Z.

(** The nearest integer, a tie going to the even one. *)
Definition roundEven (y : Q) : Z :=
  let f := Qfloor y in
  match Qcompare (y - inject_Z f) (1 # 2) with
  | Lt => f
  | Gt => (f + 1)%Z
  | Eq => if Z.even f then f else (f + 1)%Z
  end.

(** [x] rounded to binary64: to 53 significant bits, or to a multiple
    of [2^-1074] below the normal range. *)
Definition fl (x : Q) : Q :=
  if Qeq_bool x 0 then 0
  else
    let e := Z.max (ilog2 x - 52) (-1074) in
    Qred (inject_Z (roundEven (x / 2 ^ e)) * 2 ^ e).

(** A decimal literal of the program text denotes the binary64 number
    nearest to it. *)
Definition literal (decimal : Q) : Q := fl decimal.

(** [a + b], [a * b] and [a / b] on numbers. *)
Definition add (a b : Q) : Q := fl (a + b).
Definition mul (a b : Q) : Q := fl (a * b).
Definition div (a b : Q) : Q := fl (a / b).

End Binary64.

(* ===================================================================== *)
(** * Growth engine *)
(* ===================================================================== *)

(** ** [shared/utils/growth.ts] *)
Module GrowthUtils.

(** [calculateGrowth] in exact arithmetic: what the runtime computes as
    long as no operation rounds, as it does for whole counters and no
    upvotes. *)
Definition calculateGrowth (seedsPlanted spiritsFed robotCharged redditUpvotes : Q) : Q :=
  seedsPlanted * GROWTH_MULTIPLIERS.SEEDS_PLANTED +
  spiritsFed * GROWTH_MULTIPLIERS.SPIRITS_FED +
  robotCharged * GROWTH_MULTIPLIERS.ROBOT_CHARGED +
  redditUpvotes * GROWTH_MULTIPLIERS.REDDIT_UPVOTES.

(** [calculateGrowth] as the runtime evaluates it: the multipliers are
    binary64 literals, and every product and every sum, taken from left
    to right, is rounded to binary64. *)
Definition calculateGrowth_binary64
    (seedsPlanted spiritsFed robotCharged redditUpvotes : Q) : Q :=
  Binary64.add
    (Binary64.add
       (Binary64.add
          (Binary64.mul seedsPlanted (Binary64.literal GROWTH_MULTIPLIERS.SEEDS_PLANTED))
          (Binary64.mul spiritsFed (Binary64.literal GROWTH_MULTIPLIERS.SPIRITS_FED)))
       (Binary64.mul robotCharged (Binary64.literal GROWTH_MULTIPLIERS.ROBOT_CHARGED)))
    (Binary64.mul redditUpvotes (Binary64.literal GROWTH_MULTIPLIERS.REDDIT_UPVOTES)).

Definition calculateTreeLevel (totalGrowth : Q) : Q :=
  if num_ge totalGrowth (growthRequired SPIRIT_TREE) then level SPIRIT_TREE
  else if num_ge totalGrowth (growthRequired ANCIENT_TREE) then level ANCIENT_TREE
  else if num_ge totalGrowth (growthRequired MATURE_TREE) then level MATURE_TREE
  else if num_ge totalGrowth (growthRequired YOUNG_TREE) then level YOUNG_TREE
  else if num_ge totalGrowth (growthRequired SAPLING) then level SAPLING
  else level SEEDLING.

End GrowthUtils.

(** [Array.prototype.sort] with a comparator, as a stable insertion sort:
    [cmp a b > 0] moves [a] behind [b]. *)
Fixpoint sort_insert {A} (cmp : A -> A -> Q) (x : A) (l : list A) : list A :=
  match l with
  | [] => [x]
  | y :: l' => if num_gt (cmp x y) 0 then y :: sort_insert cmp x l' else x :: l
  end.

Definition Array_sort {A} (cmp : A -> A -> Q) (l : list A) : list A :=
  foldr (sort_insert cmp) [] l.

(** [Array.prototype.slice(0, limit)] for an integral [limit]: a negative
    limit counts from the end of the array. *)
Definition Array_slice0 {A} (limit : Z) (l : list A) : list A :=
  if (limit <? 0)%Z then take (length l - Z.to_nat (- limit)) l
  else take (Z.to_nat limit) l.

(** [Array.prototype.findIndex], counting from [index]. *)
Fixpoint findIndexFrom {A} (index : Z) (predicate : A -> bool) (l : list A) : Z :=
  match l with
  | [] => (-1)%Z
  | x :: l' => if predicate x then index else findIndexFrom (index + 1)%Z predicate l'
  end.

Definition Array_findIndex {A} (predicate : A -> bool) (l : list A) : Z :=
  findIndexFrom 0%Z predicate l.

(** ** [GrowthCalculationService] *)
Module GrowthCalculationService.

(** Evaluated in binary64: the sum as in the shared utility, then
    [Math.round(growth * 100) / 100].  [Math.round] itself is exact. *)
Definition calculateGrowth (seedsPlanted spiritsFed robotCharged redditUpvotes : Q) : Q :=
  let growth :=
    Binary64.add
      (Binary64.add
         (Binary64.add
            (Binary64.mul seedsPlanted (Binary64.literal GROWTH_MULTIPLIERS.SEEDS_PLANTED))
            (Binary64.mul spiritsFed (Binary64.literal GROWTH_MULTIPLIERS.SPIRITS_FED)))
         (Binary64.mul robotCharged (Binary64.literal GROWTH_MULTIPLIERS.ROBOT_CHARGED)))
      (Binary64.mul redditUpvotes (Binary64.literal GROWTH_MULTIPLIERS.REDDIT_UPVOTES)) in
  Binary64.div (Math_round (Binary64.mul growth (Binary64.literal 100)))
               (Binary64.literal 100).

(** The [for ... of] loop over the sorted levels. *)
Fixpoint firstReached (totalGrowth : Q) (sortedLevels : list TreeLevel) : Q :=
  match sortedLevels with
  | [] => 1
  | lv :: rest =>
      if num_ge totalGrowth (growthRequired lv) then level lv
      else firstReached totalGrowth rest
  end.

Definition calculateTreeLevel (totalGrowth : Q) : Q :=
  let levels := TREE_LEVELS in
  let sortedLevels :=
    Array_sort (fun a b => growthRequired b - growthRequired a) levels in
  firstReached totalGrowth sortedLevels.

(** The object [checkMilestones] resolves with; an absent property is
    [None]. *)
Record MilestoneResult := mkMilestoneResult {
  levelUp : bool;
  newLevel : option Q;
  milestoneReached : option string
}.

(** [levelNames[level]] inside a template literal. *)
Definition levelNames (level : Q) : string :=
  if Qeq_bool level 1 then "Seedling"
  else if Qeq_bool level 2 then "Sapling"
  else if Qeq_bool level 3 then "Young Tree"
  else if Qeq_bool level 4 then "Mature Tree"
  else if Qeq_bool level 5 then "Ancient Tree"
  else if Qeq_bool level 6 then "Spirit Tree"
  else "undefined".

(** The loop over the growth milestones, left at the first one crossed. *)
Fixpoint firstCrossed (previousTotalGrowth newTotalGrowth : Q) (milestones : list Z)
    : option Z :=
  match milestones with
  | [] => None
  | milestone :: rest =>
      if num_lt previousTotalGrowth (inject_Z milestone)
         && num_ge newTotalGrowth (inject_Z milestone)
      then Some milestone
      else firstCrossed previousTotalGrowth newTotalGrowth rest
  end.

(** The method is [async] but awaits nothing and cannot throw. *)
Definition checkMilestones (_subredditName : string)
    (previousTotalGrowth newTotalGrowth : Q) : MilestoneResult :=
  let previousLevel := calculateTreeLevel previousTotalGrowth in
  let newLevel := calculateTreeLevel newTotalGrowth in
  let result_levelUp := num_gt newLevel previousLevel in
  let result_newLevel := if num_gt newLevel previousLevel then Some newLevel else None in
  let result_milestoneReached :=
    match result_newLevel with
    | Some level =>
        if result_levelUp && negb (Qeq_bool level 0)
        then Some ("Tree evolved to " +:+ levelNames level +:+ "!")
        else None
    | None => None
    end in
  let milestones := [100; 250; 500; 1000; 2500; 5000]%Z in
  let result_milestoneReached :=
    match firstCrossed previousTotalGrowth newTotalGrowth milestones with
    | Some milestone =>
        Some ("Community reached " +:+ pretty milestone +:+ " total growth!")
    | None => result_milestoneReached
    end in
  mkMilestoneResult result_levelUp result_newLevel result_milestoneReached.

End GrowthCalculationService.

(* ===================================================================== *)
(** * Data model ([shared/types/api]) *)
(* ===================================================================== *)

Module GameState.
Record t := mk {
  subredditName : string;
  treeLevel : Q;
  totalGrowth : Q;
  seedsPlanted : Q;
  spiritsFed : Q;
  robotCharged : Q;
  dailyUpvotes : Q;
  lastGrowthCalculation : Z;
  createdAt : Z;
  updatedAt : Z
}.

(** [Partial<Omit<GameState, 'subredditName' | 'createdAt'>>]: a field is
    [None] when the property is absent from the object. *)
Record partial := mkPartial {
  p_treeLevel : option Q;
  p_totalGrowth : option Q;
  p_seedsPlanted : option Q;
  p_spiritsFed : option Q;
  p_robotCharged : option Q;
  p_dailyUpvotes : option Q;
  p_lastGrowthCalculation : option Z;
  p_updatedAt : option Z
}.

Definition noUpdates : partial :=
  mkPartial None None None None None None None None.

(** [{ ...current, ...updates }] *)
Definition spread (current : t) (updates : partial) : t :=
  mk (subredditName current)
     (default (treeLevel current) (p_treeLevel updates))
     (default (totalGrowth current) (p_totalGrowth updates))
     (default (seedsPlanted current) (p_seedsPlanted updates))
     (default (spiritsFed current) (p_spiritsFed updates))
     (default (robotCharged current) (p_robotCharged updates))
     (default (dailyUpvotes current) (p_dailyUpvotes updates))
     (default (lastGrowthCalculation current) (p_lastGrowthCalculation updates))
     (createdAt current)
     (default (updatedAt current) (p_updatedAt updates)).

Definition set_updatedAt (d : Z) (s : t) : t :=
  mk (subredditName s) (treeLevel s) (totalGrowth s) (seedsPlanted s)
     (spiritsFed s) (robotCharged s) (dailyUpvotes s)
     (lastGrowthCalculation s) (createdAt s) d.

Definition set_treeLevel (lv : Q) (s : t) : t :=
  mk (subredditName s) lv (totalGrowth s) (seedsPlanted s)
     (spiritsFed s) (robotCharged s) (dailyUpvotes s)
     (lastGrowthCalculation s) (createdAt s) (updatedAt s).
End GameState.

Module PlayerResources.
Record t := mk {
  username : string;
  subredditName : string;
  cinnamon : Q;
  seeds : Q;
  energy : Q;
  totalContributions : Q;
  lastActive : Z
}.

(** [Partial<Omit<PlayerResources, 'username' | 'subredditName'>>] *)
Record partial := mkPartial {
  p_cinnamon : option Q;
  p_seeds : option Q;
  p_energy : option Q;
  p_totalContributions : option Q;
  p_lastActive : option Z
}.

Definition noUpdates : partial := mkPartial None None None None None.

Definition spread (current : t) (updates : partial) : t :=
  mk (username current) (subredditName current)
     (default (cinnamon current) (p_cinnamon updates))
     (default (seeds current) (p_seeds updates))
     (default (energy current) (p_energy updates))
     (default (totalContributions current) (p_totalContributions updates))
     (default (lastActive current) (p_lastActive updates)).

Definition set_lastActive (d : Z) (r : t) : t :=
  mk (username r) (subredditName r) (cinnamon r) (seeds r) (energy r)
     (totalContributions r) d.
End PlayerResources.

Inductive ActionType := plant | feed | charge | post.

Module ActionHistory.
Record t := mk {
  id : string;
  username : string;
  subredditName : string;
  actionType : ActionType;
  resourcesSpent : Q;
  timestamp : Z;
  growthContributed : Q
}.

(** [Omit<ActionHistory, 'id' | 'timestamp'>] *)
Record draft := mkDraft {
  d_username : string;
  d_subredditName : string;
  d_actionType : ActionType;
  d_resourcesSpent : Q;
  d_growthContributed : Q
}.
End ActionHistory.

Module REDIS_KEYS.
Definition SUBREDDIT_STATE (subreddit : string) : string :=
  "cinnarito:subreddit:" +:+ subreddit +:+ ":state".
Definition PLAYER_RESOURCES (username subreddit : string) : string :=
  "cinnarito:player:" +:+ username +:+ ":" +:+ subreddit +:+ ":resources".
Definition ACTION_HISTORY (subreddit : string) : string :=
  "cinnarito:subreddit:" +:+ subreddit +:+ ":actions".
End REDIS_KEYS.

Module ERROR_MESSAGES.
Definition INSUFFICIENT_RESOURCES : string :=
  "Not enough cinnamon to perform this action".
Definition REDIS_CONNECTION_ERROR : string := "Database connection error".
End ERROR_MESSAGES.

(* ===================================================================== *)
(** * The execution environment *)
(* ===================================================================== *)

(** An element of a stored JSON array: the action list holds action
    records, the player index holds user names. *)
Inductive Item :=
| IAction (a : ActionHistory.t)
| IName (s : string).

(** The JSON document stored under a key, decoded. *)
Inductive Stored :=
| VState (s : GameState.t)
| VPlayer (r : PlayerResources.t)
| VList (l : list Item).

(** What the process does to the outside, oldest first. *)
Inductive Event :=
| EvGet (key : string)
| EvSet (key : string)
| EvSleep (ms : Z).

(** The world a request runs in: the Redis contents, the outages the
    store will suffer (the n-th entry decides the n-th command from now:
    [Some msg] makes it throw [msg]; past the end of the list the store
    is available), the clock, the trace of events so far and the
    outputs [Math.random] will give to [generateActionId]. *)
Record World := mkWorld {
  redis : gmap string Stored;
  outages : list (option string);
  clock : Z;
  trace : list Event;
  entropy : list string
}.

Inductive Outcome (A : Type) :=
| Ok (a : A)
| Throw (message : string).
Arguments Ok {A} a.
Arguments Throw {A} message.

(** An [async] computation: it runs in a world, changes it, and either
    returns or throws.  What it did before throwing stays done. *)
Definition Promise (A : Type) : Type := World -> Outcome A * World.

Definition resolve {A} (a : A) : Promise A := fun w => (Ok a, w).

Definition throw {A} (message : string) : Promise A := fun w => (Throw message, w).

Definition await {A B} (m : Promise A) (k : A -> Promise B) : Promise B :=
  fun w =>
    match m w with
    | (Ok a, w') => k a w'
    | (Throw e, w') => (Throw e, w')
    end.

Definition try_catch {A} (m : Promise A) (handler : string -> Promise A) : Promise A :=
  fun w =>
    match m w with
    | (Ok a, w') => (Ok a, w')
    | (Throw e, w') => handler e w'
    end.

#[global] Instance Promise_ret : MRet Promise := @resolve.
#[global] Instance Promise_bind : MBind Promise := fun A B k m => await m k.

Definition record (e : Event) (w : World) : World :=
  mkWorld (redis w) (outages w) (clock w) (trace w ++ [e]) (entropy w).

(** The store answers the next command: it consumes one entry of the
    outage schedule. *)
Definition next_command (w : World) : option string * World :=
  match outages w with
  | [] => (None, w)
  | o :: rest => (o, mkWorld (redis w) rest (clock w) (trace w) (entropy w))
  end.

(** [redis.get(key)] *)
Definition redis_get (key : string) : Promise (option Stored) :=
  fun w =>
    let '(fault, w1) := next_command (record (EvGet key) w) in
    match fault with
    | Some msg => (Throw msg, w1)
    | None => (Ok (redis w1 !! key), w1)
    end.

(** [redis.set(key, JSON.stringify(value))] *)
Definition redis_set (key : string) (value : Stored) : Promise unit :=
  fun w =>
    let '(fault, w1) := next_command (record (EvSet key) w) in
    match fault with
    | Some msg => (Throw msg, w1)
    | None =>
        (Ok tt, mkWorld (<[key := value]> (redis w1)) (outages w1) (clock w1)
                        (trace w1) (entropy w1))
    end.

(** [new Date()] and [Date.now()] *)
Definition Date_now : Promise Z := fun w => (Ok (clock w), w).

(** [await new Promise(resolve => setTimeout(resolve, delay))] *)
Definition sleep (delay : Z) : Promise unit :=
  fun w =>
    (Ok tt, mkWorld (redis w) (outages w) (clock w + delay)%Z
                    (trace w ++ [EvSleep delay]) (entropy w)).

(** [Math.random().toString(36).substr(2, 9)] *)
Definition Math_random_token : Promise string :=
  fun w =>
    match entropy w with
    | [] => (Ok "", w)
    | s :: rest => (Ok s, mkWorld (redis w) (outages w) (clock w) (trace w) rest)
    end.

(** [`${error}`] for a caught [Error]. *)
Definition Error_toString (message : string) : string :=
  if decide (message = "") then "Error" else "Error: " +:+ message.

(** The retry wrapper every service carries a copy of:
[[
    for (let attempt = 1; attempt <= maxRetries; attempt++) {
      try { return await operation(); }
      catch (error) {
        lastError = error;
        if (attempt === maxRetries) break;
        await sleep(retryDelay * Math.pow(2, attempt - 1));
      }
    }
    throw new Error(`${REDIS_CONNECTION_ERROR}: ${lastError?.message || 'Unknown error'}`);
]]
    [iterations] bounds the remaining passes through the loop. *)
Definition connectionError (lastError : option string) : string :=
  ERROR_MESSAGES.REDIS_CONNECTION_ERROR +:+ ": " +:+
  match lastError with
  | Some msg => if decide (msg = "") then "Unknown error" else msg
  | None => "Unknown error"
  end.

Fixpoint retryLoop {A} (maxRetries retryDelay : Z) (iterations : nat)
    (attempt : Z) (lastError : option string) (operation : Promise A) : Promise A :=
  match iterations with
  | O => throw (connectionError lastError)
  | S iterations' =>
      if (attempt <=? maxRetries)%Z then
        try_catch operation (fun error =>
          if (attempt =? maxRetries)%Z then throw (connectionError (Some error))
          else
            _ ← sleep (retryDelay * 2 ^ (attempt - 1))%Z;
            retryLoop maxRetries retryDelay iterations' (attempt + 1)%Z
                      (Some error) operation)
      else throw (connectionError lastError)
  end.

Definition withRetryPolicy {A} (maxRetries retryDelay : Z) (operation : Promise A) : Promise A :=
  retryLoop maxRetries retryDelay (Z.to_nat maxRetries) 1%Z None operation.

(* ===================================================================== *)
(** * [RedisGameService] *)
(* ===================================================================== *)

Module RedisGameService.

Definition maxRetries : Z := 3.
Definition retryDelay : Z := 1000.

Definition withRetry {A} (operation : Promise A) : Promise A :=
  withRetryPolicy maxRetries retryDelay operation.

(** The private level lookup: [Object.values(TREE_LEVELS)] walked from
    its last entry down to its first. *)
Fixpoint lastReached (totalGrowth : Q) (levelsDownward : list TreeLevel) : Q :=
  match levelsDownward with
  | [] => 1
  | lv :: rest =>
      if num_ge totalGrowth (growthRequired lv) then level lv
      else lastReached totalGrowth rest
  end.

Definition calculateTreeLevel (totalGrowth : Q) : Q :=
  let levels := TREE_LEVELS in
  lastReached totalGrowth (rev levels).

(** A document of another shape under the key fails [isGameState]. *)
Definition getGameState (subredditName : string) : Promise (option GameState.t) :=
  withRetry (
    let key := REDIS_KEYS.SUBREDDIT_STATE subredditName in
    data ← redis_get key;
    match data with
    | None => mret None
    | Some (VState parsed) => mret (Some parsed)
    | Some _ => throw "Invalid game state data structure"
    end).

(** [saveGameState] stamps [updatedAt] on the object it is given; the
    caller keeps using that same object, so the stamped record is
    handed back. *)
Definition saveGameState (gameState : GameState.t) : Promise GameState.t :=
  withRetry (
    let key := REDIS_KEYS.SUBREDDIT_STATE (GameState.subredditName gameState) in
    now ← Date_now;
    let gameState := GameState.set_updatedAt now gameState in
    _ ← redis_set key (VState gameState);
    mret gameState).

Definition initializeGameState (subredditName : string) : Promise GameState.t :=
  try_catch (
    existingState ← getGameState subredditName;
    match existingState with
    | Some existing => mret existing
    | None =>
        lastGrowthCalculation ← Date_now;
        createdAt ← Date_now;
        updatedAt ← Date_now;
        let initialState :=
          GameState.mk subredditName 1 0 0 0 0 0
                       lastGrowthCalculation createdAt updatedAt in
        initialState ← saveGameState initialState;
        mret initialState
    end)
    (fun error => throw ("Failed to initialize game state: " +:+ Error_toString error)).

Definition updateGameState (subredditName : string) (updates : GameState.partial)
    : Promise GameState.t :=
  withRetry (
    currentState ← getGameState subredditName;
    match currentState with
    | None => throw ("Game state not found for subreddit: " +:+ subredditName)
    | Some currentState =>
        now ← Date_now;
        let updatedState :=
          GameState.set_updatedAt now (GameState.spread currentState updates) in
        let updatedState :=
          GameState.set_treeLevel
            (calculateTreeLevel (GameState.totalGrowth updatedState)) updatedState in
        updatedState ← saveGameState updatedState;
        mret updatedState
    end).

Definition generateActionId : Promise string :=
  now ← Date_now;
  token ← Math_random_token;
  mret ("action_" +:+ pretty now +:+ "_" +:+ token).

(** [updates.x || 0] *)
Definition orZero (x : option Q) : Q := default 0 x.

Definition updateGameStateFromAction (action : ActionHistory.t) : Promise unit :=
  let updates :=
    GameState.mkPartial None (Some 0) None None None None None None in
  let updates :=
    match ActionHistory.actionType action with
    | plant =>
        GameState.mkPartial None (Some 0) (Some 1) None None None None None
    | feed =>
        GameState.mkPartial None (Some 0) None (Some 1) None None None None
    | charge =>
        GameState.mkPartial None (Some 0) None None (Some 1) None None None
    | post => updates
    end in
  currentState ← getGameState (ActionHistory.subredditName action);
  let updates :=
    match currentState with
    | Some currentState =>
        GameState.mkPartial
          (GameState.p_treeLevel updates)
          (Some (GameState.totalGrowth currentState
                 + ActionHistory.growthContributed action))
          (Some (GameState.seedsPlanted currentState
                 + orZero (GameState.p_seedsPlanted updates)))
          (Some (GameState.spiritsFed currentState
                 + orZero (GameState.p_spiritsFed updates)))
          (Some (GameState.robotCharged currentState
                 + orZero (GameState.p_robotCharged updates)))
          (GameState.p_dailyUpvotes updates)
          (GameState.p_lastGrowthCalculation updates)
          (GameState.p_updatedAt updates)
    | None => updates
    end in
  _ ← updateGameState (ActionHistory.subredditName action) updates;
  mret tt.

(** [actions.unshift(action)], then [actions.splice(1000)] when the list
    has grown past 1000. *)
Definition unshiftCapped (action : ActionHistory.t) (actions : list Item) : list Item :=
  let actions := IAction action :: actions in
  if (1000 <? length actions)%nat then take 1000 actions else actions.

Definition recordAction (actionHistory : ActionHistory.draft) : Promise ActionHistory.t :=
  withRetry (
    id ← generateActionId;
    timestamp ← Date_now;
    let action :=
      ActionHistory.mk id
        (ActionHistory.d_username actionHistory)
        (ActionHistory.d_subredditName actionHistory)
        (ActionHistory.d_actionType actionHistory)
        (ActionHistory.d_resourcesSpent actionHistory)
        timestamp
        (ActionHistory.d_growthContributed actionHistory) in
    let actionKey :=
      REDIS_KEYS.ACTION_HISTORY (ActionHistory.d_subredditName actionHistory) in
    existingActions ← redis_get actionKey;
    actions ← match existingActions with
              | None => mret []
              | Some (VList l) => mret l
              | Some _ => throw "actions.unshift is not a function"
              end;
    let actions := unshiftCapped action actions in
    _ ← redis_set actionKey (VList actions);
    _ ← updateGameStateFromAction action;
    mret action).

(** The callback of [map] in [getRecentActions]: an entry of another
    shape fails [isActionHistory]. *)
Fixpoint parseActions (actions : list Item) : Promise (list ActionHistory.t) :=
  match actions with
  | [] => mret []
  | IAction parsed :: rest =>
      others ← parseActions rest;
      mret (parsed :: others)
  | IName _ :: _ => throw "Invalid action history data structure"
  end.

(** [limit] is [None] when the caller leaves the argument out. *)
Definition getRecentActions (subredditName : string) (limit : option Z)
    : Promise (list ActionHistory.t) :=
  let limit := default 50%Z limit in
  withRetry (
    let key := REDIS_KEYS.ACTION_HISTORY subredditName in
    data ← redis_get key;
    match data with
    | None => mret []
    | Some (VList actions) => parseActions (Array_slice0 limit actions)
    | Some _ => throw "actions.slice is not a function"
    end).

End RedisGameService.

(* ===================================================================== *)
(** * [PlayerResourceService] *)
(* ===================================================================== *)

Module PlayerResourceService.

Definition maxRetries : Z := 3.
Definition retryDelay : Z := 1000.

Definition withRetry {A} (operation : Promise A) : Promise A :=
  withRetryPolicy maxRetries retryDelay operation.

Definition playerIndexKey (subredditName : string) : string :=
  "cinnarito:subreddit:" +:+ subredditName +:+ ":players".

Definition getPlayerResources (username subredditName : string)
    : Promise (option PlayerResources.t) :=
  withRetry (
    let key := REDIS_KEYS.PLAYER_RESOURCES username subredditName in
    data ← redis_get key;
    match data with
    | None => mret None
    | Some (VPlayer parsed) => mret (Some parsed)
    | Some _ => throw "Invalid player resources data structure"
    end).

(** [players.includes(username)] *)
Definition includes (username : string) (players : list Item) : bool :=
  existsb (fun item => match item with
                       | IName s => bool_decide (s = username)
                       | IAction _ => false
                       end) players.

Definition updatePlayerIndex (username subredditName : string) : Promise unit :=
  let indexKey := playerIndexKey subredditName in
  playersData ← redis_get indexKey;
  players ← match playersData with
            | None => mret []
            | Some (VList l) => mret l
            | Some _ => throw "players.includes is not a function"
            end;
  if negb (includes username players) then
    redis_set indexKey (VList (players ++ [IName username]))
  else mret tt.

(** As [saveGameState]: [lastActive] is stamped on the caller's object. *)
Definition savePlayerResources (resources : PlayerResources.t)
    : Promise PlayerResources.t :=
  withRetry (
    let key := REDIS_KEYS.PLAYER_RESOURCES (PlayerResources.username resources)
                                           (PlayerResources.subredditName resources) in
    now ← Date_now;
    let resources := PlayerResources.set_lastActive now resources in
    _ ← redis_set key (VPlayer resources);
    _ ← updatePlayerIndex (PlayerResources.username resources)
                          (PlayerResources.subredditName resources);
    mret resources).

Definition initializePlayerResources (username subredditName : string)
    : Promise PlayerResources.t :=
  try_catch (
    existingResources ← getPlayerResources username subredditName;
    match existingResources with
    | Some existing => mret existing
    | None =>
        lastActive ← Date_now;
        let initialResources :=
          PlayerResources.mk username subredditName
            RESOURCE_REWARDS.STARTING_CINNAMON 0 0 0 lastActive in
        initialResources ← savePlayerResources initialResources;
        mret initialResources
    end)
    (fun error => throw ("Failed to initialize player resources: " +:+ Error_toString error)).

Definition validateResourceLimits (resources : PlayerResources.t) : Promise unit :=
  if num_lt (PlayerResources.cinnamon resources) 0 then
    throw "Cinnamon cannot be negative"
  else if num_gt (PlayerResources.cinnamon resources) LIMITS.MAX_CINNAMON then
    throw "Cinnamon cannot exceed 10000"
  else if num_lt (PlayerResources.seeds resources) 0 then
    throw "Seeds cannot be negative"
  else if num_lt (PlayerResources.energy resources) 0 then
    throw "Energy cannot be negative"
  else if num_lt (PlayerResources.totalContributions resources) 0 then
    throw "Total contributions cannot be negative"
  else mret tt.

Definition notFound (username subredditName : string) : string :=
  "Player resources not found: " +:+ username +:+ " in " +:+ subredditName.

Definition updatePlayerResources (username subredditName : string)
    (updates : PlayerResources.partial) : Promise PlayerResources.t :=
  withRetry (
    currentResources ← getPlayerResources username subredditName;
    match currentResources with
    | None => throw (notFound username subredditName)
    | Some currentResources =>
        now ← Date_now;
        let updatedResources :=
          PlayerResources.set_lastActive now
            (PlayerResources.spread currentResources updates) in
        _ ← validateResourceLimits updatedResources;
        updatedResources ← savePlayerResources updatedResources;
        mret updatedResources
    end).

Definition earnCinnamon (username subredditName : string) (amount : Q)
    : Promise PlayerResources.t :=
  if num_le amount 0 then throw "Cinnamon amount must be positive"
  else
    withRetry (
      currentResources ← getPlayerResources username subredditName;
      match currentResources with
      | None => throw (notFound username subredditName)
      | Some currentResources =>
          let newCinnamon :=
            Math_min (PlayerResources.cinnamon currentResources + amount)
                     LIMITS.MAX_CINNAMON in
          updatePlayerResources username subredditName
            (PlayerResources.mkPartial (Some newCinnamon) None None None None)
      end).

Definition spendCinnamon (username subredditName : string) (amount : Q)
    : Promise PlayerResources.t :=
  if num_le amount 0 then throw "Cinnamon amount must be positive"
  else
    withRetry (
      currentResources ← getPlayerResources username subredditName;
      match currentResources with
      | None => throw (notFound username subredditName)
      | Some currentResources =>
          if num_lt (PlayerResources.cinnamon currentResources) amount then
            throw ERROR_MESSAGES.INSUFFICIENT_RESOURCES
          else
            updatePlayerResources username subredditName
              (PlayerResources.mkPartial
                 (Some (PlayerResources.cinnamon currentResources - amount))
                 None None
                 (Some (PlayerResources.totalContributions currentResources + amount))
                 None)
      end).

Definition getActionCost (actionType : string) : Promise Q :=
  if decide (actionType = "plant") then mret RESOURCE_COSTS.PLANT_SEED
  else if decide (actionType = "feed") then mret RESOURCE_COSTS.FEED_SPIRIT
  else if decide (actionType = "charge") then mret RESOURCE_COSTS.CHARGE_ROBOT
  else if decide (actionType = "post") then mret RESOURCE_COSTS.POST_UPDATE
  else throw ("Unknown action type: " +:+ actionType).

Definition canAffordAction (username subredditName actionType : string)
    : Promise bool :=
  withRetry (
    resources ← getPlayerResources username subredditName;
    match resources with
    | None => mret false
    | Some resources =>
        cost ← getActionCost actionType;
        mret (num_ge (PlayerResources.cinnamon resources) cost)
    end).

Definition processActionTransaction (username subredditName actionType : string)
    : Promise (PlayerResources.t * Q) :=
  withRetry (
    cost ← getActionCost actionType;
    if Qeq_bool cost 0 then
      resources ← updatePlayerResources username subredditName
                    PlayerResources.noUpdates;
      mret (resources, cost)
    else
      resources ← spendCinnamon username subredditName cost;
      mret (resources, cost)).

Definition awardDailyBonus (username subredditName : string)
    : Promise PlayerResources.t :=
  earnCinnamon username subredditName RESOURCE_REWARDS.DAILY_BONUS.

Definition awardUpvoteCinnamon (username subredditName : string) (upvoteCount : Q)
    : Promise PlayerResources.t :=
  let cinnamonAmount := upvoteCount * RESOURCE_REWARDS.UPVOTE_CINNAMON in
  earnCinnamon username subredditName cinnamonAmount.

(** An entry of the player index inside the template literal of a key. *)
Definition entryName (entry : Item) : string :=
  match entry with
  | IName username => username
  | IAction _ => "[object Object]"
  end.

(** The loop of [getSubredditPlayers]: [players.push] for every entry
    that has a record. *)
Fixpoint collectPlayers (subredditName : string) (playerUsernames : list Item)
    (players : list PlayerResources.t) : Promise (list PlayerResources.t) :=
  match playerUsernames with
  | [] => mret players
  | username :: rest =>
      playerData ← getPlayerResources (entryName username) subredditName;
      collectPlayers subredditName rest
        match playerData with
        | Some playerData => players ++ [playerData]
        | None => players
        end
  end.

Definition getSubredditPlayers (subredditName : string) (limit : option Z)
    : Promise (list PlayerResources.t) :=
  let limit := default 100%Z limit in
  withRetry (
    let indexKey := "cinnarito:subreddit:" +:+ subredditName +:+ ":players" in
    playersData ← redis_get indexKey;
    match playersData with
    | None => mret []
    | Some (VList playerUsernames) =>
        players ← collectPlayers subredditName (Array_slice0 limit playerUsernames) [];
        mret (Array_sort
                (fun a b => PlayerResources.totalContributions b
                            - PlayerResources.totalContributions a)
                players)
    | Some _ => throw "playerUsernames.slice is not a function or its return value is not iterable"
    end).

Definition getPlayerRank (username subredditName : string) : Promise Z :=
  withRetry (
    players ← getSubredditPlayers subredditName None;
    let playerIndex :=
      Array_findIndex (fun p => bool_decide (PlayerResources.username p = username))
                      players in
    mret (if (0 <=? playerIndex)%Z then (playerIndex + 1)%Z else (-1)%Z)).

End PlayerResourceService.

(* ===================================================================== *)
(** * [GameServiceIntegration] *)
(* ===================================================================== *)

Module GameServiceIntegration.

(** The object [awardUpvoteCinnamon] resolves with; an absent property is
    [None]. *)
Record UpvoteResult := mkUpvoteResult {
  success : bool;
  playerResources : option PlayerResources.t;
  cinnamonAwarded : option Q;
  error : option string
}.

Definition awardUpvoteCinnamon (username subredditName : string) (upvoteCount : Q)
    : Promise UpvoteResult :=
  try_catch (
    updatedResources ←
      PlayerResourceService.awardUpvoteCinnamon username subredditName upvoteCount;
    gameState ← RedisGameService.getGameState subredditName;
    _ ← match gameState with
        | Some gameState =>
            _ ← RedisGameService.updateGameState subredditName
                  (GameState.mkPartial None None None None None
                     (Some (GameState.dailyUpvotes gameState + upvoteCount))
                     None None);
            mret tt
        | None => mret tt
        end;
    mret (mkUpvoteResult true (Some updatedResources)
            (Some (upvoteCount * RESOURCE_REWARDS.UPVOTE_CINNAMON)) None))
    (fun error => mret (mkUpvoteResult false None None (Some error))).

Definition calculateGrowthContribution (actionType : string) : Q :=
  if decide (actionType = "plant") then GROWTH_MULTIPLIERS.SEEDS_PLANTED
  else if decide (actionType = "feed") then GROWTH_MULTIPLIERS.SPIRITS_FED
  else if decide (actionType = "charge") then GROWTH_MULTIPLIERS.ROBOT_CHARGED
  else if decide (actionType = "post") then 0
  else 0.

End GameServiceIntegration.

(* ===================================================================== *)
(** * [RedditPostingService] *)
(* ===================================================================== *)

Module RedditPostingService.

Definition getTreeEmoji (level : Q) : string :=
  if num_ge level 10 then "🌳"
  else if num_ge level 7 then "🌲"
  else if num_ge level 4 then "🌿"
  else if num_ge level 2 then "🌱"
  else "🌰".

End RedditPostingService.

(* ===================================================================== *)
(** * Regular expressions and [String.prototype.replace] *)
(* ===================================================================== *)

(** Strings are scanned as lists of code units.  The templates are UTF-8
    here; every byte of a multi-byte character is above 127, so it is
    neither a brace, a dot nor a word character, and scanning bytes finds
    the same placeholders as scanning UTF-16 units. *)
Abbreviation chars := (list ascii).

Definition chars_of (s : string) : chars := String.list_ascii_of_string s.
Definition string_of (l : chars) : string := String.string_of_list_ascii l.

(** The fragment of the regular-expression language the template pattern
    uses. *)
Inductive Regex :=
| RChar (c : ascii)
| RWord
| RSeq (r1 r2 : Regex)
| RStar (r : Regex)
| RPlus (r : Regex)
| RGroup (r : Regex).

(** [\w] is [[A-Za-z0-9_]]. *)
Definition isWordChar (c : ascii) : bool :=
  let n := nat_of_ascii c in
  ((48 <=? n) && (n <=? 57)) || ((65 <=? n) && (n <=? 90))
  || ((97 <=? n) && (n <=? 122)) || (n =? 95).

(** A backtracking matcher in continuation-passing style: [matchRe r s cap k]
    tries the ways [r] can match a prefix of [s], in the order of
    preference of the engine (a quantifier takes as much as it can first),
    and hands the remaining input and the capture to [k] until [k]
    accepts.  [cap] is capture group 1. *)
Fixpoint starLoop {R} (fuel : nat)
    (step : chars -> option chars -> (chars -> option chars -> option R) -> option R)
    (s : chars) (cap : option chars)
    (k : chars -> option chars -> option R) : option R :=
  match fuel with
  | O => k s cap
  | S fuel' =>
      match step s cap (fun s' cap' =>
                          if (length s' <? length s)%nat
                          then starLoop fuel' step s' cap' k
                          else None) with
      | Some res => Some res
      | None => k s cap
      end
  end.

Fixpoint matchRe {R} (r : Regex) (s : chars) (cap : option chars)
    (k : chars -> option chars -> option R) : option R :=
  match r with
  | RChar c =>
      match s with
      | c' :: s' => if Ascii.eqb c c' then k s' cap else None
      | [] => None
      end
  | RWord =>
      match s with
      | c' :: s' => if isWordChar c' then k s' cap else None
      | [] => None
      end
  | RSeq r1 r2 => matchRe r1 s cap (fun s' cap' => matchRe r2 s' cap' k)
  | RStar r1 => starLoop (length s) (matchRe r1) s cap k
  | RPlus r1 =>
      matchRe r1 s cap (fun s' cap' => starLoop (length s') (matchRe r1) s' cap' k)
  | RGroup r1 =>
      matchRe r1 s cap (fun s' _ => k s' (Some (take (length s - length s') s)))
  end.

(** [regex.exec] anchored at the head of [s]: the input left after the
    match and capture group 1. *)
Definition matchHere (r : Regex) (s : chars) : option (chars * option chars) :=
  matchRe r s None (fun rest cap => Some (rest, cap)).

(** [s.replace(regex, replacer)] for a global regex and a function
    replacer: scan from the left; where the regex matches, emit what the
    replacer returns for (match, group 1) and go on behind the match (one
    unit further when the match is empty); elsewhere copy one unit. *)
Fixpoint replaceLoop (fuel : nat) (r : Regex)
    (replacer : chars -> option chars -> chars) (s : chars) : chars :=
  match fuel with
  | O => s
  | S fuel' =>
      match matchHere r s with
      | Some (rest, cap) =>
          let matched := take (length s - length rest) s in
          if (length rest <? length s)%nat then
            replacer matched cap ++ replaceLoop fuel' r replacer rest
          else
            replacer matched cap ++
            match s with
            | [] => []
            | c :: s' => c :: replaceLoop fuel' r replacer s'
            end
      | None =>
          match s with
          | [] => []
          | c :: s' => c :: replaceLoop fuel' r replacer s'
          end
      end
  end.

Definition String_replace (r : Regex) (replacer : chars -> option chars -> chars)
    (s : chars) : chars :=
  replaceLoop (S (length s)) r replacer s.

(** [path.split('.')] *)
Fixpoint splitOn (sep : ascii) (s : chars) : list chars :=
  match s with
  | [] => [[]]
  | c :: s' =>
      if Ascii.eqb c sep then [] :: splitOn sep s'
      else match splitOn sep s' with
           | [] => [[c]]
           | seg :: segs => (c :: seg) :: segs
           end
  end.

(* ===================================================================== *)
(** * [ChronicleGenerationService]: template processing *)
(* ===================================================================== *)

(** The values a template context holds. *)
#[warnings="-register-all"]
Inductive JsValue :=
| JUndefined
| JNull
| JBoolean (b : bool)
| JNumber (n : Q)
| JString (s : string)
| JFunction (source : string)
| JObject (props : list (string * JsValue)).

Module ChronicleGenerationService.

Section Runtime.

(** Two services of the JavaScript runtime: [value[key]] for a value
    that is neither [null] nor [undefined] (own properties and the
    prototype chain), and [String(value)]. *)
Variable getProperty : JsValue -> string -> JsValue.
Variable String_ : JsValue -> string.

(** [current?.[key]] *)
Definition optionalMember (current : JsValue) (key : string) : JsValue :=
  match current with
  | JUndefined | JNull => JUndefined
  | _ => getProperty current key
  end.

Definition getNestedValue (obj : JsValue) (path : chars) : JsValue :=
  fold_left (fun current key => optionalMember current (string_of key))
            (splitOn "."%char path) obj.

(** The pattern of [processTemplate]: two opening braces; group 1, one
    or more word characters followed by any number of groups "dot,
    one or more word characters"; two closing braces. *)
Definition placeholderPattern : Regex :=
  RSeq (RChar "{"%char) (RSeq (RChar "{"%char)
    (RSeq (RGroup (RSeq (RPlus RWord)
                        (RStar (RSeq (RChar "."%char) (RPlus RWord)))))
          (RSeq (RChar "}"%char) (RChar "}"%char)))).

(** The replacer [(match, path) => ...].  Group 1 takes part in every
    match of the pattern, so [path] is always there. *)
Definition replacer (context : JsValue) (matched : chars) (path : option chars)
    : chars :=
  match path with
  | Some path =>
      match getNestedValue context path with
      | JUndefined => matched
      | value => chars_of (String_ value)
      end
  | None => matched
  end.

Definition processTemplate (template : string) (context : JsValue) : string :=
  string_of (String_replace placeholderPattern (replacer context)
                            (chars_of template)).

End Runtime.

(** Dates are milliseconds since the epoch, and 1 January 1970 was a
    Thursday.  [Date_addUTCDays n] is [d.setUTCDate(d.getUTCDate() + n)],
    which the calendar carries into the next month, and
    [Date_setUTCHours h] is [d.setUTCHours(h, 0, 0, 0)]. *)
Definition Date_getUTCDay (d : Z) : Z := ((d / 86400000 + 4) mod 7)%Z.

Definition Date_addUTCDays (n : Z) (d : Z) : Z := (d + n * 86400000)%Z.

Definition Date_setUTCHours (h : Z) (d : Z) : Z :=
  (d / 86400000 * 86400000 + h * 3600000)%Z.

Inductive ScheduleType := daily | weekly.

Definition calculateNextRunTime (scheduleType : ScheduleType) : Promise Z :=
  now ← Date_now;
  let nextRun := now in
  match scheduleType with
  | daily =>
      let nextRun := Date_addUTCDays 1 nextRun in
      mret (Date_setUTCHours 9 nextRun)
  | weekly =>
      let remainder := Z.rem (8 - Date_getUTCDay nextRun) 7 in
      let daysUntilMonday := if (remainder =? 0)%Z then 7%Z else remainder in
      let nextRun := Date_addUTCDays daysUntilMonday nextRun in
      mret (Date_setUTCHours 9 nextRun)
  end.

End ChronicleGenerationService.

(** A plain-object runtime: own properties only; [String] renders a number
    as its integer part, which is exact for the integral numbers the
    examples use. *)
Fixpoint ownProperty (props : list (string * JsValue)) (key : string) : JsValue :=
  match props with
  | [] => JUndefined
  | (k, v) :: rest => if decide (k = key) then v else ownProperty rest key
  end.

Definition plainGetProperty (v : JsValue) (key : string) : JsValue :=
  match v with
  | JObject props => ownProperty props key
  | _ => JUndefined
  end.

Definition plainString (v : JsValue) : string :=
  match v with
  | JUndefined => "undefined"
  | JNull => "null"
  | JBoolean true => "true"
  | JBoolean false => "false"
  | JNumber n => pretty (Qfloor n)
  | JString s => s
  | JFunction source => source
  | JObject _ => "[object Object]"
  end.

(** [updateGameStateWithGrowth] of [shared/utils/growth.ts]; it reads the
    clock for [updatedAt]. *)
Definition updateGameStateWithGrowth (gameState : GameState.t) (newGrowth : Q)
    : Promise GameState.t :=
  let updatedTotalGrowth := GameState.totalGrowth gameState + newGrowth in
  let newTreeLevel := GrowthUtils.calculateTreeLevel updatedTotalGrowth in
  updatedAt ← Date_now;
  mret (GameState.spread gameState
          (GameState.mkPartial (Some newTreeLevel) (Some updatedTotalGrowth)
             None None None None None (Some updatedAt))).

(* ===================================================================== *)
(** * [ChronicleScheduler] *)
(* ===================================================================== *)

(** The timers of the runtime: [setInterval] hands out a fresh handle for
    a callback that is then due every [delay] milliseconds, and
    [clearInterval] cancels a handle.  The console keeps what was
    logged. *)
Record Runtime := mkRuntime {
  timers : list (nat * Z);
  nextHandle : nat;
  console : list string
}.

Definition console_log (line : string) (rt : Runtime) : Runtime :=
  mkRuntime (timers rt) (nextHandle rt) (console rt ++ [line]).

Definition setInterval (delay : Z) (rt : Runtime) : nat * Runtime :=
  (nextHandle rt,
   mkRuntime (timers rt ++ [(nextHandle rt, delay)]) (S (nextHandle rt)) (console rt)).

Definition clearInterval (handle : nat) (rt : Runtime) : Runtime :=
  mkRuntime (filter (fun timer => fst timer <> handle) (timers rt))
            (nextHandle rt) (console rt).

Module ChronicleScheduler.

(** The fields of the class; a timer handle is an object, hence truthy. *)
Record t := mk {
  intervalId : option nat;
  isRunning : bool
}.

Definition checkInterval : Z := 60000.

Definition new : t := mk None false.

Definition start (this : t) (rt : Runtime) : t * Runtime :=
  if isRunning this then
    (this, console_log "Chronicle scheduler is already running" rt)
  else
    let rt := console_log "Starting chronicle scheduler..." rt in
    let this := mk (intervalId this) true in
    let '(handle, rt) := setInterval checkInterval rt in
    (mk (Some handle) (isRunning this), rt).

Definition stop (this : t) (rt : Runtime) : t * Runtime :=
  if negb (isRunning this) then
    (this, console_log "Chronicle scheduler is not running" rt)
  else
    let rt := console_log "Stopping chronicle scheduler..." rt in
    let this := mk (intervalId this) false in
    match intervalId this with
    | Some handle => (mk None (isRunning this), clearInterval handle rt)
    | None => (this, rt)
    end.

Definition getStatus (this : t) : bool * Z := (isRunning this, checkInterval).

Section Ticks.

(** [chronicleGenerationService.processScheduledChronicles], which posts
    to Reddit. *)
Variable processScheduledChronicles : string -> Promise unit.

Definition getActiveSubreddits : Promise (list string) :=
  try_catch (mret []) (fun error => mret []).

(** The loop of [processAllSubreddits]; a failure for one subreddit is
    logged and the loop goes on. *)
Fixpoint processEach (activeSubreddits : list string) : Promise unit :=
  match activeSubreddits with
  | [] => mret tt
  | subredditName :: rest =>
      _ ← try_catch (processScheduledChronicles subredditName) (fun error => mret tt);
      processEach rest
  end.

(** The callback of the timer. *)
Definition processAllSubreddits : Promise unit :=
  try_catch (
    activeSubreddits ← getActiveSubreddits;
    processEach activeSubreddits)
    (fun error => mret tt).

Definition triggerForSubreddit (subredditName : string) : Promise unit :=
  try_catch (processScheduledChronicles subredditName) (fun error => throw error).

End Ticks.

End ChronicleScheduler.

(* ===================================================================== *)
(** * [shared/types/validation.ts] *)
(* ===================================================================== *)

Module Validation.

Definition validateResourceCost (actionType : ActionType)
    (playerResources : PlayerResources.t) : bool :=
  let requiredCinnamon :=
    match actionType with
    | plant => 5
    | feed => 3
    | charge => 10
    | post => 0
    end in
  num_ge (PlayerResources.cinnamon playerResources) requiredCinnamon.

Definition createDefaultGameState (subredditName : string) : Promise GameState.t :=
  now ← Date_now;
  mret (GameState.mk subredditName 1 0 0 0 0 0 now now now).

Definition createDefaultPlayerResources (username subredditName : string)
    : Promise PlayerResources.t :=
  lastActive ← Date_now;
  mret (PlayerResources.mk username subredditName 10 0 0 0 lastActive).

End Validation.

(* ===================================================================== *)
(** * Vocabulary of the specification *)
(* ===================================================================== *)

(** [r] is [x] rounded to two decimal places, a tie at the third decimal
    going up: [r] is a whole number of hundredths and
    [r - 0.005 <= x < r + 0.005]. *)
Definition roundedHalfUp2 (x r : Q) : Prop :=
  (exists n : Z, r == inject_Z n / 100) /\
  r - (5 # 1000) <= x /\ x < r + (5 # 1000).

(** The formula of the requirements, in exact arithmetic. *)
Definition growthFormula (s f c u : Q) : Q :=
  (15 # 10) * s + 2 * f + 3 * c + (1 # 10) * u.

(** [lv] is the highest level of the table whose threshold [x] has
    reached. *)
Definition highestLevelReached (x lv : Q) : Prop :=
  (exists e, In e TREE_LEVELS /\ growthRequired e <= x /\ level e = lv) /\
  (forall e, In e TREE_LEVELS -> growthRequired e <= x -> level e <= lv).

(** ** Hoare triples

    [triple P m Q E]: run from a world satisfying [P], the computation [m]
    ends in a world satisfying [Q a] when it returns [a], and [E e] when
    it throws [e]. *)
Definition triple {A} (P : World -> Prop) (m : Promise A)
    (Q : A -> World -> Prop) (E : string -> World -> Prop) : Prop :=
  forall w, P w ->
    match m w with
    | (Ok a, w') => Q a w'
    | (Throw e, w') => E e w'
    end.

(** An assertion that does not look at the clock or the trace survives
    the pauses between attempts. *)
Definition sleepProof (I : World -> Prop) : Prop :=
  forall w d, I w -> I (snd (sleep d w)).

(** Assertions about the store alone. *)
Definition onStore (Φ : gmap string Stored -> Prop) : World -> Prop :=
  fun w => Φ (redis w).

(** The store is available from now on. *)
Definition calm (w : World) : Prop := outages w = [].

(** The world after a successful [redis.set]. *)
Definition stored (key : string) (value : Stored) (w : World) : World :=
  mkWorld (<[key := value]> (redis w)) (outages w) (clock w)
          (trace w ++ [EvSet key]) (entropy w).

(** Every game state is stored under the key of its own subreddit. *)
Definition wellKeyed (R : gmap string Stored) : Prop :=
  forall sub st,
    R !! REDIS_KEYS.SUBREDDIT_STATE sub = Some (VState st) ->
    GameState.subredditName st = sub.

(** The level of a game state is the one its growth gives. *)
Definition levelDerived (st : GameState.t) : Prop :=
  GameState.treeLevel st
  = RedisGameService.calculateTreeLevel (GameState.totalGrowth st).

(** Every stored game state has the level its growth gives. *)
Definition everyLevelDerived (R : gmap string Stored) : Prop :=
  forall key st, R !! key = Some (VState st) -> levelDerived st.

(** ** Sample worlds *)

(** A garden two growth points short of level 2, in an available store. *)
Definition gardenState : GameState.t := GameState.mk "garden" 1 48 32 0 0 0 0 0 0.

Definition gardenWorld : World :=
  mkWorld {[ REDIS_KEYS.SUBREDDIT_STATE "garden" := VState gardenState ]}
          [] 7 [] [].

(** An update in which the caller passes a level of its own. *)
Definition gardenUpdates : GameState.partial :=
  GameState.mkPartial (Some 6) (Some 51) None None None None None None.

Definition gardenCharge : ActionHistory.draft :=
  ActionHistory.mkDraft "alice" "garden" charge 10 3.

(** ** Folding an action into a game state *)

(** The counter an action of type [t] adds to [which]. *)
Definition counts (t which : ActionType) : Q :=
  match t, which with
  | plant, plant | feed, feed | charge, charge => 1
  | _, _ => 0
  end.

(** The game state after an action of type [t] contributing [g], written
    at time [now]. *)
Definition afterAction (t : ActionType) (g : Q) (now : Z) (st : GameState.t)
    : GameState.t :=
  GameState.mk (GameState.subredditName st)
    (RedisGameService.calculateTreeLevel (GameState.totalGrowth st + g))
    (GameState.totalGrowth st + g)
    (GameState.seedsPlanted st + counts t plant)
    (GameState.spiritsFed st + counts t feed)
    (GameState.robotCharged st + counts t charge)
    (GameState.dailyUpvotes st)
    (GameState.lastGrowthCalculation st)
    (GameState.createdAt st)
    now.

(** The action list stored for a subreddit; a missing key reads as the
    empty list. *)
Definition historyIs (sub : string) (l : list Item) (R : gmap string Stored) : Prop :=
  R !! REDIS_KEYS.ACTION_HISTORY sub = Some (VList l)
  \/ (R !! REDIS_KEYS.ACTION_HISTORY sub = None /\ l = []).

(** An available store holding the state [st] and the action list [l] of
    subreddit [sub]. *)
Definition gardenIs (sub : string) (st : GameState.t) (l : list Item) (w : World)
    : Prop :=
  calm w
  /\ redis w !! REDIS_KEYS.SUBREDDIT_STATE sub = Some (VState st)
  /\ GameState.subredditName st = sub
  /\ historyIs sub l (redis w).

(** The record [recordAction] builds from a draft in world [w]. *)
Definition actionOf (draft : ActionHistory.draft) (w : World) : ActionHistory.t :=
  ActionHistory.mk
    ("action_" +:+ pretty (clock w) +:+ "_" +:+ hd "" (entropy w))
    (ActionHistory.d_username draft)
    (ActionHistory.d_subredditName draft)
    (ActionHistory.d_actionType draft)
    (ActionHistory.d_resourcesSpent draft)
    (clock w)
    (ActionHistory.d_growthContributed draft).

(** [n] times the same action, one request after the other. *)
Fixpoint repeatAction (n : nat) (draft : ActionHistory.draft) : Promise unit :=
  match n with
  | O => mret tt
  | S n' => _ ← RedisGameService.recordAction draft; repeatAction n' draft
  end.

(** The record [initializeGameState] creates for a subreddit at time [now]. *)
Definition initialGameState (sub : string) (now : Z) : GameState.t :=
  GameState.mk sub 1 0 0 0 0 0 now now now.

(** A brand-new subreddit and an available store with nothing in it. *)
Definition emptyWorld : World := mkWorld ∅ [] 1000 [] ["k3j9x2m1q"; "a8s7d6f5g"].

(** The end-to-end run: initialise the subreddit, perform [n] charge
    actions worth [g] growth each, read the state back. *)
Definition chargeScenario (sub user : string) (spent g : Q) (n : nat)
    : Promise (option GameState.t) :=
  _ ← RedisGameService.initializeGameState sub;
  _ ← repeatAction n (ActionHistory.mkDraft user sub charge spent g);
  RedisGameService.getGameState sub.

(** No stored action list is longer than 1000. *)
Definition historiesCapped (R : gmap string Stored) : Prop :=
  forall sub l, R !! REDIS_KEYS.ACTION_HISTORY sub = Some (VList l) ->
                (length l <= 1000)%nat.

(** A property of the store that writing a game state cannot break. *)
Definition stateWriteClosed (Φ : gmap string Stored -> Prop) : Prop :=
  forall R sub st, Φ R -> Φ (<[REDIS_KEYS.SUBREDDIT_STATE sub := VState st]> R).

(** A thousand earlier actions, the oldest last. *)
Definition olderAction (i : nat) : Item :=
  IAction (ActionHistory.mk ("old_" +:+ pretty (Z.of_nat i)) "bob" "garden" plant 5
                            (Z.of_nat (1000 - i)) (15 # 10)).

Definition thousandActions : list Item := map olderAction (seq 0 1000).

Definition fullGardenWorld : World :=
  mkWorld (<[ REDIS_KEYS.ACTION_HISTORY "garden" := VList thousandActions ]>
             {[ REDIS_KEYS.SUBREDDIT_STATE "garden" := VState gardenState ]})
          [] 7 [] [].

(** No stored player has a negative cinnamon balance. *)
Definition cinnamonFloor (R : gmap string Stored) : Prop :=
  forall key p, R !! key = Some (VPlayer p) -> 0 <= PlayerResources.cinnamon p.

(** The pauses a trace shows, in order. *)
Fixpoint pauses (t : list Event) : list Z :=
  match t with
  | [] => []
  | EvSleep ms :: t' => ms :: pauses t'
  | _ :: t' => pauses t'
  end.

(** The reads of [key] a trace shows. *)
Fixpoint readsOf (key : string) (t : list Event) : nat :=
  match t with
  | [] => 0
  | EvGet k :: t' => (if decide (k = key) then 1 else 0) + readsOf key t'
  | _ :: t' => readsOf key t'
  end.

(** The operations of [PlayerResourceService] that callers use to change
    a player's resources.  The amounts, counts and update fields are finite
    numbers. *)
Inductive PlayerRequest :=
| ReqInitialize (username subredditName : string)
| ReqUpdate (username subredditName : string) (updates : PlayerResources.partial)
| ReqEarn (username subredditName : string) (amount : Q)
| ReqSpend (username subredditName : string) (amount : Q)
| ReqTransaction (username subredditName actionType : string)
| ReqDailyBonus (username subredditName : string)
| ReqUpvotes (username subredditName : string) (upvoteCount : Q).

Definition forget {A} (m : Promise A) : Promise unit := _ ← m; mret tt.

Definition serve (req : PlayerRequest) : Promise unit :=
  match req with
  | ReqInitialize u s => forget (PlayerResourceService.initializePlayerResources u s)
  | ReqUpdate u s upd => forget (PlayerResourceService.updatePlayerResources u s upd)
  | ReqEarn u s a => forget (PlayerResourceService.earnCinnamon u s a)
  | ReqSpend u s a => forget (PlayerResourceService.spendCinnamon u s a)
  | ReqTransaction u s t => forget (PlayerResourceService.processActionTransaction u s t)
  | ReqDailyBonus u s => forget (PlayerResourceService.awardDailyBonus u s)
  | ReqUpvotes u s n => forget (PlayerResourceService.awardUpvoteCinnamon u s n)
  end.

(** A series of requests; a request that fails does not stop the next. *)
Fixpoint serveAll (reqs : list PlayerRequest) : Promise unit :=
  match reqs with
  | [] => mret tt
  | req :: rest =>
      _ ← try_catch (serve req) (fun _ => mret tt);
      serveAll rest
  end.

(** Alice with 2 cinnamon in an available store. *)
Definition aliceResources : PlayerResources.t :=
  PlayerResources.mk "alice" "garden" 2 0 0 0 0.

Definition aliceWorld : World :=
  mkWorld {[ REDIS_KEYS.PLAYER_RESOURCES "alice" "garden" := VPlayer aliceResources ]}
          [] 7 [] [].

(** A garden whose state key holds a document of the wrong shape. *)
Definition malformedWorld : World :=
  mkWorld {[ REDIS_KEYS.SUBREDDIT_STATE "garden" := VList [] ]} [] 7 [] [].

(** The garden behind a store that drops the first command. *)
Definition flakyGardenWorld : World :=
  mkWorld {[ REDIS_KEYS.SUBREDDIT_STATE "garden" := VState gardenState ]}
          [Some "ECONNRESET"] 7 [] [].

(** ** Placeholders *)

(** A non-empty run of word characters. *)
Definition isWord (w : chars) : Prop := w <> [] /\ forallb isWordChar w = true.

(** Any number of segments "dot, word". *)
Inductive dotSegments : chars -> Prop :=
| ds_none : dotSegments []
| ds_more (w ds : chars) :
    isWord w -> dotSegments ds -> dotSegments ("."%char :: w ++ ds).

(** A dotted path: a word followed by segments "dot, word". *)
Definition dottedPath (p : chars) : Prop :=
  exists w ds, isWord w /\ dotSegments ds /\ p = w ++ ds.

(** The text of the placeholder for a path. *)
Definition placeholder (path : chars) : chars :=
  "{"%char :: "{"%char :: path ++ ["}"%char; "}"%char].

(** The strings a regular expression matches, with capture group 1 before
    and after the match.  (No group of the fragment in use stands under a
    quantifier.) *)
Inductive matches : Regex -> chars -> option chars -> option chars -> Prop :=
| MChar c cap : matches (RChar c) [c] cap cap
| MWord c cap : isWordChar c = true -> matches RWord [c] cap cap
| MSeq r1 r2 s1 s2 cap cap1 cap2 :
    matches r1 s1 cap cap1 -> matches r2 s2 cap1 cap2 ->
    matches (RSeq r1 r2) (s1 ++ s2) cap cap2
| MStarEnd r cap : matches (RStar r) [] cap cap
| MStarMore r s1 s2 cap cap1 cap2 :
    matches r s1 cap cap1 -> matches (RStar r) s2 cap1 cap2 ->
    matches (RStar r) (s1 ++ s2) cap cap2
| MPlus r s1 s2 cap cap1 cap2 :
    matches r s1 cap cap1 -> matches (RStar r) s2 cap1 cap2 ->
    matches (RPlus r) (s1 ++ s2) cap cap2
| MGroup r s cap cap1 :
    matches r s cap cap1 -> matches (RGroup r) s cap (Some s).

(** The context and the templates of the specification's example. *)
Definition levelThreeContext : JsValue :=
  JObject [("gameState", JObject [("treeLevel", JNumber 3)])].

(** What may follow a dotted path for the path to end there: nothing, or a
    character that is neither a word character nor a dot. *)
Definition closes (tail : chars) : Prop :=
  match tail with
  | [] => True
  | c :: _ => isWordChar c = false /\ c <> "."%char
  end.

(** The sub-patterns of the placeholder pattern: "dot, word" and the
    dotted path. *)
Definition dotWordPattern : Regex := RSeq (RChar "."%char) (RPlus RWord).

Definition pathPattern : Regex := RSeq (RPlus RWord) (RStar dotWordPattern).

(** ** Player records and the player index *)

(** A record that passes every check of [validateResourceLimits]. *)
Definition withinLimits (r : PlayerResources.t) : Prop :=
  0 <= PlayerResources.cinnamon r
  /\ PlayerResources.cinnamon r <= LIMITS.MAX_CINNAMON
  /\ 0 <= PlayerResources.seeds r
  /\ 0 <= PlayerResources.energy r
  /\ 0 <= PlayerResources.totalContributions r.

Definition everyPlayerWithinLimits (R : gmap string Stored) : Prop :=
  forall key p, R !! key = Some (VPlayer p) -> withinLimits p.

(** The player index stored for a subreddit; a missing key reads as the
    empty list. *)
Definition indexIs (sub : string) (names : list Item) (R : gmap string Stored) : Prop :=
  R !! PlayerResourceService.playerIndexKey sub = Some (VList names)
  \/ (R !! PlayerResourceService.playerIndexKey sub = None /\ names = []).

(** The index once [username] has been registered in it. *)
Definition indexWith (username : string) (names : list Item) : list Item :=
  if PlayerResourceService.includes username names then names
  else names ++ [IName username].

(** An available store holding the record [p] of player [username] in
    [sub], stored under its own names, and the player index [names]. *)
Definition playerIs (username sub : string) (p : PlayerResources.t)
    (names : list Item) (w : World) : Prop :=
  calm w
  /\ redis w !! REDIS_KEYS.PLAYER_RESOURCES username sub = Some (VPlayer p)
  /\ PlayerResources.username p = username
  /\ PlayerResources.subredditName p = sub
  /\ indexIs sub names (redis w).

(** The cost table of [getActionCost]. *)
Definition costOf (actionType : string) : option Q :=
  if decide (actionType = "plant") then Some RESOURCE_COSTS.PLANT_SEED
  else if decide (actionType = "feed") then Some RESOURCE_COSTS.FEED_SPIRIT
  else if decide (actionType = "charge") then Some RESOURCE_COSTS.CHARGE_ROBOT
  else if decide (actionType = "post") then Some RESOURCE_COSTS.POST_UPDATE
  else None.

(** The user names a stored list holds. *)
Fixpoint namesOf (l : list Item) : list string :=
  match l with
  | [] => []
  | IName s :: l' => s :: namesOf l'
  | IAction _ :: l' => namesOf l'
  end.

(** No stored list names a player twice. *)
Definition indexesDistinct (R : gmap string Stored) : Prop :=
  forall key l, R !! key = Some (VList l) -> NoDup (namesOf l).

(** Alice, a second time, with a well-stocked purse. *)
Definition richAlice : PlayerResources.t :=
  PlayerResources.mk "alice" "garden" 9998 0 0 40 0.

Definition richAliceWorld : World :=
  mkWorld (<[ PlayerResourceService.playerIndexKey "garden" := VList [IName "alice"] ]>
             {[ REDIS_KEYS.PLAYER_RESOURCES "alice" "garden" := VPlayer richAlice ]})
          [] 7 [] [].

(** Store properties that survive the two writes of the player service:
    registering a user name that the index does not hold yet, and storing a
    record that is within the limits. *)
Definition registerClosed (Φ : gmap string Stored -> Prop) : Prop :=
  forall R key l username,
    Φ R ->
    R !! key = Some (VList l) \/ (R !! key = None /\ l = []) ->
    PlayerResourceService.includes username l = false ->
    Φ (<[key := VList (l ++ [IName username])]> R).

Definition playerWriteClosed (Φ : gmap string Stored -> Prop) : Prop :=
  forall R key p, withinLimits p -> Φ R -> Φ (<[key := VPlayer p]> R).

(** A session of requests on Alice's account; some of them fail. *)
Definition aliceSession : list PlayerRequest :=
  [ ReqEarn "alice" "garden" 5;
    ReqSpend "alice" "garden" 20000;
    ReqInitialize "bob" "garden";
    ReqTransaction "bob" "garden" "charge";
    ReqUpvotes "alice" "garden" (-3) ].

(** The record [initializePlayerResources] creates at time [now]. *)
Definition initialPlayerResources (username sub : string) (now : Z) : PlayerResources.t :=
  PlayerResources.mk username sub RESOURCE_REWARDS.STARTING_CINNAMON 0 0 0 now.

(** ** Sequences of actions *)

(** The requests of [drafts], one after the other. *)
Fixpoint recordAll (drafts : list ActionHistory.draft) : Promise unit :=
  match drafts with
  | [] => mret tt
  | draft :: rest => _ ← RedisGameService.recordAction draft; recordAll rest
  end.

(** The state after the actions of [drafts], all written at [now]. *)
Definition afterActions (now : Z) (drafts : list ActionHistory.draft)
    (st : GameState.t) : GameState.t :=
  fold_left (fun st draft =>
               afterAction (ActionHistory.d_actionType draft)
                           (ActionHistory.d_growthContributed draft) now st)
            drafts st.

(** The draft an action was made from. *)
Definition draftOf (a : ActionHistory.t) : ActionHistory.draft :=
  ActionHistory.mkDraft (ActionHistory.username a) (ActionHistory.subredditName a)
    (ActionHistory.actionType a) (ActionHistory.resourcesSpent a)
    (ActionHistory.growthContributed a).

(** An action type as the string a request carries. *)
Definition actionName (t : ActionType) : string :=
  match t with
  | plant => "plant"
  | feed => "feed"
  | charge => "charge"
  | post => "post"
  end.

(** A draft with the growth [processPlayerAction] gives its action type. *)
Definition standardDraft (draft : ActionHistory.draft) : Prop :=
  ActionHistory.d_growthContributed draft
  = GameServiceIntegration.calculateGrowthContribution
      (actionName (ActionHistory.d_actionType draft)).

(** The total growth is what the shared growth formula gives for the
    three counters, upvotes left out. *)
Definition balanced (st : GameState.t) : Prop :=
  GameState.totalGrowth st
  == GrowthUtils.calculateGrowth (GameState.seedsPlanted st) (GameState.spiritsFed st)
       (GameState.robotCharged st) 0.

(** A garden with a short history and no state, and one with a state. *)
Definition gardenPlant : ActionHistory.draft :=
  ActionHistory.mkDraft "alice" "garden" plant 5 (15 # 10).

Definition gardenFeed : ActionHistory.draft :=
  ActionHistory.mkDraft "bob" "garden" feed 3 2.

Definition statelessWorld : World :=
  mkWorld {[ REDIS_KEYS.ACTION_HISTORY "garden" := VList [olderAction 0] ]}
          [] 7 [] ["k3j9x2m1q"].

Definition freshGarden : GameState.t := initialGameState "garden" 7.

Definition freshGardenWorld : World :=
  mkWorld {[ REDIS_KEYS.SUBREDDIT_STATE "garden" := VState freshGarden ]}
          [] 7 [] ["k3j9x2m1q"; "a8s7d6f5g"].

(** Two game states that hold the same values. *)
Definition sameGameState (a b : GameState.t) : Prop :=
  GameState.subredditName a = GameState.subredditName b
  /\ GameState.treeLevel a == GameState.treeLevel b
  /\ GameState.totalGrowth a == GameState.totalGrowth b
  /\ GameState.seedsPlanted a == GameState.seedsPlanted b
  /\ GameState.spiritsFed a == GameState.spiritsFed b
  /\ GameState.robotCharged a == GameState.robotCharged b
  /\ GameState.dailyUpvotes a == GameState.dailyUpvotes b
  /\ GameState.lastGrowthCalculation a = GameState.lastGrowthCalculation b
  /\ GameState.createdAt a = GameState.createdAt b
  /\ GameState.updatedAt a = GameState.updatedAt b.


(** ** The leaderboard *)

(** The records of the players an index lists, in the order of the index;
    an entry without a record is passed over. *)
Fixpoint listedPlayers (R : gmap string Stored) (sub : string) (entries : list Item)
    : list PlayerResources.t :=
  match entries with
  | [] => []
  | entry :: rest =>
      match R !! REDIS_KEYS.PLAYER_RESOURCES (PlayerResourceService.entryName entry) sub with
      | Some (VPlayer p) => p :: listedPlayers R sub rest
      | _ => listedPlayers R sub rest
      end
  end.

(** No key of a listed player holds a document of another shape. *)
Definition indexReadable (R : gmap string Stored) (sub : string) (entries : list Item)
    : Prop :=
  Forall (fun entry =>
            match R !! REDIS_KEYS.PLAYER_RESOURCES
                         (PlayerResourceService.entryName entry) sub with
            | Some (VPlayer _) | None => True
            | Some _ => False
            end) entries.


(** Highest contributions first. *)
Definition byContributions (a b : PlayerResources.t) : Prop :=
  PlayerResources.totalContributions b <= PlayerResources.totalContributions a.

(** A subreddit with 101 registered players; the last to join has
    contributed most. *)
Definition earlyPlayer (i : nat) : Item := IName ("player" +:+ pretty (Z.of_nat i)).

Definition zoe : PlayerResources.t := PlayerResources.mk "zoe" "garden" 0 0 0 5000 0.

Definition crowdedWorld : World :=
  mkWorld (<[ PlayerResourceService.playerIndexKey "garden"
              := VList (map earlyPlayer (seq 0 100) ++ [IName "zoe"]) ]>
             {[ REDIS_KEYS.PLAYER_RESOURCES "zoe" "garden" := VPlayer zoe ]})
          [] 7 [] [].

(** ** Driving the scheduler *)

Inductive SchedulerCall := CallStart | CallStop.

(** A series of calls on one scheduler object. *)
Fixpoint runScheduler (calls : list SchedulerCall)
    (this : ChronicleScheduler.t) (rt : Runtime) : ChronicleScheduler.t * Runtime :=
  match calls with
  | [] => (this, rt)
  | CallStart :: rest =>
      let '(this, rt) := ChronicleScheduler.start this rt in runScheduler rest this rt
  | CallStop :: rest =>
      let '(this, rt) := ChronicleScheduler.stop this rt in runScheduler rest this rt
  end.

(** A runtime in which no timer has been set yet. *)
Definition freshRuntime : Runtime := mkRuntime [] 0 [].

(** The timers a scheduler object answers for. *)
Definition timersOf (this : ChronicleScheduler.t) : list (nat * Z) :=
  match ChronicleScheduler.intervalId this with
  | Some handle => [(handle, 60000%Z)]
  | None => []
  end.

(** [result] is the number of [exact] rounded to two decimal places, a
    tie going up: the binary64 number nearest to that decimal. *)
Definition returnsRounded2 (exact result : Q) : Prop :=
  exists r, roundedHalfUp2 exact r /\ result == Binary64.fl r.

(** ** Paths into the context *)

(** The text of a path: its keys joined by dots. *)
Definition dotted (keys : list string) : string := String.concat "." keys.

(** The keys of a placeholder: at least one, each a non-empty run of
    word characters. *)
Definition wordKeys (keys : list string) : Prop :=
  keys <> [] /\ Forall (fun key => isWord (chars_of key)) keys.

(** [resolvesTo getProperty v keys value]: from [v], the keys lead to
    [value].  No key leads to [v] itself; a key is looked up in the
    value reached so far, and from [undefined] and [null] every key
    leads to [undefined]. *)
Inductive resolvesTo (getProperty : JsValue -> string -> JsValue) :
    JsValue -> list string -> JsValue -> Prop :=
| resolves_here (v : JsValue) : resolvesTo getProperty v [] v
| resolves_undefined (key : string) (keys : list string) (value : JsValue) :
    resolvesTo getProperty JUndefined keys value ->
    resolvesTo getProperty JUndefined (key :: keys) value
| resolves_null (key : string) (keys : list string) (value : JsValue) :
    resolvesTo getProperty JUndefined keys value ->
    resolvesTo getProperty JNull (key :: keys) value
| resolves_member (v : JsValue) (key : string) (keys : list string) (value : JsValue) :
    v <> JUndefined -> v <> JNull ->
    resolvesTo getProperty (getProperty v key) keys value ->
    resolvesTo getProperty v (key :: keys) value.

(* ===================================================================== *)
(** * Properties of the growth engine *)
(* ===================================================================== *)

Lemma num_ge_spec (a b : Q) : num_ge a b = true <-> b <= a.
Proof. unfold num_ge. apply Qle_bool_iff. Qed.

Lemma num_le_spec (a b : Q) : num_le a b = true <-> a <= b.
Proof. unfold num_le. apply Qle_bool_iff. Qed.

Lemma num_lt_spec (a b : Q) : num_lt a b = true <-> a < b.
Proof.
  unfold num_lt. rewrite negb_true_iff, <- not_true_iff_false, Qle_bool_iff.
  split; [apply Qnot_le_lt | apply Qlt_not_le].
Qed.

Lemma num_gt_spec (a b : Q) : num_gt a b = true <-> b < a.
Proof.
  unfold num_gt. rewrite negb_true_iff, <- not_true_iff_false, Qle_bool_iff.
  split; [apply Qnot_le_lt | apply Qlt_not_le].
Qed.

Lemma num_lt_false (a b : Q) : num_lt a b = false <-> b <= a.
Proof.
  unfold num_lt. rewrite negb_false_iff. apply Qle_bool_iff.
Qed.

Lemma num_gt_false (a b : Q) : num_gt a b = false <-> a <= b.
Proof.
  unfold num_gt. rewrite negb_false_iff. apply Qle_bool_iff.
Qed.

Lemma num_le_false (a b : Q) : num_le a b = false <-> b < a.
Proof.
  unfold num_le. rewrite <- not_true_iff_false, Qle_bool_iff.
  split; [apply Qnot_le_lt | apply Qlt_not_le].
Qed.

Lemma num_ge_false (a b : Q) : num_ge a b = false <-> a < b.
Proof.
  unfold num_ge. rewrite <- not_true_iff_false, Qle_bool_iff.
  split; [apply Qnot_le_lt | apply Qlt_not_le].
Qed.

(** ** Rounding to two decimals *)

Lemma Math_round_bounds (x : Q) :
  Math_round x - (1 # 2) <= x /\ x < Math_round x + (1 # 2).
Proof.
  unfold Math_round.
  pose proof (Qfloor_le (x + (1 # 2))) as Hlo.
  pose proof (Qlt_floor (x + (1 # 2))) as Hhi.
  rewrite inject_Z_plus in Hhi.
  change (inject_Z 1) with 1 in Hhi.
  split; lra.
Qed.

Lemma round2_rounds (g : Q) : roundedHalfUp2 g (Math_round (g * 100) / 100).
Proof.
  destruct (Math_round_bounds (g * 100)) as [Hlo Hhi].
  split.
  - exists (Qfloor (g * 100 + (1 # 2))). reflexivity.
  - set (m := Math_round (g * 100)) in *.
    assert (Hm : m / 100 == m * (1 # 100)) by (unfold Qdiv; reflexivity).
    rewrite Hm. split; lra.
Qed.

Lemma roundedHalfUp2_unique (x r1 r2 : Q) :
  roundedHalfUp2 x r1 -> roundedHalfUp2 x r2 -> r1 == r2.
Proof.
  intros [[n1 E1] [L1 U1]] [[n2 E2] [L2 U2]].
  assert (D1 : inject_Z n1 / 100 == inject_Z n1 * (1 # 100)) by (unfold Qdiv; reflexivity).
  assert (D2 : inject_Z n2 / 100 == inject_Z n2 * (1 # 100)) by (unfold Qdiv; reflexivity).
  rewrite D1 in E1. rewrite D2 in E2.
  assert (H1 : inject_Z n1 < inject_Z n2 + 1) by lra.
  assert (H2 : inject_Z n2 < inject_Z n1 + 1) by lra.
  change 1 with (inject_Z 1) in H1, H2.
  rewrite <- inject_Z_plus in H1, H2.
  rewrite <- Zlt_Qlt in H1, H2.
  assert (n1 = n2) by lia. subst n2.
  rewrite E1, E2. reflexivity.
Qed.

Lemma utils_growth_is_formula (s f c u : Q) :
  GrowthUtils.calculateGrowth s f c u == growthFormula s f c u.
Proof.
  unfold GrowthUtils.calculateGrowth, growthFormula,
    GROWTH_MULTIPLIERS.SEEDS_PLANTED, GROWTH_MULTIPLIERS.SPIRITS_FED,
    GROWTH_MULTIPLIERS.ROBOT_CHARGED, GROWTH_MULTIPLIERS.REDDIT_UPVOTES.
  ring.
Qed.

#[global] Instance roundedHalfUp2_proper :
  Proper (Qeq ==> Qeq ==> iff) roundedHalfUp2.
Proof.
  intros x x' Hx r r' Hr. unfold roundedHalfUp2.
  split; intros [[n E] [L U]]; (split; [exists n | split]).
  all: try (rewrite <- Hr; exact E); try (rewrite Hr; exact E); lra.
Qed.

(** With whole counters the exact sum is a whole number of tenths, so
    rounding it to two decimals changes nothing. *)
Lemma formula_whole_is_rounded (s f c u : N) :
  let n x := inject_Z (Z.of_N x) in
  roundedHalfUp2 (growthFormula (n s) (n f) (n c) (n u))
                 (growthFormula (n s) (n f) (n c) (n u)).
Proof.
  intros n. unfold roundedHalfUp2. split; [| split; lra].
  exists (150 * Z.of_N s + 200 * Z.of_N f + 300 * Z.of_N c + 10 * Z.of_N u)%Z.
  unfold growthFormula, n.
  rewrite !inject_Z_plus, !inject_Z_mult.
  unfold Qdiv. change (/ 100) with (1 # 100).
  change (inject_Z 150) with 150. change (inject_Z 200) with 200.
  change (inject_Z 300) with 300. change (inject_Z 10) with 10.
  ring.
Qed.

(** ** Binary64 rounding *)

Lemma roundEven_near (y : Q) :
  - (1 # 2) <= inject_Z (Binary64.roundEven y) - y /\
  inject_Z (Binary64.roundEven y) - y <= 1 # 2.
Proof.
  unfold Binary64.roundEven.
  pose proof (Qfloor_le y) as Hlo.
  pose proof (Qlt_floor y) as Hhi.
  rewrite inject_Z_plus in Hhi. change (inject_Z 1) with 1 in Hhi.
  destruct (Qcompare_spec (y - inject_Z (Qfloor y)) (1 # 2)) as [He | Hl | Hg].
  - destruct (Z.even (Qfloor y));
      rewrite ?inject_Z_plus; change (inject_Z 1) with 1; split; lra.
  - split; lra.
  - rewrite inject_Z_plus. change (inject_Z 1) with 1. split; lra.
Qed.

Lemma pow2_pos (e : Z) : 0 < 2 ^ e.
Proof. apply Qpower_0_lt. reflexivity. Qed.

Lemma Qabs_fraction (x : Q) :
  Qabs x == inject_Z (Z.abs (Qnum x)) / inject_Z (Zpos (Qden x)).
Proof. destruct x as [n d]. cbn [Qabs Qnum Qden]. apply Qmake_Qdiv. Qed.

Lemma ilog2_lower (x : Q) : ~ x == 0 -> 2 ^ Binary64.ilog2 x <= Qabs x.
Proof.
  intros Hx. unfold Binary64.ilog2.
  set (n := Z.abs (Qnum x)). set (d := Zpos (Qden x)).
  set (k := (Z.log2 n - Z.log2 d)%Z).
  destruct (Qle_bool (2 ^ k) (Qabs x)) eqn:Hle; [apply Qle_bool_iff, Hle |].
  assert (Hn : (0 < n)%Z).
  { subst n. destruct x as [[| p | p] q]; cbn; try lia.
    exfalso. apply Hx. reflexivity. }
  assert (Hd : (0 < d)%Z) by (subst d; lia).
  destruct (Z.log2_spec n Hn) as [Hn1 _].
  destruct (Z.log2_spec d Hd) as [_ Hd2].
  rewrite Qabs_fraction. fold n d.
  replace (k - 1)%Z with (Z.log2 n - Z.succ (Z.log2 d))%Z by (subst k; lia).
  rewrite Qpower_minus by discriminate.
  change 2 with (inject_Z 2).
  rewrite <- !Zpower_Qpower by (pose proof (Z.log2_nonneg n); pose proof (Z.log2_nonneg d); lia).
  assert (A : inject_Z (2 ^ Z.log2 n) <= inject_Z n) by (rewrite <- Zle_Qle; exact Hn1).
  assert (B : inject_Z d <= inject_Z (2 ^ Z.succ (Z.log2 d)))
    by (rewrite <- Zle_Qle; lia).
  assert (Pn : 0 < inject_Z (2 ^ Z.log2 n)).
  { change 0 with (inject_Z 0). rewrite <- Zlt_Qlt. apply Z.pow_pos_nonneg; [lia |].
    apply Z.log2_nonneg. }
  assert (Pd : 0 < inject_Z d) by (change 0 with (inject_Z 0); rewrite <- Zlt_Qlt; exact Hd).
  set (a := inject_Z (2 ^ Z.log2 n)) in *. set (b := inject_Z (2 ^ Z.succ (Z.log2 d))) in *.
  set (N := inject_Z n) in *. set (D := inject_Z d) in *.
  apply Qle_shift_div_l; [exact Pd |].
  assert (E : a / b * D == a * (D / b)) by (field; lra).
  rewrite E.
  assert (F : D / b <= 1) by (apply Qle_shift_div_r; lra).
  assert (G : 0 <= D / b) by (apply Qle_shift_div_l; lra).
  nra.
Qed.

Lemma fl_error (x B : Q) :
  - B <= x -> x <= B -> 1 <= B ->
  - (B * (1 # 9007199254740992)) <= Binary64.fl x - x
  /\ Binary64.fl x - x <= B * (1 # 9007199254740992).
Proof.
  intros Hlo Hhi HB. unfold Binary64.fl.
  destruct (Qeq_bool x 0) eqn:Hz.
  - apply Qeq_bool_iff in Hz. split; lra.
  - assert (Hx : ~ x == 0) by (intros H; apply Qeq_bool_iff in H; congruence).
    set (e := Z.max (Binary64.ilog2 x - 52) (-1074)).
    rewrite Qred_correct.
    pose proof (pow2_pos e) as HP.
    set (P := 2 ^ e) in *.
    destruct (roundEven_near (x / P)) as [R1 R2].
    set (m := inject_Z (Binary64.roundEven (x / P))) in *.
    assert (Ex : x == x / P * P) by (field; lra).
    set (y := x / P) in *.
    assert (HPB : P * (1 # 2) <= B * (1 # 9007199254740992)).
    { subst P e. destruct (Z.max_spec (Binary64.ilog2 x - 52) (-1074)) as [[_ ->] | [_ ->]].
      - assert (C : 2 ^ (-1074) * (1 # 2) <= 1 # 9007199254740992)
          by (apply Qle_bool_iff; vm_compute; reflexivity).
        lra.
      - rewrite Qpower_minus by discriminate.
        pose proof (ilog2_lower x Hx) as Hl.
        assert (Ha : Qabs x <= B) by (apply Qabs_Qle_condition; split; assumption).
        change (2 ^ 52) with 4503599627370496.
        set (L := 2 ^ Binary64.ilog2 x) in *.
        assert (E2 : L / 4503599627370496 == L * (1 # 4503599627370496)) by (field).
        rewrite E2. lra. }
    assert (Ed : m * P - x == (m - y) * P) by (rewrite Ex at 1; ring).
    rewrite Ed. split; nra.
Qed.

Lemma pow2_mono (a b : Z) : (a <= b)%Z -> 2 ^ a <= 2 ^ b.
Proof.
  intros H. apply Qpower_le_compat_l; [exact H | discriminate].
Qed.

Lemma pow2_lt_inv (a b : Z) : 2 ^ a < 2 ^ b -> (a < b)%Z.
Proof.
  intros H. destruct (Z_lt_le_dec a b) as [L | L]; [exact L |].
  apply pow2_mono in L. lra.
Qed.

Lemma ilog2_upper (x : Q) : ~ x == 0 -> Qabs x < 2 ^ (Binary64.ilog2 x + 1).
Proof.
  intros Hx. unfold Binary64.ilog2.
  set (n := Z.abs (Qnum x)). set (d := Zpos (Qden x)).
  set (k := (Z.log2 n - Z.log2 d)%Z).
  destruct (Qle_bool (2 ^ k) (Qabs x)) eqn:Hle.
  2:{ replace (k - 1 + 1)%Z with k by lia.
      apply Qnot_le_lt. intros H. apply Qle_bool_iff in H. congruence. }
  assert (Hn : (0 < n)%Z).
  { subst n. destruct x as [[| p | p] q]; cbn; try lia.
    exfalso. apply Hx. reflexivity. }
  assert (Hd : (0 < d)%Z) by (subst d; lia).
  destruct (Z.log2_spec n Hn) as [_ Hn2].
  destruct (Z.log2_spec d Hd) as [Hd1 _].
  rewrite Qabs_fraction. fold n d.
  replace (k + 1)%Z with (Z.succ (Z.log2 n) - Z.log2 d)%Z by (subst k; lia).
  rewrite Qpower_minus by discriminate.
  change 2 with (inject_Z 2).
  rewrite <- !Zpower_Qpower by (pose proof (Z.log2_nonneg n); pose proof (Z.log2_nonneg d); lia).
  assert (A : inject_Z n < inject_Z (2 ^ Z.succ (Z.log2 n))) by (rewrite <- Zlt_Qlt; exact Hn2).
  assert (B : inject_Z (2 ^ Z.log2 d) <= inject_Z d) by (rewrite <- Zle_Qle; exact Hd1).
  assert (Pd : 0 < inject_Z (2 ^ Z.log2 d)).
  { change 0 with (inject_Z 0). rewrite <- Zlt_Qlt. apply Z.pow_pos_nonneg; [lia |].
    apply Z.log2_nonneg. }
  assert (Pn : 0 < inject_Z n) by (change 0 with (inject_Z 0); rewrite <- Zlt_Qlt; exact Hn).
  set (a := inject_Z (2 ^ Z.succ (Z.log2 n))) in *. set (b := inject_Z (2 ^ Z.log2 d)) in *.
  set (N := inject_Z n) in *. set (D := inject_Z d) in *.
  apply Qlt_shift_div_r; [lra |].
  assert (E : a / b * D == a * (D / b)) by (field; lra).
  rewrite E.
  assert (F : 1 <= D / b) by (apply Qle_shift_div_l; lra).
  nra.
Qed.

(** [ilog2 x] is the one exponent [e] with [2^e <= |x| < 2^(e+1)]. *)
Lemma ilog2_unique (x : Q) (e : Z) :
  2 ^ e <= Qabs x -> Qabs x < 2 ^ (e + 1) -> Binary64.ilog2 x = e.
Proof.
  intros L U.
  assert (Hx : ~ x == 0).
  { intros H. rewrite H in L. change (Qabs 0) with 0 in L.
    pose proof (pow2_pos e). lra. }
  pose proof (ilog2_lower x Hx) as L'. pose proof (ilog2_upper x Hx) as U'.
  assert (A : (e < Binary64.ilog2 x + 1)%Z) by (apply pow2_lt_inv; lra).
  assert (B : (Binary64.ilog2 x < e + 1)%Z) by (apply pow2_lt_inv; lra).
  lia.
Qed.

Lemma ilog2_proper (x y : Q) : ~ x == 0 -> x == y -> Binary64.ilog2 x = Binary64.ilog2 y.
Proof.
  intros Hx E.
  assert (Hy : ~ y == 0) by (rewrite <- E; exact Hx).
  symmetry. apply ilog2_unique; rewrite <- E.
  - apply ilog2_lower, Hx.
  - apply ilog2_upper, Hx.
Qed.

Lemma roundEven_proper (x y : Q) : x == y -> Binary64.roundEven x = Binary64.roundEven y.
Proof.
  intros E. unfold Binary64.roundEven.
  rewrite (Qfloor_comp _ _ E).
  assert (C : (x - inject_Z (Qfloor y) ?= 1 # 2) = (y - inject_Z (Qfloor y) ?= 1 # 2))
    by (rewrite E; reflexivity).
  rewrite C. reflexivity.
Qed.

(** Equal rationals round to the same binary64 number, in the same
    representation. *)
Lemma fl_proper (x y : Q) : x == y -> Binary64.fl x = Binary64.fl y.
Proof.
  intros E. unfold Binary64.fl.
  assert (Z : Qeq_bool x 0 = Qeq_bool y 0).
  { destruct (Qeq_bool y 0) eqn:Hy.
    - apply Qeq_bool_iff. apply Qeq_bool_iff in Hy. rewrite E. exact Hy.
    - apply not_true_iff_false. intros H. apply Qeq_bool_iff in H.
      rewrite E in H. apply Qeq_bool_iff in H. congruence. }
  rewrite Z. destruct (Qeq_bool y 0) eqn:Hy; [reflexivity |].
  assert (Hx : ~ x == 0).
  { intros H. rewrite E in H. apply Qeq_bool_iff in H. congruence. }
  rewrite (ilog2_proper x y Hx E).
  set (e := Z.max (Binary64.ilog2 y - 52) (-1074)).
  assert (D : x / 2 ^ e == y / 2 ^ e) by (rewrite E; reflexivity).
  rewrite (roundEven_proper _ _ D). reflexivity.
Qed.

Lemma roundEven_whole (z : Z) : Binary64.roundEven (inject_Z z) = z.
Proof.
  unfold Binary64.roundEven. rewrite Qfloor_Z.
  assert (C : (inject_Z z - inject_Z z ?= 1 # 2) = Lt).
  { apply Qlt_alt. assert (Z : inject_Z z - inject_Z z == 0) by ring.
    rewrite Z. reflexivity. }
  rewrite C. reflexivity.
Qed.

(** A number [m * 2^k] with [|m| < 2^53] and [k >= -1074] is a binary64
    number: rounding leaves it as it is. *)
Lemma fl_exact (x : Q) (m k : Z) :
  x == inject_Z m * 2 ^ k ->
  (Z.abs m < 2 ^ 53)%Z -> (-1074 <= k)%Z ->
  Binary64.fl x == x.
Proof.
  intros E Hm Hk. unfold Binary64.fl.
  destruct (Qeq_bool x 0) eqn:Hz.
  - apply Qeq_bool_iff in Hz. rewrite Hz. reflexivity.
  - assert (Hx : ~ x == 0) by (intros H; apply Qeq_bool_iff in H; congruence).
    rewrite Qred_correct.
    set (e := Z.max (Binary64.ilog2 x - 52) (-1074)).
    assert (He : (e <= k)%Z).
    { pose proof (ilog2_lower x Hx) as L.
      assert (U : Qabs x < 2 ^ (53 + k)).
      { rewrite E, Qabs_Qmult, (Qabs_pos (2 ^ k)) by (pose proof (pow2_pos k); lra).
        rewrite Qpower_plus by discriminate.
        assert (A : Qabs (inject_Z m) < 2 ^ 53).
        { change (Qabs (inject_Z m)) with (inject_Z (Z.abs m)).
          change (2 ^ 53) with (inject_Z (2 ^ 53)). rewrite <- Zlt_Qlt. exact Hm. }
        pose proof (pow2_pos k). nra. }
      assert (I : (Binary64.ilog2 x < 53 + k)%Z) by (apply pow2_lt_inv; lra).
      subst e. lia. }
    assert (D : x / 2 ^ e == inject_Z (m * 2 ^ (k - e))).
    { rewrite inject_Z_mult, Zpower_Qpower by lia.
      change (inject_Z 2) with 2.
      rewrite Qpower_minus by discriminate. rewrite E.
      pose proof (pow2_pos e). field. lra. }
    rewrite (roundEven_proper _ _ D), roundEven_whole.
    rewrite <- D. pose proof (pow2_pos e). field. lra.
Qed.

(** Landmarks of binary64: the number of the literal 0.1; 0.1 + 0.2 and
    3 * 0.1 are 0.30000000000000004, the binary64 number above that of
    0.3; half the smallest positive number rounds to 0. *)
Example binary64_landmarks :
  Binary64.literal (1 # 10) = 3602879701896397 # 36028797018963968
  /\ Binary64.add (Binary64.literal (1 # 10)) (Binary64.literal (2 # 10))
     = 1351079888211149 # 4503599627370496
  /\ Binary64.mul 3 (Binary64.literal (1 # 10)) = 1351079888211149 # 4503599627370496
  /\ Binary64.literal (3 # 10) = 5404319552844595 # 18014398509481984
  /\ Binary64.fl (2 ^ (-1075)) = 0
  /\ Binary64.fl (3 * 2 ^ (-1075)) == 2 * 2 ^ (-1074).
Proof.
  repeat split; vm_compute; reflexivity.
Qed.

(** ** The two [calculateGrowth] functions *)

Lemma literal_values :
  Binary64.literal GROWTH_MULTIPLIERS.SEEDS_PLANTED = 3 # 2
  /\ Binary64.literal GROWTH_MULTIPLIERS.SPIRITS_FED = 2
  /\ Binary64.literal GROWTH_MULTIPLIERS.ROBOT_CHARGED = 3
  /\ Binary64.literal GROWTH_MULTIPLIERS.REDDIT_UPVOTES
     = 3602879701896397 # 36028797018963968
  /\ Binary64.literal 100 = 100.
Proof. vm_compute. repeat split. Qed.

(** The service applies [Math.round(growth * 100) / 100] to the sum the
    shared utility computes. *)
Lemma service_growth_rounds_utility (s f c u : Q) :
  GrowthCalculationService.calculateGrowth s f c u
  = Binary64.div
      (Math_round (Binary64.mul (GrowthUtils.calculateGrowth_binary64 s f c u) 100)) 100.
Proof.
  unfold GrowthCalculationService.calculateGrowth, GrowthUtils.calculateGrowth_binary64.
  destruct literal_values as (_ & _ & _ & _ & ->). reflexivity.
Qed.

(** For arguments up to 2^30 the binary64 sum is within 0.00001 of the
    exact one. *)
Lemma utils_growth_binary64_error (s f c u : Q) :
  0 <= s <= 1073741824 -> 0 <= f <= 1073741824 ->
  0 <= c <= 1073741824 -> 0 <= u <= 1073741824 ->
  - (1 # 100000) <= GrowthUtils.calculateGrowth_binary64 s f c u - growthFormula s f c u
  /\ GrowthUtils.calculateGrowth_binary64 s f c u - growthFormula s f c u <= 1 # 100000.
Proof.
  intros [S0 S1] [F0 F1] [C0 C1] [U0 U1].
  unfold GrowthUtils.calculateGrowth_binary64, growthFormula.
  destruct literal_values as (-> & -> & -> & -> & _).
  unfold Binary64.add, Binary64.mul.
  set (B := 8589934592).
  destruct (fl_error (s * (3 # 2)) B) as [a1 a2]; [subst B; lra .. |].
  set (p1 := Binary64.fl (s * (3 # 2))) in *.
  destruct (fl_error (f * 2) B) as [b1 b2]; [subst B; lra .. |].
  set (p2 := Binary64.fl (f * 2)) in *.
  destruct (fl_error (c * 3) B) as [c1 c2]; [subst B; lra .. |].
  set (p3 := Binary64.fl (c * 3)) in *.
  destruct (fl_error (u * (3602879701896397 # 36028797018963968)) B) as [d1 d2];
    [subst B; lra .. |].
  set (p4 := Binary64.fl (u * (3602879701896397 # 36028797018963968))) in *.
  destruct (fl_error (p1 + p2) B) as [e1 e2]; [subst B; lra .. |].
  set (q1 := Binary64.fl (p1 + p2)) in *.
  destruct (fl_error (q1 + p3) B) as [g1 g2]; [subst B; lra .. |].
  set (q2 := Binary64.fl (q1 + p3)) in *.
  destruct (fl_error (q2 + p4) B) as [h1 h2]; [subst B; lra .. |].
  set (q3 := Binary64.fl (q2 + p4)) in *.
  subst B. split; lra.
Qed.

(** The whole number the service divides by 100 is within 0.5015 of a
    hundred times the exact sum. *)
Lemma service_growth_hundredths (s f c u : Q) :
  0 <= s <= 1073741824 -> 0 <= f <= 1073741824 ->
  0 <= c <= 1073741824 -> 0 <= u <= 1073741824 ->
  let y := Binary64.mul (GrowthUtils.calculateGrowth_binary64 s f c u) 100 in
  - (3 # 2000) <= y - growthFormula s f c u * 100
  /\ y - growthFormula s f c u * 100 <= 3 # 2000.
Proof.
  intros Hs Hf Hc Hu y.
  destruct (utils_growth_binary64_error s f c u Hs Hf Hc Hu) as [E1 E2].
  subst y. unfold Binary64.mul.
  set (g := GrowthUtils.calculateGrowth_binary64 s f c u) in *.
  assert (Fb : 0 <= growthFormula s f c u <= 8589934591) by (unfold growthFormula; lra).
  set (F := growthFormula s f c u) in *.
  destruct (fl_error (g * 100) 1099511627776) as [a1 a2]; [lra .. |].
  split; lra.
Qed.

Lemma Qfloor_unique (x : Q) (k : Z) :
  inject_Z k <= x -> x < inject_Z k + 1 -> Qfloor x = k.
Proof.
  intros L U.
  pose proof (Qfloor_le x) as L'. pose proof (Qlt_floor x) as U'.
  rewrite inject_Z_plus in U'. change (inject_Z 1) with 1 in U'.
  assert (A : inject_Z k < inject_Z (Qfloor x + 1)).
  { rewrite inject_Z_plus. change (inject_Z 1) with 1. lra. }
  assert (B : inject_Z (Qfloor x) < inject_Z (k + 1)).
  { rewrite inject_Z_plus. change (inject_Z 1) with 1. lra. }
  rewrite <- Zlt_Qlt in A, B. lia.
Qed.

Lemma inject_N_bounds (x : N) :
  (Z.of_N x <= 2 ^ 30)%Z -> 0 <= inject_Z (Z.of_N x) <= 1073741824.
Proof.
  intros H. split.
  - change 0 with (inject_Z 0). rewrite <- Zle_Qle. lia.
  - change 1073741824 with (inject_Z (2 ^ 30)). rewrite <- Zle_Qle. exact H.
Qed.

(** The service returns the binary64 number of some whole number of
    hundredths that is within 0.00502 of the exact sum. *)
Lemma service_growth_near (s f c u : Q) :
  0 <= s <= 1073741824 -> 0 <= f <= 1073741824 ->
  0 <= c <= 1073741824 -> 0 <= u <= 1073741824 ->
  exists k : Z,
    GrowthCalculationService.calculateGrowth s f c u = Binary64.fl (inject_Z k / 100)
    /\ inject_Z k / 100 - (502 # 100000) <= growthFormula s f c u
    /\ growthFormula s f c u <= inject_Z k / 100 + (502 # 100000).
Proof.
  intros Hs Hf Hc Hu.
  destruct (service_growth_hundredths s f c u Hs Hf Hc Hu) as [Y1 Y2].
  rewrite service_growth_rounds_utility.
  set (y := Binary64.mul (GrowthUtils.calculateGrowth_binary64 s f c u) 100) in *.
  exists (Qfloor (y + (1 # 2))). split; [reflexivity |].
  destruct (Math_round_bounds y) as [M1 M2]. unfold Math_round in M1, M2.
  set (m := inject_Z (Qfloor (y + (1 # 2)))) in *.
  assert (D : m / 100 == m * (1 # 100)) by (unfold Qdiv; reflexivity).
  rewrite D. split; lra.
Qed.

(** Away from a tie the service returns the binary64 number of the sum
    rounded to two decimals. *)
Lemma service_growth_rounded (s f c u r : Q) :
  0 <= s <= 1073741824 -> 0 <= f <= 1073741824 ->
  0 <= c <= 1073741824 -> 0 <= u <= 1073741824 ->
  roundedHalfUp2 (growthFormula s f c u) r ->
  growthFormula s f c u <= r + (5 # 1000) - (2 # 100000) ->
  r - (5 # 1000) + (2 # 100000) <= growthFormula s f c u ->
  GrowthCalculationService.calculateGrowth s f c u = Binary64.fl r.
Proof.
  intros Hs Hf Hc Hu [[k Ek] _] Hhi Hlo.
  destruct (service_growth_hundredths s f c u Hs Hf Hc Hu) as [Y1 Y2].
  rewrite service_growth_rounds_utility.
  set (y := Binary64.mul (GrowthUtils.calculateGrowth_binary64 s f c u) 100) in *.
  unfold Binary64.div, Math_round.
  assert (D : inject_Z k / 100 == inject_Z k * (1 # 100)) by (unfold Qdiv; reflexivity).
  rewrite D in Ek.
  rewrite (Qfloor_unique (y + (1 # 2)) k) by lra.
  apply fl_proper. rewrite Ek. unfold Qdiv. reflexivity.
Qed.

(** Whole counters and whole upvotes give a whole number of tenths, far
    from every tie. *)
Lemma service_growth_whole (s f c u : N) :
  (Z.of_N s <= 2 ^ 30)%Z -> (Z.of_N f <= 2 ^ 30)%Z ->
  (Z.of_N c <= 2 ^ 30)%Z -> (Z.of_N u <= 2 ^ 30)%Z ->
  let n x := inject_Z (Z.of_N x) in
  GrowthCalculationService.calculateGrowth (n s) (n f) (n c) (n u)
  = Binary64.fl (growthFormula (n s) (n f) (n c) (n u)).
Proof.
  intros Hs Hf Hc Hu n.
  apply service_growth_rounded; try (apply inject_N_bounds; assumption).
  - apply formula_whole_is_rounded.
  - lra.
  - lra.
Qed.

(** With whole counters below 2^49 and no upvotes no operation of the
    utility rounds: the binary64 sum is the exact one. *)
Lemma calculateGrowth_exact_on_counters (s f c : N) :
  (Z.of_N s <= 2 ^ 49)%Z -> (Z.of_N f <= 2 ^ 49)%Z -> (Z.of_N c <= 2 ^ 49)%Z ->
  let n x := inject_Z (Z.of_N x) in
  GrowthUtils.calculateGrowth_binary64 (n s) (n f) (n c) 0
  == GrowthUtils.calculateGrowth (n s) (n f) (n c) 0.
Proof.
  intros Hs Hf Hc n.
  unfold GrowthUtils.calculateGrowth_binary64, GrowthUtils.calculateGrowth.
  destruct literal_values as (-> & -> & -> & -> & _).
  unfold Binary64.add, Binary64.mul,
    GROWTH_MULTIPLIERS.SEEDS_PLANTED, GROWTH_MULTIPLIERS.SPIRITS_FED,
    GROWTH_MULTIPLIERS.ROBOT_CHARGED, GROWTH_MULTIPLIERS.REDDIT_UPVOTES.
  assert (P1 : Binary64.fl (n s * (3 # 2)) == n s * (3 # 2)).
  { apply (fl_exact _ (3 * Z.of_N s) (-1)); [| lia | lia].
    unfold n. rewrite inject_Z_mult. change (2 ^ (-1)) with (1 # 2).
    change (inject_Z 3) with 3. ring. }
  assert (P2 : Binary64.fl (n f * 2) == n f * 2).
  { apply (fl_exact _ (2 * Z.of_N f) 0); [| lia | lia].
    unfold n. rewrite inject_Z_mult. change (2 ^ 0) with 1.
    change (inject_Z 2) with 2. ring. }
  assert (P3 : Binary64.fl (n c * 3) == n c * 3).
  { apply (fl_exact _ (3 * Z.of_N c) 0); [| lia | lia].
    unfold n. rewrite inject_Z_mult. change (2 ^ 0) with 1.
    change (inject_Z 3) with 3. ring. }
  assert (P4 : Binary64.fl (0 * (3602879701896397 # 36028797018963968)) == 0)
    by reflexivity.
  assert (Q1 : Binary64.fl (Binary64.fl (n s * (3 # 2)) + Binary64.fl (n f * 2))
               == n s * (3 # 2) + n f * 2).
  { rewrite (fl_proper _ (n s * (3 # 2) + n f * 2)) by (rewrite P1, P2; reflexivity).
    apply (fl_exact _ (3 * Z.of_N s + 4 * Z.of_N f) (-1)); [| lia | lia].
    unfold n. rewrite inject_Z_plus, !inject_Z_mult. change (2 ^ (-1)) with (1 # 2).
    change (inject_Z 3) with 3. change (inject_Z 4) with 4. ring. }
  set (q1 := Binary64.fl (Binary64.fl (n s * (3 # 2)) + Binary64.fl (n f * 2))) in *.
  assert (Q2 : Binary64.fl (q1 + Binary64.fl (n c * 3))
               == n s * (3 # 2) + n f * 2 + n c * 3).
  { rewrite (fl_proper _ (n s * (3 # 2) + n f * 2 + n c * 3))
      by (rewrite Q1, P3; reflexivity).
    apply (fl_exact _ (3 * Z.of_N s + 4 * Z.of_N f + 6 * Z.of_N c) (-1)); [| lia | lia].
    unfold n. rewrite !inject_Z_plus, !inject_Z_mult. change (2 ^ (-1)) with (1 # 2).
    change (inject_Z 3) with 3. change (inject_Z 4) with 4. change (inject_Z 6) with 6.
    ring. }
  set (q2 := Binary64.fl (q1 + Binary64.fl (n c * 3))) in *.
  assert (X : Binary64.fl (n s * (3 # 2) + n f * 2 + n c * 3)
              == n s * (3 # 2) + n f * 2 + n c * 3).
  { apply (fl_exact _ (3 * Z.of_N s + 4 * Z.of_N f + 6 * Z.of_N c) (-1)); [| lia | lia].
    unfold n. rewrite !inject_Z_plus, !inject_Z_mult. change (2 ^ (-1)) with (1 # 2).
    change (inject_Z 3) with 3. change (inject_Z 4) with 4. change (inject_Z 6) with 6.
    ring. }
  rewrite (fl_proper _ (n s * (3 # 2) + n f * 2 + n c * 3))
    by (rewrite Q2, P4; ring).
  rewrite X. ring.
Qed.

(** A tie at the third decimal is decided on the binary64 sum, not on
    the exact one: one seed and 6.75 upvotes make 2.175 exactly, the
    binary64 sum times 100 is 217.49999999999997, and the service
    returns 2.17; one seed and a quarter of an upvote make 1.525, and
    the service returns 1.53. *)
Example service_growth_at_a_tie :
  Binary64.mul (GrowthUtils.calculateGrowth_binary64 1 0 0 (27 # 4)) 100
  == 7652600929320959 # 35184372088832
  /\ GrowthCalculationService.calculateGrowth 1 0 0 (27 # 4) == Binary64.fl (217 # 100)
  /\ GrowthCalculationService.calculateGrowth 1 0 0 (1 # 4) == Binary64.fl (153 # 100).
Proof. repeat split; apply Qeq_bool_iff; vm_compute; reflexivity. Qed.

(** C1, as stated, fails on the shared utility: with a quarter of an
    upvote (and no other activity) the sum is 0.025, which rounds to
    0.03; the utility returns the binary64 number next to 0.025, below
    0.026.  With three upvotes it returns 0.30000000000000004, which is
    not the binary64 number of 0.3 either. *)
Lemma shared_calculateGrowth_not_rounded :
  0 <= (1 # 4)
  /\ ~ returnsRounded2 (growthFormula 0 0 0 (1 # 4))
                       (GrowthUtils.calculateGrowth_binary64 0 0 0 (1 # 4))
  /\ GrowthUtils.calculateGrowth_binary64 0 0 0 (1 # 4) < 26 # 1000
  /\ ~ returnsRounded2 (growthFormula 0 0 0 3)
                       (GrowthUtils.calculateGrowth_binary64 0 0 0 3).
Proof.
  split; [discriminate |]. split; [| split].
  - intros (r & Hr & E).
    assert (R : roundedHalfUp2 (growthFormula 0 0 0 (1 # 4)) (3 # 100)).
    { split; [exists 3%Z; reflexivity |]. unfold growthFormula. split; lra. }
    rewrite (fl_proper r (3 # 100) (roundedHalfUp2_unique _ _ _ Hr R)) in E.
    apply Qeq_bool_iff in E. vm_compute in E. discriminate.
  - apply Qlt_alt. vm_compute. reflexivity.
  - intros (r & Hr & E).
    assert (R : roundedHalfUp2 (growthFormula 0 0 0 3) (30 # 100)).
    { split; [exists 30%Z; reflexivity |]. unfold growthFormula. split; lra. }
    rewrite (fl_proper r (30 # 100) (roundedHalfUp2_unique _ _ _ Hr R)) in E.
    apply Qeq_bool_iff in E. vm_compute in E. discriminate.
Qed.

(** C1 (amended): for whole counters up to 2^30 and upvotes between 0
    and 2^30, with
    exact = 1.5*seedsPlanted + 2*spiritsFed + 3*robotCharged + 0.1*redditUpvotes:
    [GrowthCalculationService.calculateGrowth] returns the binary64
    number of a whole number of hundredths within 0.00502 of [exact];
    whenever [exact] is at least 0.00002 away from a tie at the third
    decimal, that is the binary64 number of [exact] rounded to two
    decimals, and so it is for whole upvotes, where it is the binary64
    number of [exact] itself.  The shared [calculateGrowth] utility
    does not round to two decimals: it returns the binary64 sum, within
    0.00001 of [exact]. *)
Theorem growth_service_rounds_utility_does_not (s f c : N) (u : Q) :
  (Z.of_N s <= 2 ^ 30)%Z -> (Z.of_N f <= 2 ^ 30)%Z -> (Z.of_N c <= 2 ^ 30)%Z ->
  0 <= u <= 1073741824 ->
  let n x := inject_Z (Z.of_N x) in
  let exact := growthFormula (n s) (n f) (n c) u in
  let service := GrowthCalculationService.calculateGrowth (n s) (n f) (n c) u in
  let utility := GrowthUtils.calculateGrowth_binary64 (n s) (n f) (n c) u in
  (exists k : Z,
     service == Binary64.fl (inject_Z k / 100)
     /\ inject_Z k / 100 - (502 # 100000) <= exact
     /\ exact <= inject_Z k / 100 + (502 # 100000))
  /\ (forall r : Q,
        roundedHalfUp2 exact r ->
        r - (5 # 1000) + (2 # 100000) <= exact ->
        exact <= r + (5 # 1000) - (2 # 100000) ->
        service == Binary64.fl r)
  /\ (forall v : N, u = n v -> service == Binary64.fl exact)
  /\ - (1 # 100000) <= utility - exact
  /\ utility - exact <= 1 # 100000.
Proof.
  intros Hs Hf Hc Hu n exact service utility.
  pose proof (inject_N_bounds s Hs) as Bs.
  pose proof (inject_N_bounds f Hf) as Bf.
  pose proof (inject_N_bounds c Hc) as Bc.
  split; [| split; [| split]].
  - destruct (service_growth_near (n s) (n f) (n c) u Bs Bf Bc Hu) as (k & E & L & U).
    exists k. subst service. rewrite E. split; [reflexivity | split; assumption].
  - intros r Hr Lo Hi. subst service.
    rewrite (service_growth_rounded (n s) (n f) (n c) u r Bs Bf Bc Hu Hr Hi Lo).
    reflexivity.
  - intros v ->. subst service exact.
    assert (Hv : (Z.of_N v <= 2 ^ 30)%Z).
    { destruct Hu as [_ Hu]. unfold n in Hu.
      change 1073741824 with (inject_Z (2 ^ 30)) in Hu.
      rewrite <- Zle_Qle in Hu. exact Hu. }
    pose proof (service_growth_whole s f c v Hs Hf Hc Hv) as W.
    cbv zeta in W. fold n in W. rewrite W. reflexivity.
  - apply (utils_growth_binary64_error (n s) (n f) (n c) u Bs Bf Bc Hu).
Qed.

Lemma growth_service_rounds_utility_does_not_witness :
  (Z.of_N 1 <= 2 ^ 30)%Z /\ (Z.of_N 0 <= 2 ^ 30)%Z /\ 0 <= 7 <= 1073741824
  /\ (exists k : Z,
        GrowthCalculationService.calculateGrowth 1 0 0 7 == Binary64.fl (inject_Z k / 100)
        /\ inject_Z k / 100 - (502 # 100000) <= growthFormula 1 0 0 7
        /\ growthFormula 1 0 0 7 <= inject_Z k / 100 + (502 # 100000))
  /\ (forall r : Q,
        roundedHalfUp2 (growthFormula 1 0 0 7) r ->
        r - (5 # 1000) + (2 # 100000) <= growthFormula 1 0 0 7 ->
        growthFormula 1 0 0 7 <= r + (5 # 1000) - (2 # 100000) ->
        GrowthCalculationService.calculateGrowth 1 0 0 7 == Binary64.fl r)
  /\ (forall v : N,
        7 = inject_Z (Z.of_N v) ->
        GrowthCalculationService.calculateGrowth 1 0 0 7
        == Binary64.fl (growthFormula 1 0 0 7))
  /\ - (1 # 100000) <= GrowthUtils.calculateGrowth_binary64 1 0 0 7 - growthFormula 1 0 0 7
  /\ GrowthUtils.calculateGrowth_binary64 1 0 0 7 - growthFormula 1 0 0 7 <= 1 # 100000.
Proof.
  split; [lia |]. split; [lia |].
  split; [split; [discriminate | apply Qle_bool_iff; reflexivity] |].
  apply (growth_service_rounds_utility_does_not 1 0 0 7).
  - lia.
  - lia.
  - lia.
  - split; [discriminate | apply Qle_bool_iff; reflexivity].
Defined.

(** ** The level table *)

Ltac split_thresholds x :=
  destruct (num_ge x 1000) eqn:?;
  [| destruct (num_ge x 500) eqn:?;
     [| destruct (num_ge x 300) eqn:?;
        [| destruct (num_ge x 150) eqn:?;
           [| destruct (num_ge x 50) eqn:?]]]];
  repeat match goal with
         | H : num_ge _ _ = true |- _ => apply num_ge_spec in H
         | H : num_ge _ _ = false |- _ => apply num_ge_false in H
         end.

Lemma levels_unfold (x : Q) :
  GrowthUtils.calculateTreeLevel x =
  if num_ge x 1000 then 6
  else if num_ge x 500 then 5
  else if num_ge x 300 then 4
  else if num_ge x 150 then 3
  else if num_ge x 50 then 2
  else 1.
Proof. reflexivity. Qed.

Lemma service_level_eq_utils (x : Q) :
  GrowthCalculationService.calculateTreeLevel x = GrowthUtils.calculateTreeLevel x.
Proof.
  rewrite levels_unfold.
  unfold GrowthCalculationService.calculateTreeLevel.
  change (Array_sort (fun a b => growthRequired b - growthRequired a) TREE_LEVELS)
    with [SPIRIT_TREE; ANCIENT_TREE; MATURE_TREE; YOUNG_TREE; SAPLING; SEEDLING].
  cbn [GrowthCalculationService.firstReached growthRequired level
       SPIRIT_TREE ANCIENT_TREE MATURE_TREE YOUNG_TREE SAPLING SEEDLING].
  split_thresholds x; try reflexivity.
  destruct (num_ge x 0); reflexivity.
Qed.

Lemma repo_level_eq_utils (x : Q) :
  RedisGameService.calculateTreeLevel x = GrowthUtils.calculateTreeLevel x.
Proof.
  rewrite levels_unfold.
  unfold RedisGameService.calculateTreeLevel.
  change (rev TREE_LEVELS)
    with [SPIRIT_TREE; ANCIENT_TREE; MATURE_TREE; YOUNG_TREE; SAPLING; SEEDLING].
  cbn [RedisGameService.lastReached growthRequired level
       SPIRIT_TREE ANCIENT_TREE MATURE_TREE YOUNG_TREE SAPLING SEEDLING].
  split_thresholds x; try reflexivity.
  destruct (num_ge x 0); reflexivity.
Qed.

Lemma utils_level_highest (x : Q) :
  0 <= x -> highestLevelReached x (GrowthUtils.calculateTreeLevel x).
Proof.
  intros Hx. rewrite levels_unfold. unfold highestLevelReached.
  split_thresholds x.
  all: split;
    [ first [ (exists SPIRIT_TREE; cbn; split; [tauto | split; [lra | reflexivity]])
            | (exists ANCIENT_TREE; cbn; split; [tauto | split; [lra | reflexivity]])
            | (exists MATURE_TREE; cbn; split; [tauto | split; [lra | reflexivity]])
            | (exists YOUNG_TREE; cbn; split; [tauto | split; [lra | reflexivity]])
            | (exists SAPLING; cbn; split; [tauto | split; [lra | reflexivity]])
            | (exists SEEDLING; cbn; split; [tauto | split; [lra | reflexivity]]) ]
    | intros e He Hle; cbn in He;
      repeat (destruct He as [<- | He]; [cbn in *; lra |]); destruct He ].
Qed.

Lemma utils_level_range (x : Q) :
  exists n : Z, (1 <= n <= 6)%Z /\ GrowthUtils.calculateTreeLevel x = inject_Z n.
Proof.
  rewrite levels_unfold.
  destruct (num_ge x 1000); [exists 6%Z; split; [lia | reflexivity] |].
  destruct (num_ge x 500); [exists 5%Z; split; [lia | reflexivity] |].
  destruct (num_ge x 300); [exists 4%Z; split; [lia | reflexivity] |].
  destruct (num_ge x 150); [exists 3%Z; split; [lia | reflexivity] |].
  destruct (num_ge x 50); [exists 2%Z; split; [lia | reflexivity] |].
  exists 1%Z; split; [lia | reflexivity].
Qed.

Lemma utils_level_monotone (x y : Q) :
  x <= y -> GrowthUtils.calculateTreeLevel x <= GrowthUtils.calculateTreeLevel y.
Proof.
  intros Hxy. rewrite !levels_unfold.
  split_thresholds x; split_thresholds y; lra.
Qed.


(** C2: for every [totalGrowth >= 0] the level functions of the shared
    utility and of [GrowthCalculationService] agree and return the highest
    level of the table {1: 0, 2: 50, 3: 150, 4: 300, 5: 500, 6: 1000} whose
    threshold is at most [totalGrowth] (a value on a threshold gets the
    higher level); the result is one of 1..6, so nothing above 6 is ever
    produced, and it is monotonically non-decreasing in [totalGrowth]. *)
Theorem calculateTreeLevel_step_function (totalGrowth : Q) :
  0 <= totalGrowth ->
  highestLevelReached totalGrowth (GrowthUtils.calculateTreeLevel totalGrowth)
  /\ GrowthCalculationService.calculateTreeLevel totalGrowth
     = GrowthUtils.calculateTreeLevel totalGrowth
  /\ (exists n : Z, (1 <= n <= 6)%Z
                    /\ GrowthUtils.calculateTreeLevel totalGrowth = inject_Z n)
  /\ (forall more : Q, totalGrowth <= more ->
        GrowthUtils.calculateTreeLevel totalGrowth
        <= GrowthUtils.calculateTreeLevel more).
Proof.
  intros Hx. split; [| split; [| split]].
  - apply utils_level_highest, Hx.
  - apply service_level_eq_utils.
  - apply utils_level_range.
  - intros more Hle. apply utils_level_monotone, Hle.
Qed.

Lemma calculateTreeLevel_step_function_witness :
  0 <= 50 /\
  highestLevelReached 50 (GrowthUtils.calculateTreeLevel 50)
  /\ GrowthCalculationService.calculateTreeLevel 50
     = GrowthUtils.calculateTreeLevel 50
  /\ (exists n : Z, (1 <= n <= 6)%Z
                    /\ GrowthUtils.calculateTreeLevel 50 = inject_Z n)
  /\ (forall more : Q, 50 <= more ->
        GrowthUtils.calculateTreeLevel 50 <= GrowthUtils.calculateTreeLevel more).
Proof.
  split; [discriminate |].
  apply (calculateTreeLevel_step_function 50). discriminate.
Defined.

Example level_on_threshold :
  GrowthUtils.calculateTreeLevel 50 = 2
  /\ GrowthUtils.calculateTreeLevel (4999 # 100) = 1
  /\ GrowthUtils.calculateTreeLevel 1000000 = 6.
Proof. repeat split. Qed.

(* ===================================================================== *)
(** * Reasoning about [Promise] computations *)
(* ===================================================================== *)

Section PromiseLaws.
Context {A B : Type}.

Lemma bind_unfold (m : Promise A) (k : A -> Promise B) (w : World) :
  (m ≫= k) w = await m k w.
Proof. reflexivity. Qed.

Lemma bind_Ok (m : Promise A) (k : A -> Promise B) (w w1 : World) (a : A) :
  m w = (Ok a, w1) -> (m ≫= k) w = k a w1.
Proof. intros H. rewrite bind_unfold. unfold await. rewrite H. reflexivity. Qed.

Lemma bind_Throw (m : Promise A) (k : A -> Promise B) (w w1 : World) (e : string) :
  m w = (Throw e, w1) -> (m ≫= k) w = (Throw e, w1).
Proof. intros H. rewrite bind_unfold. unfold await. rewrite H. reflexivity. Qed.

Lemma bind_Ok_inv (m : Promise A) (k : A -> Promise B) (w w' : World) (b : B) :
  (m ≫= k) w = (Ok b, w') ->
  exists a w1, m w = (Ok a, w1) /\ k a w1 = (Ok b, w').
Proof.
  rewrite bind_unfold. unfold await.
  destruct (m w) as [[a | e] w1]; intros H.
  - exists a, w1. split; [reflexivity | exact H].
  - discriminate H.
Qed.
End PromiseLaws.

Section TripleRules.
Context {A B : Type}.

Lemma triple_ret (a : A) (P : World -> Prop) Q E :
  (forall w, P w -> Q a w) -> triple P (mret a) Q E.
Proof. intros H w Hw. apply H, Hw. Qed.

Lemma triple_throw (msg : string) (P : World -> Prop)
    (Q : A -> World -> Prop) (E : string -> World -> Prop) :
  (forall w, P w -> E msg w) -> triple P (throw msg) Q E.
Proof. intros H w Hw. apply H, Hw. Qed.

Lemma triple_bind (m : Promise A) (k : A -> Promise B) P Q1 Q E :
  triple P m Q1 E ->
  (forall a, triple (Q1 a) (k a) Q E) ->
  triple P (m ≫= k) Q E.
Proof.
  intros Hm Hk w Hw. specialize (Hm w Hw).
  rewrite bind_unfold. unfold await.
  destruct (m w) as [[a | e] w1]; [apply (Hk a w1 Hm) | exact Hm].
Qed.

Lemma triple_catch (m : Promise A) (h : string -> Promise A) P Q E1 E :
  triple P m Q E1 ->
  (forall e, triple (E1 e) (h e) Q E) ->
  triple P (try_catch m h) Q E.
Proof.
  intros Hm Hh w Hw. specialize (Hm w Hw). unfold try_catch.
  destruct (m w) as [[a | e] w1]; [exact Hm | apply (Hh e w1 Hm)].
Qed.

Lemma triple_conseq (m : Promise A) (P P' : World -> Prop)
    (Q Q' : A -> World -> Prop) (E E' : string -> World -> Prop) :
  triple P' m Q' E' ->
  (forall w, P w -> P' w) ->
  (forall a w, Q' a w -> Q a w) ->
  (forall e w, E' e w -> E e w) ->
  triple P m Q E.
Proof.
  intros Hm HP HQ HE w Hw. specialize (Hm w (HP w Hw)).
  destruct (m w) as [[a | e] w1]; [apply HQ | apply HE]; exact Hm.
Qed.

End TripleRules.

Section RetryRules.
Context {A : Type}.

(** The retry loop keeps an invariant the operation keeps, and what it
    returns is what some attempt returned. *)
Lemma triple_retryLoop (maxRetries retryDelay : Z) (op : Promise A)
    (I : World -> Prop) (Q : A -> World -> Prop) :
  sleepProof I ->
  triple I op Q (fun _ => I) ->
  forall iterations attempt lastError,
    triple I (retryLoop maxRetries retryDelay iterations attempt lastError op)
           Q (fun _ => I).
Proof.
  intros Hsleep Hop. induction iterations as [| n IH]; intros attempt lastError.
  - cbn [retryLoop]. apply triple_throw. auto.
  - cbn [retryLoop]. destruct (attempt <=? maxRetries)%Z.
    + eapply triple_catch; [exact Hop |].
      intros e. cbn beta. destruct (attempt =? maxRetries)%Z.
      * apply triple_throw. auto.
      * eapply triple_bind with (Q1 := fun _ => I).
        -- intros w Hw. apply (Hsleep w _ Hw).
        -- intros []. apply IH.
    + apply triple_throw. auto.
Qed.

(** When the operation cannot fail from [P], neither can the wrapper,
    and it runs the operation once. *)
Lemma retryLoop_first_Ok (maxRetries retryDelay : Z) (op : Promise A)
    (iterations : nat) (attempt : Z) lastError (w w1 : World) (a : A) :
  (attempt <= maxRetries)%Z ->
  op w = (Ok a, w1) ->
  retryLoop maxRetries retryDelay (S iterations) attempt lastError op w = (Ok a, w1).
Proof.
  intros Hle Hop. cbn [retryLoop].
  destruct (Z.leb_spec attempt maxRetries) as [_ | Hgt]; [| lia].
  unfold try_catch. rewrite Hop. reflexivity.
Qed.
End RetryRules.

Lemma onStore_sleepProof Φ : sleepProof (onStore Φ).
Proof. intros w d H. exact H. Qed.

(** ** The primitives, whatever the store's availability *)

Lemma next_command_redis (w : World) : redis (snd (next_command w)) = redis w.
Proof. unfold next_command. destruct (outages w); reflexivity. Qed.

Lemma triple_redis_get (key : string) Φ :
  triple (onStore Φ) (redis_get key)
         (fun r w => Φ (redis w) /\ r = redis w !! key)
         (fun _ => onStore Φ).
Proof.
  intros w Hw. unfold redis_get.
  pose proof (next_command_redis (record (EvGet key) w)) as Hr.
  destruct (next_command (record (EvGet key) w)) as [[msg |] w1];
    cbn [snd] in Hr; cbn [redis record] in Hr; unfold onStore.
  - rewrite Hr. exact Hw.
  - rewrite Hr. split; [exact Hw | reflexivity].
Qed.

Lemma triple_redis_set (key : string) (value : Stored) Φ :
  triple (onStore Φ) (redis_set key value)
         (fun _ w => exists R, Φ R /\ redis w = <[key := value]> R)
         (fun _ => onStore Φ).
Proof.
  intros w Hw. unfold redis_set.
  pose proof (next_command_redis (record (EvSet key) w)) as Hr.
  destruct (next_command (record (EvSet key) w)) as [[msg |] w1];
    cbn [snd] in Hr; cbn [redis record] in Hr; unfold onStore.
  - rewrite Hr. exact Hw.
  - exists (redis w). split; [exact Hw |]. cbn [redis]. rewrite Hr. reflexivity.
Qed.

Lemma triple_Date_now (P : World -> Prop) E :
  triple P Date_now (fun _ => P) E.
Proof. intros w Hw. exact Hw. Qed.

Lemma triple_sleep (delay : Z) Φ E :
  triple (onStore Φ) (sleep delay) (fun _ => onStore Φ) E.
Proof. intros w Hw. exact Hw. Qed.

Lemma triple_Math_random_token Φ E :
  triple (onStore Φ) Math_random_token (fun _ => onStore Φ) E.
Proof.
  intros w Hw. unfold Math_random_token. destruct (entropy w); exact Hw.
Qed.

(** ** The primitives when the store is available *)

Lemma redis_get_calm (key : string) (w : World) :
  calm w -> redis_get key w = (Ok (redis w !! key), record (EvGet key) w).
Proof.
  intros Hc. unfold redis_get, next_command. cbn [outages record].
  rewrite Hc. reflexivity.
Qed.

Lemma redis_set_calm (key : string) (value : Stored) (w : World) :
  calm w -> redis_set key value w = (Ok tt, stored key value w).
Proof.
  intros Hc. unfold redis_set, next_command. cbn [outages record].
  rewrite Hc. reflexivity.
Qed.

Lemma calm_record e w : calm w -> calm (record e w).
Proof. intros H. exact H. Qed.

Lemma calm_stored k v w : calm w -> calm (stored k v w).
Proof. intros H. exact H. Qed.

(* ===================================================================== *)
(** * Keys *)
(* ===================================================================== *)

Lemma chars_of_app (a b : string) : chars_of (a +:+ b) = chars_of a ++ chars_of b.
Proof.
  unfold chars_of. induction a as [| c a IH]; [reflexivity |].
  change (String c a +:+ b) with (String c (a +:+ b)).
  cbn [String.list_ascii_of_string]. rewrite IH. reflexivity.
Qed.

Lemma string_app_inj_l (p a b : string) : p +:+ a = p +:+ b -> a = b.
Proof.
  induction p as [| c p IH]; intros H; [exact H |].
  change (String c (p +:+ a) = String c (p +:+ b)) in H.
  injection H as H. apply IH, H.
Qed.

Lemma chars_of_inj (a b : string) : chars_of a = chars_of b -> a = b.
Proof.
  unfold chars_of. intros H.
  rewrite <- (String.string_of_list_ascii_of_string a),
          <- (String.string_of_list_ascii_of_string b), H.
  reflexivity.
Qed.

Lemma string_app_inj_r (a b q : string) : a +:+ q = b +:+ q -> a = b.
Proof.
  intros H. apply chars_of_inj.
  apply (f_equal chars_of) in H. rewrite !chars_of_app in H.
  apply app_inv_tail in H. exact H.
Qed.

Lemma SUBREDDIT_STATE_inj (a b : string) :
  REDIS_KEYS.SUBREDDIT_STATE a = REDIS_KEYS.SUBREDDIT_STATE b -> a = b.
Proof.
  unfold REDIS_KEYS.SUBREDDIT_STATE. intros H.
  apply string_app_inj_l in H. apply string_app_inj_r in H. exact H.
Qed.

(** A state key ends in "e", an action-list key in "s". *)
Lemma state_key_not_action_key (a b : string) :
  REDIS_KEYS.SUBREDDIT_STATE a <> REDIS_KEYS.ACTION_HISTORY b.
Proof.
  unfold REDIS_KEYS.SUBREDDIT_STATE, REDIS_KEYS.ACTION_HISTORY. intros H.
  apply (f_equal chars_of) in H. rewrite !chars_of_app in H.
  apply (f_equal (@last ascii)) in H.
  change (chars_of ":state") with ((chars_of ":stat") ++ ["e"%char]) in H.
  change (chars_of ":actions") with ((chars_of ":action") ++ ["s"%char]) in H.
  rewrite !app_assoc, !last_snoc in H. discriminate H.
Qed.

(* ===================================================================== *)
(** * The game-state repository under any availability of the store *)
(* ===================================================================== *)

Lemma triple_game_withRetry {A} (op : Promise A) (I : World -> Prop) Q :
  sleepProof I ->
  triple I op Q (fun _ => I) ->
  triple I (RedisGameService.withRetry op) Q (fun _ => I).
Proof.
  intros Hs Hop. unfold RedisGameService.withRetry, withRetryPolicy.
  apply triple_retryLoop; assumption.
Qed.

Lemma getGameState_spec (sub : string) Φ :
  triple (onStore Φ) (RedisGameService.getGameState sub)
         (fun r w =>
            Φ (redis w) /\
            match r with
            | Some st => redis w !! REDIS_KEYS.SUBREDDIT_STATE sub = Some (VState st)
            | None => redis w !! REDIS_KEYS.SUBREDDIT_STATE sub = None
            end)
         (fun _ => onStore Φ).
Proof.
  unfold RedisGameService.getGameState.
  apply triple_game_withRetry; [apply onStore_sleepProof |].
  cbv zeta. eapply triple_bind; [apply triple_redis_get |].
  intros [[st | p | l] |].
  - apply triple_ret. intros w [H1 H2]. split; [exact H1 | symmetry; exact H2].
  - apply triple_throw. intros w [H1 _]. exact H1.
  - apply triple_throw. intros w [H1 _]. exact H1.
  - apply triple_ret. intros w [H1 H2]. split; [exact H1 | symmetry; exact H2].
Qed.

Lemma saveGameState_spec (gs : GameState.t) Φ :
  triple (onStore Φ) (RedisGameService.saveGameState gs)
         (fun gs' w =>
            exists R d, Φ R /\ gs' = GameState.set_updatedAt d gs /\
              redis w = <[REDIS_KEYS.SUBREDDIT_STATE (GameState.subredditName gs)
                          := VState gs']> R)
         (fun _ => onStore Φ).
Proof.
  unfold RedisGameService.saveGameState.
  apply triple_game_withRetry; [apply onStore_sleepProof |].
  cbv zeta. eapply triple_bind; [apply triple_Date_now |].
  intros now. eapply triple_bind; [apply triple_redis_set |].
  intros []. apply triple_ret.
  intros w (R & HR & Hw). exists R, now. auto.
Qed.

Lemma triple_weaken {A} (m : Promise A) (P P' : World -> Prop) Q E :
  (forall w, P w -> P' w) -> triple P' m Q E -> triple P m Q E.
Proof. intros HP Hm w Hw. apply Hm, HP, Hw. Qed.

Lemma triple_pure {A} (m : Promise A) (P : World -> Prop) (φ : Prop) Q E :
  (forall w, P w -> φ) -> (φ -> triple P m Q E) -> triple P m Q E.
Proof. intros Hφ Hm w Hw. apply (Hm (Hφ w Hw) w Hw). Qed.

Lemma wellKeyed_insert_state (R : gmap string Stored) (st : GameState.t) :
  wellKeyed R ->
  wellKeyed (<[REDIS_KEYS.SUBREDDIT_STATE (GameState.subredditName st) := VState st]> R).
Proof.
  intros HR sub st' Hl.
  destruct (decide (REDIS_KEYS.SUBREDDIT_STATE (GameState.subredditName st)
                    = REDIS_KEYS.SUBREDDIT_STATE sub)) as [Heq | Hne].
  - rewrite Heq, lookup_insert_eq in Hl. injection Hl as <-.
    apply SUBREDDIT_STATE_inj, Heq.
  - rewrite lookup_insert_ne in Hl by exact Hne. apply HR, Hl.
Qed.

Lemma wellKeyed_insert_list (R : gmap string Stored) (key : string) (l : list Item) :
  wellKeyed R -> wellKeyed (<[key := VList l]> R).
Proof.
  intros HR sub st' Hl.
  destruct (decide (key = REDIS_KEYS.SUBREDDIT_STATE sub)) as [Heq | Hne].
  - rewrite Heq, lookup_insert_eq in Hl. discriminate Hl.
  - rewrite lookup_insert_ne in Hl by exact Hne. apply HR, Hl.
Qed.

Lemma set_treeLevel_derived (st : GameState.t) (d : Z) :
  levelDerived
    (GameState.set_updatedAt d
       (GameState.set_treeLevel
          (RedisGameService.calculateTreeLevel (GameState.totalGrowth st)) st)).
Proof. reflexivity. Qed.

Lemma updateGameState_spec (sub : string) (updates : GameState.partial) :
  triple (onStore wellKeyed) (RedisGameService.updateGameState sub updates)
         (fun st w =>
            wellKeyed (redis w) /\
            redis w !! REDIS_KEYS.SUBREDDIT_STATE sub = Some (VState st) /\
            levelDerived st /\ GameState.subredditName st = sub)
         (fun _ => onStore wellKeyed).
Proof.
  unfold RedisGameService.updateGameState.
  apply triple_game_withRetry; [apply onStore_sleepProof |].
  eapply triple_bind; [apply getGameState_spec |].
  intros [cur |].
  - eapply triple_pure with (φ := GameState.subredditName cur = sub).
    { intros w [HW Hl]. apply (HW _ _ Hl). }
    intros Hname.
    eapply triple_weaken with (P' := onStore wellKeyed); [intros w [HW _]; exact HW |].
    eapply triple_bind; [apply triple_Date_now |].
    intros now. cbv zeta.
    eapply triple_bind; [apply saveGameState_spec |].
    intros st. apply triple_ret.
    intros w (R & d & HR & Hst & Hw).
    cbn [GameState.subredditName GameState.set_updatedAt GameState.set_treeLevel
         GameState.spread] in Hw.
    rewrite Hname in Hw.
    assert (Hn : GameState.subredditName st = sub) by (rewrite Hst; exact Hname).
    split; [| split; [| split]].
    + rewrite Hw, <- Hn. apply wellKeyed_insert_state, HR.
    + rewrite Hw. apply lookup_insert_eq.
    + rewrite Hst. reflexivity.
    + exact Hn.
  - apply triple_throw. intros w [HW _]. exact HW.
Qed.

Lemma updateGameStateFromAction_spec (action : ActionHistory.t) :
  triple (onStore wellKeyed) (RedisGameService.updateGameStateFromAction action)
         (fun _ w =>
            wellKeyed (redis w) /\
            exists st,
              redis w !! REDIS_KEYS.SUBREDDIT_STATE (ActionHistory.subredditName action)
              = Some (VState st) /\ levelDerived st)
         (fun _ => onStore wellKeyed).
Proof.
  unfold RedisGameService.updateGameStateFromAction. cbv zeta.
  eapply triple_bind with (Q1 := fun _ => onStore wellKeyed).
  { eapply triple_conseq;
      [apply getGameState_spec | intros w H; exact H
      | intros a w [H _]; exact H | intros e w H; exact H]. }
  intros currentState.
  eapply triple_bind; [apply updateGameState_spec |].
  intros st. apply triple_ret.
  intros w (HW & Hl & Hd & _). split; [exact HW |]. exists st. split; assumption.
Qed.

Lemma generateActionId_spec Φ :
  triple (onStore Φ) RedisGameService.generateActionId
         (fun _ => onStore Φ) (fun _ => onStore Φ).
Proof.
  unfold RedisGameService.generateActionId.
  eapply triple_bind; [apply triple_Date_now |].
  intros now. eapply triple_bind; [apply triple_Math_random_token |].
  intros token. apply triple_ret. auto.
Qed.

Lemma recordAction_spec (draft : ActionHistory.draft) :
  triple (onStore wellKeyed) (RedisGameService.recordAction draft)
         (fun _ w =>
            wellKeyed (redis w) /\
            exists st,
              redis w !! REDIS_KEYS.SUBREDDIT_STATE (ActionHistory.d_subredditName draft)
              = Some (VState st) /\ levelDerived st)
         (fun _ => onStore wellKeyed).
Proof.
  unfold RedisGameService.recordAction.
  apply triple_game_withRetry; [apply onStore_sleepProof |].
  eapply triple_bind; [apply generateActionId_spec |].
  intros id. eapply triple_bind; [apply triple_Date_now |].
  intros timestamp. cbv zeta.
  eapply triple_bind with (Q1 := fun _ => onStore wellKeyed).
  { eapply triple_conseq;
      [apply triple_redis_get | intros w H; exact H
      | intros a w [H _]; exact H | intros e w H; exact H]. }
  intros existing.
  eapply triple_bind with (Q1 := fun _ => onStore wellKeyed).
  { destruct existing as [[st | p | l] |];
      [apply triple_throw | apply triple_throw | apply triple_ret | apply triple_ret];
      auto. }
  intros actions.
  eapply triple_bind with (Q1 := fun _ => onStore wellKeyed).
  { eapply triple_conseq;
      [apply triple_redis_set | intros w H; exact H | | intros e w H; exact H].
    intros [] w (R & HR & Hw). unfold onStore. rewrite Hw.
    apply wellKeyed_insert_list, HR. }
  intros [].
  eapply triple_bind; [apply updateGameStateFromAction_spec |].
  intros []. apply triple_ret.
  intros w H. exact H.
Qed.

Lemma triple_invariant {A} (m : Promise A) (I : World -> Prop) (w : World) :
  triple I m (fun _ => I) (fun _ => I) -> I w -> I (snd (m w)).
Proof.
  intros H Hw. specialize (H w Hw). destruct (m w) as [[a | e] w']; exact H.
Qed.

Lemma everyLevelDerived_state_write (R : gmap string Stored) (key : string)
    (st : GameState.t) :
  levelDerived st -> everyLevelDerived R ->
  everyLevelDerived (<[key := VState st]> R).
Proof.
  intros Hst HR k st' Hl.
  destruct (decide (key = k)) as [-> | Hne].
  - rewrite lookup_insert_eq in Hl. injection Hl as <-. exact Hst.
  - rewrite lookup_insert_ne in Hl by exact Hne. apply (HR _ _ Hl).
Qed.

Lemma everyLevelDerived_list_write (R : gmap string Stored) (key : string)
    (l : list Item) :
  everyLevelDerived R -> everyLevelDerived (<[key := VList l]> R).
Proof.
  intros HR k st' Hl.
  destruct (decide (key = k)) as [-> | Hne].
  - rewrite lookup_insert_eq in Hl. discriminate Hl.
  - rewrite lookup_insert_ne in Hl by exact Hne. apply (HR _ _ Hl).
Qed.

Lemma saveGameState_keeps_derived (gs : GameState.t) :
  levelDerived gs ->
  triple (onStore everyLevelDerived) (RedisGameService.saveGameState gs)
         (fun _ => onStore everyLevelDerived) (fun _ => onStore everyLevelDerived).
Proof.
  intros Hgs.
  eapply triple_conseq;
    [apply saveGameState_spec | intros w H; exact H | | intros e w H; exact H].
  intros gs' w (R & d & HR & -> & Hw). unfold onStore. rewrite Hw.
  apply everyLevelDerived_state_write; [exact Hgs | exact HR].
Qed.

Lemma updateGameState_keeps_derived (sub : string) (updates : GameState.partial) :
  triple (onStore everyLevelDerived) (RedisGameService.updateGameState sub updates)
         (fun _ => onStore everyLevelDerived) (fun _ => onStore everyLevelDerived).
Proof.
  unfold RedisGameService.updateGameState.
  apply triple_game_withRetry; [apply onStore_sleepProof |].
  eapply triple_bind with (Q1 := fun _ => onStore everyLevelDerived).
  { eapply triple_conseq;
      [apply getGameState_spec | intros w H; exact H
      | intros r w [H _]; exact H | intros e w H; exact H]. }
  intros [cur |]; [| apply triple_throw; auto].
  eapply triple_bind; [apply triple_Date_now |].
  intros now. cbv zeta.
  eapply triple_bind; [apply saveGameState_keeps_derived; reflexivity |].
  intros st. apply triple_ret. auto.
Qed.

Lemma recordAction_keeps_derived (draft : ActionHistory.draft) :
  triple (onStore everyLevelDerived) (RedisGameService.recordAction draft)
         (fun _ => onStore everyLevelDerived) (fun _ => onStore everyLevelDerived).
Proof.
  unfold RedisGameService.recordAction.
  apply triple_game_withRetry; [apply onStore_sleepProof |].
  eapply triple_bind; [apply generateActionId_spec |].
  intros id. eapply triple_bind; [apply triple_Date_now |].
  intros timestamp. cbv zeta.
  eapply triple_bind with (Q1 := fun _ => onStore everyLevelDerived).
  { eapply triple_conseq;
      [apply triple_redis_get | intros w H; exact H
      | intros a w [H _]; exact H | intros e w H; exact H]. }
  intros existing.
  eapply triple_bind with (Q1 := fun _ => onStore everyLevelDerived).
  { destruct existing as [[st | p | l] |];
      [apply triple_throw | apply triple_throw | apply triple_ret | apply triple_ret];
      auto. }
  intros actions.
  eapply triple_bind with (Q1 := fun _ => onStore everyLevelDerived).
  { eapply triple_conseq;
      [apply triple_redis_set | intros w H; exact H | | intros e w H; exact H].
    intros [] w (R & HR & Hw). unfold onStore. rewrite Hw.
    apply everyLevelDerived_list_write, HR. }
  intros [].
  eapply triple_bind with (Q1 := fun _ => onStore everyLevelDerived).
  { unfold RedisGameService.updateGameStateFromAction. cbv zeta.
    eapply triple_bind with (Q1 := fun _ => onStore everyLevelDerived).
    { eapply triple_conseq;
        [apply getGameState_spec | intros w H; exact H
        | intros r w [H _]; exact H | intros e w H; exact H]. }
    intros cur.
    eapply triple_bind; [apply updateGameState_keeps_derived |].
    intros st. apply triple_ret. auto. }
  intros []. apply triple_ret. auto.
Qed.

Lemma initializeGameState_keeps_derived (sub : string) :
  triple (onStore everyLevelDerived) (RedisGameService.initializeGameState sub)
         (fun _ => onStore everyLevelDerived) (fun _ => onStore everyLevelDerived).
Proof.
  unfold RedisGameService.initializeGameState.
  eapply triple_catch with (E1 := fun _ => onStore everyLevelDerived).
  - eapply triple_bind with (Q1 := fun _ => onStore everyLevelDerived).
    { eapply triple_conseq;
        [apply getGameState_spec | intros w H; exact H
        | intros r w [H _]; exact H | intros e w H; exact H]. }
    intros [cur |]; [apply triple_ret; auto |].
    do 3 (eapply triple_bind; [apply triple_Date_now |]; intros ?).
    cbv zeta.
    eapply triple_bind; [apply saveGameState_keeps_derived; reflexivity |].
    intros st. apply triple_ret. auto.
  - intros e. apply triple_throw. auto.
Qed.

(** C3: in a store that keeps every game state under its own key, a
    successful [updateGameState(subreddit, updates)] leaves under the
    subreddit's key the record it returns, and that record's [treeLevel]
    is the level its [totalGrowth] gives under the threshold table,
    whatever [updates] holds (a [treeLevel] the caller passes in is
    overwritten); the same holds for the record persisted by a successful
    [recordAction].  And whether they return or throw, [updateGameState],
    [recordAction] and [initializeGameState] only ever write game states
    whose level is the derived one.  All of this holds under any
    availability of the store. *)
Theorem treeLevel_rederived_on_every_write
    (w : World) (subreddit : string) (updates : GameState.partial)
    (draft : ActionHistory.draft) :
  wellKeyed (redis w) ->
  (forall st w',
     RedisGameService.updateGameState subreddit updates w = (Ok st, w') ->
     redis w' !! REDIS_KEYS.SUBREDDIT_STATE subreddit = Some (VState st)
     /\ GameState.treeLevel st
        = GrowthUtils.calculateTreeLevel (GameState.totalGrowth st))
  /\
  (forall action w',
     RedisGameService.recordAction draft w = (Ok action, w') ->
     exists st,
       redis w' !! REDIS_KEYS.SUBREDDIT_STATE (ActionHistory.d_subredditName draft)
       = Some (VState st)
       /\ GameState.treeLevel st
          = GrowthUtils.calculateTreeLevel (GameState.totalGrowth st))
  /\
  (everyLevelDerived (redis w) ->
   everyLevelDerived (redis (snd (RedisGameService.updateGameState subreddit updates w)))
   /\ everyLevelDerived (redis (snd (RedisGameService.recordAction draft w)))
   /\ everyLevelDerived (redis (snd (RedisGameService.initializeGameState subreddit w)))).
Proof.
  intros HW. split; [| split].
  - intros st w' Hrun.
    pose proof (updateGameState_spec subreddit updates w HW) as H.
    rewrite Hrun in H. destruct H as (_ & Hl & Hd & _).
    split; [exact Hl |]. rewrite <- repo_level_eq_utils. exact Hd.
  - intros action w' Hrun.
    pose proof (recordAction_spec draft w HW) as H.
    rewrite Hrun in H. destruct H as (_ & st & Hl & Hd).
    exists st. split; [exact Hl |]. rewrite <- repo_level_eq_utils. exact Hd.
  - intros HD. split; [| split].
    + apply (triple_invariant _ (onStore everyLevelDerived));
        [apply updateGameState_keeps_derived | exact HD].
    + apply (triple_invariant _ (onStore everyLevelDerived));
        [apply recordAction_keeps_derived | exact HD].
    + apply (triple_invariant _ (onStore everyLevelDerived));
        [apply initializeGameState_keeps_derived | exact HD].
Qed.

Lemma wellKeyed_singleton (st : GameState.t) :
  wellKeyed {[ REDIS_KEYS.SUBREDDIT_STATE (GameState.subredditName st) := VState st ]}.
Proof.
  intros sub st' Hl. apply lookup_singleton_Some in Hl as [Hk Hv].
  apply SUBREDDIT_STATE_inj in Hk. injection Hv as <-. exact Hk.
Qed.

Lemma treeLevel_rederived_on_every_write_witness :
  wellKeyed (redis gardenWorld)
  /\ (exists st w',
        RedisGameService.updateGameState "garden" gardenUpdates gardenWorld
        = (Ok st, w')
        /\ GameState.treeLevel st = 2)
  /\ (forall st w',
        RedisGameService.updateGameState "garden" gardenUpdates gardenWorld
        = (Ok st, w') ->
        redis w' !! REDIS_KEYS.SUBREDDIT_STATE "garden" = Some (VState st)
        /\ GameState.treeLevel st
           = GrowthUtils.calculateTreeLevel (GameState.totalGrowth st))
  /\ (forall action w',
        RedisGameService.recordAction gardenCharge gardenWorld = (Ok action, w') ->
        exists st,
          redis w' !! REDIS_KEYS.SUBREDDIT_STATE "garden" = Some (VState st)
          /\ GameState.treeLevel st
             = GrowthUtils.calculateTreeLevel (GameState.totalGrowth st)).
Proof.
  assert (HW : wellKeyed (redis gardenWorld)) by apply (wellKeyed_singleton gardenState).
  split; [exact HW |]. split.
  - eexists _, _. split; [vm_compute; reflexivity | reflexivity].
  - pose proof (treeLevel_rederived_on_every_write gardenWorld "garden"
                  gardenUpdates gardenCharge HW) as (H1 & H2 & _).
    split; [exact H1 | exact H2].
Defined.

(* ===================================================================== *)
(** * The game-state repository while the store is available *)
(* ===================================================================== *)

Lemma game_withRetry_Ok {A} (op : Promise A) (w w1 : World) (a : A) :
  op w = (Ok a, w1) -> RedisGameService.withRetry op w = (Ok a, w1).
Proof.
  intros H. unfold RedisGameService.withRetry, withRetryPolicy.
  change (Z.to_nat RedisGameService.maxRetries) with 3%nat.
  apply retryLoop_first_Ok; [unfold RedisGameService.maxRetries; lia | exact H].
Qed.

Lemma getGameState_found (sub : string) (st : GameState.t) (w : World) :
  calm w ->
  redis w !! REDIS_KEYS.SUBREDDIT_STATE sub = Some (VState st) ->
  RedisGameService.getGameState sub w
  = (Ok (Some st), record (EvGet (REDIS_KEYS.SUBREDDIT_STATE sub)) w).
Proof.
  intros Hc Hl. unfold RedisGameService.getGameState.
  apply game_withRetry_Ok. cbv zeta.
  erewrite bind_Ok by (apply redis_get_calm; exact Hc).
  rewrite Hl. reflexivity.
Qed.

Lemma getGameState_absent (sub : string) (w : World) :
  calm w ->
  redis w !! REDIS_KEYS.SUBREDDIT_STATE sub = None ->
  RedisGameService.getGameState sub w
  = (Ok None, record (EvGet (REDIS_KEYS.SUBREDDIT_STATE sub)) w).
Proof.
  intros Hc Hl. unfold RedisGameService.getGameState.
  apply game_withRetry_Ok. cbv zeta.
  erewrite bind_Ok by (apply redis_get_calm; exact Hc).
  rewrite Hl. reflexivity.
Qed.

Lemma saveGameState_calm (gs : GameState.t) (w : World) :
  calm w ->
  RedisGameService.saveGameState gs w
  = (Ok (GameState.set_updatedAt (clock w) gs),
     stored (REDIS_KEYS.SUBREDDIT_STATE (GameState.subredditName gs))
            (VState (GameState.set_updatedAt (clock w) gs)) w).
Proof.
  intros Hc. unfold RedisGameService.saveGameState.
  apply game_withRetry_Ok. cbv zeta.
  erewrite bind_Ok by reflexivity.
  erewrite bind_Ok by (apply redis_set_calm; exact Hc).
  reflexivity.
Qed.

(** What [updateGameState] makes of the record it read. *)
Lemma updateGameState_calm (sub : string) (updates : GameState.partial)
    (cur : GameState.t) (w : World) :
  calm w ->
  redis w !! REDIS_KEYS.SUBREDDIT_STATE sub = Some (VState cur) ->
  let st' :=
    GameState.set_updatedAt (clock w)
      (GameState.set_treeLevel
         (RedisGameService.calculateTreeLevel
            (GameState.totalGrowth (GameState.spread cur updates)))
         (GameState.set_updatedAt (clock w) (GameState.spread cur updates))) in
  RedisGameService.updateGameState sub updates w
  = (Ok st',
     stored (REDIS_KEYS.SUBREDDIT_STATE (GameState.subredditName cur)) (VState st')
            (record (EvGet (REDIS_KEYS.SUBREDDIT_STATE sub)) w)).
Proof.
  intros Hc Hl st'. unfold RedisGameService.updateGameState.
  apply game_withRetry_Ok.
  erewrite bind_Ok by (apply getGameState_found; eassumption).
  cbv beta iota.
  erewrite bind_Ok by reflexivity. cbv zeta.
  erewrite bind_Ok by (apply saveGameState_calm; apply calm_record, Hc).
  reflexivity.
Qed.

Lemma generateActionId_run (w : World) :
  exists w1,
    RedisGameService.generateActionId w
    = (Ok ("action_" +:+ pretty (clock w) +:+ "_" +:+ hd "" (entropy w)), w1)
    /\ redis w1 = redis w /\ outages w1 = outages w /\ clock w1 = clock w.
Proof.
  unfold RedisGameService.generateActionId.
  erewrite bind_Ok by reflexivity.
  rewrite bind_unfold. unfold await, Math_random_token.
  destruct (entropy w) as [| s rest]; eexists; (split; [reflexivity |]); auto.
Qed.

Lemma updateGameStateFromAction_calm (action : ActionHistory.t)
    (cur : GameState.t) (w : World) :
  calm w ->
  redis w !! REDIS_KEYS.SUBREDDIT_STATE (ActionHistory.subredditName action)
  = Some (VState cur) ->
  let st' := afterAction (ActionHistory.actionType action)
                         (ActionHistory.growthContributed action) (clock w) cur in
  exists w',
    RedisGameService.updateGameStateFromAction action w = (Ok tt, w')
    /\ calm w' /\ clock w' = clock w
    /\ redis w' = <[REDIS_KEYS.SUBREDDIT_STATE (GameState.subredditName cur)
                    := VState st']> (redis w).
Proof.
  intros Hc Hl st'. unfold RedisGameService.updateGameStateFromAction. cbv zeta.
  erewrite bind_Ok by (apply getGameState_found; eassumption).
  cbv beta iota.
  erewrite bind_Ok.
  2:{ apply updateGameState_calm with (cur := cur); [apply calm_record, Hc | exact Hl]. }
  eexists. split; [reflexivity |]. split; [exact Hc |]. split; [reflexivity |].
  cbn [redis stored record]. f_equal. f_equal. subst st'.
  destruct (ActionHistory.actionType action); reflexivity.
Qed.

Lemma unshiftCapped_length (a : ActionHistory.t) (l : list Item) :
  length (RedisGameService.unshiftCapped a l) = Nat.min 1000 (S (length l)).
Proof.
  unfold RedisGameService.unshiftCapped.
  destruct (Nat.ltb_spec 1000 (length (IAction a :: l))) as [Hlt | Hge].
  - rewrite length_take. cbn [length] in *. lia.
  - cbn [length] in *. lia.
Qed.

Lemma unshiftCapped_take (a : ActionHistory.t) (l : list Item) :
  RedisGameService.unshiftCapped a l = take 1000 (IAction a :: l).
Proof.
  unfold RedisGameService.unshiftCapped.
  destruct (Nat.ltb_spec 1000 (length (IAction a :: l))) as [Hlt | Hge].
  - reflexivity.
  - symmetry. apply take_ge. exact Hge.
Qed.

(** One [recordAction] in an available store that holds the subreddit's
    state: the action is put in front of the list, the list is cut to
    1000, and the action is folded into the state. *)
Lemma recordAction_calm (draft : ActionHistory.draft) (st : GameState.t)
    (l : list Item) (w : World) :
  gardenIs (ActionHistory.d_subredditName draft) st l w ->
  exists w',
    RedisGameService.recordAction draft w = (Ok (actionOf draft w), w')
    /\ clock w' = clock w
    /\ gardenIs (ActionHistory.d_subredditName draft)
                (afterAction (ActionHistory.d_actionType draft)
                             (ActionHistory.d_growthContributed draft) (clock w) st)
                (RedisGameService.unshiftCapped (actionOf draft w) l) w'.
Proof.
  intros (Hc & Hst & Hname & Hhist).
  set (sub := ActionHistory.d_subredditName draft) in *.
  destruct (generateActionId_run w) as (w1 & Hid & Hr1 & Ho1 & Hc1).
  assert (Hcalm1 : calm w1) by (unfold calm; rewrite Ho1; exact Hc).
  unfold RedisGameService.recordAction.
  set (act := actionOf draft w).
  assert (Hget : redis_get (REDIS_KEYS.ACTION_HISTORY sub) w1
                 = (Ok (redis w !! REDIS_KEYS.ACTION_HISTORY sub),
                    record (EvGet (REDIS_KEYS.ACTION_HISTORY sub)) w1)).
  { rewrite redis_get_calm by exact Hcalm1. rewrite Hr1. reflexivity. }
  set (w2 := record (EvGet (REDIS_KEYS.ACTION_HISTORY sub)) w1) in *.
  set (w3 := stored (REDIS_KEYS.ACTION_HISTORY sub)
                    (VList (RedisGameService.unshiftCapped act l)) w2).
  assert (Hst3 : redis w3 !! REDIS_KEYS.SUBREDDIT_STATE sub = Some (VState st)).
  { subst w3 w2. cbn [redis stored record].
    rewrite lookup_insert_ne by (apply not_eq_sym, state_key_not_action_key).
    rewrite Hr1. exact Hst. }
  destruct (updateGameStateFromAction_calm act st w3) as (w4 & Hupd & Hc4 & Hk4 & Hr4).
  { exact Hcalm1. }
  { exact Hst3. }
  assert (Hclock3 : clock w3 = clock w) by (subst w3 w2; cbn; exact Hc1).
  exists w4. split; [| split].
  - apply game_withRetry_Ok.
    erewrite bind_Ok by exact Hid.
    erewrite bind_Ok by reflexivity.
    cbv zeta. rewrite Hc1.
    erewrite bind_Ok by exact Hget.
    assert (Hact : (match redis w !! REDIS_KEYS.ACTION_HISTORY sub with
                    | None => mret []
                    | Some (VList l0) => mret l0
                    | Some _ => throw "actions.unshift is not a function"
                    end : Promise (list Item)) w2 = (Ok l, w2)).
    { destruct Hhist as [-> | [-> ->]]; reflexivity. }
    erewrite bind_Ok by exact Hact.
    erewrite bind_Ok by (apply redis_set_calm; exact Hcalm1).
    fold w3.
    erewrite bind_Ok by exact Hupd.
    reflexivity.
  - rewrite Hk4. exact Hclock3.
  - rewrite Hclock3 in Hr4. rewrite Hname in Hr4.
    split; [exact Hc4 |]. split; [| split].
    + rewrite Hr4. apply lookup_insert_eq.
    + exact Hname.
    + left. rewrite Hr4.
      rewrite lookup_insert_ne by apply state_key_not_action_key.
      subst w3. cbn [redis stored]. apply lookup_insert_eq.
Qed.




(* ===================================================================== *)
(** * [initializeGameState] *)
(* ===================================================================== *)

Lemma initializeGameState_existing_calm (sub : string) (st : GameState.t) (w : World) :
  calm w ->
  redis w !! REDIS_KEYS.SUBREDDIT_STATE sub = Some (VState st) ->
  RedisGameService.initializeGameState sub w
  = (Ok st, record (EvGet (REDIS_KEYS.SUBREDDIT_STATE sub)) w).
Proof.
  intros Hc Hl. unfold RedisGameService.initializeGameState, try_catch.
  erewrite bind_Ok by (apply getGameState_found; eassumption).
  reflexivity.
Qed.

Lemma initializeGameState_fresh_calm (sub : string) (w : World) :
  calm w ->
  redis w !! REDIS_KEYS.SUBREDDIT_STATE sub = None ->
  RedisGameService.initializeGameState sub w
  = (Ok (initialGameState sub (clock w)),
     stored (REDIS_KEYS.SUBREDDIT_STATE sub)
            (VState (initialGameState sub (clock w)))
            (record (EvGet (REDIS_KEYS.SUBREDDIT_STATE sub)) w)).
Proof.
  intros Hc Hl. unfold RedisGameService.initializeGameState, try_catch.
  erewrite bind_Ok by (apply getGameState_absent; eassumption).
  cbv beta iota.
  do 3 (erewrite bind_Ok by reflexivity). cbv zeta.
  erewrite bind_Ok by (apply saveGameState_calm; apply calm_record, Hc).
  reflexivity.
Qed.

(** With a record in place, [initializeGameState] writes nothing, whether
    the store answers or not, and can only return that record. *)
Lemma initializeGameState_existing_any (sub : string) (st : GameState.t)
    (R : gmap string Stored) :
  R !! REDIS_KEYS.SUBREDDIT_STATE sub = Some (VState st) ->
  triple (onStore (fun R' => R' = R)) (RedisGameService.initializeGameState sub)
         (fun r w => redis w = R /\ r = st)
         (fun _ w => redis w = R).
Proof.
  intros Hl. unfold RedisGameService.initializeGameState.
  eapply triple_catch with (E1 := fun _ => onStore (fun R' => R' = R)).
  - eapply triple_bind; [apply getGameState_spec |].
    intros [st' |].
    + apply triple_ret. intros w [HR Hl']. split; [exact HR |].
      rewrite HR, Hl in Hl'. injection Hl' as ->. reflexivity.
    + eapply triple_pure with (φ := False).
      { intros w [HR Hl']. rewrite HR, Hl in Hl'. discriminate Hl'. }
      intros [].
  - intros e. apply triple_throw. intros w H. exact H.
Qed.

(** C8: [initializeGameState] is idempotent.  When the subreddit already
    has a stored game state, a call persists nothing and can return
    nothing but that record (and does return it when the store answers),
    so [createdAt] stays as it was; when the subreddit has none, the call
    persists and returns a record with all counters 0 and [treeLevel] 1,
    and a second call right after returns that same record and persists
    nothing. *)
Theorem initializeGameState_idempotent (w : World) (subreddit : string) :
  (forall st,
     redis w !! REDIS_KEYS.SUBREDDIT_STATE subreddit = Some (VState st) ->
     (forall r w',
        RedisGameService.initializeGameState subreddit w = (r, w') ->
        redis w' = redis w /\ (r = Ok st \/ exists e, r = Throw e))
     /\ (calm w ->
         exists w', RedisGameService.initializeGameState subreddit w = (Ok st, w')))
  /\
  (calm w ->
   redis w !! REDIS_KEYS.SUBREDDIT_STATE subreddit = None ->
   let created := initialGameState subreddit (clock w) in
   exists w1,
     RedisGameService.initializeGameState subreddit w = (Ok created, w1)
     /\ redis w1 = <[REDIS_KEYS.SUBREDDIT_STATE subreddit := VState created]> (redis w)
     /\ exists w2,
          RedisGameService.initializeGameState subreddit w1 = (Ok created, w2)
          /\ redis w2 = redis w1).
Proof.
  split.
  - intros st Hl. split.
    + intros r w' Hrun.
      pose proof (initializeGameState_existing_any subreddit st (redis w) Hl w eq_refl) as H.
      rewrite Hrun in H. destruct r as [st' | e].
      * destruct H as [HR ->]. split; [exact HR | left; reflexivity].
      * split; [exact H | right; exists e; reflexivity].
    + intros Hc. eexists. apply initializeGameState_existing_calm; assumption.
  - intros Hc Hl created.
    eexists. split; [apply initializeGameState_fresh_calm; assumption |].
    split; [reflexivity |].
    eexists. split.
    + apply initializeGameState_existing_calm.
      * apply calm_stored, calm_record, Hc.
      * cbn [redis stored record]. apply lookup_insert_eq.
    + reflexivity.
Qed.

Lemma initializeGameState_idempotent_witness :
  calm emptyWorld
  /\ redis emptyWorld !! REDIS_KEYS.SUBREDDIT_STATE "testsub" = None
  /\ exists w1,
       RedisGameService.initializeGameState "testsub" emptyWorld
       = (Ok (initialGameState "testsub" 1000), w1)
       /\ redis w1 = <[REDIS_KEYS.SUBREDDIT_STATE "testsub"
                       := VState (initialGameState "testsub" 1000)]> (redis emptyWorld)
       /\ exists w2,
            RedisGameService.initializeGameState "testsub" w1
            = (Ok (initialGameState "testsub" 1000), w2)
            /\ redis w2 = redis w1.
Proof.
  split; [reflexivity |]. split; [reflexivity |].
  exact (proj2 (initializeGameState_idempotent emptyWorld "testsub")
               eq_refl eq_refl).
Defined.

(* ===================================================================== *)
(** * Recording actions *)
(* ===================================================================== *)





(** The same run, evaluated: the 16th action leaves the tree at level 1
    (48 growth), the 17th takes it to level 2. *)
Example sixteen_then_seventeen :
  (exists st w',
     chargeScenario "testsub" "alice" 10 3 16 emptyWorld = (Ok (Some st), w')
     /\ GameState.totalGrowth st == 48 /\ GameState.treeLevel st = 1)
  /\ (exists st w',
        chargeScenario "testsub" "alice" 10 3 17 emptyWorld = (Ok (Some st), w')
        /\ GameState.totalGrowth st == 51 /\ GameState.treeLevel st = 2).
Proof.
  split; eexists _, _; (split; [vm_compute; reflexivity |]);
    split; reflexivity.
Qed.

(** ** The bounded history *)

Lemma saveGameState_keeps (gs : GameState.t) Φ :
  stateWriteClosed Φ ->
  triple (onStore Φ) (RedisGameService.saveGameState gs)
         (fun _ => onStore Φ) (fun _ => onStore Φ).
Proof.
  intros Hcl.
  eapply triple_conseq;
    [apply saveGameState_spec | intros w H; exact H | | intros e w H; exact H].
  intros gs' w (R & d & HR & _ & Hw). unfold onStore. rewrite Hw. apply Hcl, HR.
Qed.

Lemma getGameState_keeps (sub : string) Φ :
  triple (onStore Φ) (RedisGameService.getGameState sub)
         (fun _ => onStore Φ) (fun _ => onStore Φ).
Proof.
  eapply triple_conseq;
    [apply getGameState_spec | intros w H; exact H
    | intros r w [H _]; exact H | intros e w H; exact H].
Qed.

Lemma updateGameState_keeps (sub : string) (updates : GameState.partial) Φ :
  stateWriteClosed Φ ->
  triple (onStore Φ) (RedisGameService.updateGameState sub updates)
         (fun _ => onStore Φ) (fun _ => onStore Φ).
Proof.
  intros Hcl. unfold RedisGameService.updateGameState.
  apply triple_game_withRetry; [apply onStore_sleepProof |].
  eapply triple_bind; [apply getGameState_keeps |].
  intros [cur |].
  - eapply triple_bind; [apply triple_Date_now |].
    intros now. cbv zeta.
    eapply triple_bind; [apply saveGameState_keeps, Hcl |].
    intros st. apply triple_ret. auto.
  - apply triple_throw. auto.
Qed.

Lemma updateGameStateFromAction_keeps (action : ActionHistory.t) Φ :
  stateWriteClosed Φ ->
  triple (onStore Φ) (RedisGameService.updateGameStateFromAction action)
         (fun _ => onStore Φ) (fun _ => onStore Φ).
Proof.
  intros Hcl. unfold RedisGameService.updateGameStateFromAction. cbv zeta.
  eapply triple_bind; [apply getGameState_keeps |].
  intros cur.
  eapply triple_bind; [apply updateGameState_keeps, Hcl |].
  intros st. apply triple_ret. auto.
Qed.

Lemma historiesCapped_state_write : stateWriteClosed historiesCapped.
Proof.
  intros R sub st HR sub' l Hl.
  rewrite lookup_insert_ne in Hl by apply state_key_not_action_key.
  apply (HR _ _ Hl).
Qed.

Lemma unshiftCapped_le (a : ActionHistory.t) (l : list Item) :
  (length (RedisGameService.unshiftCapped a l) <= 1000)%nat.
Proof. rewrite unshiftCapped_length. lia. Qed.

Lemma unshiftCapped_head (a : ActionHistory.t) (l : list Item) :
  head (RedisGameService.unshiftCapped a l) = Some (IAction a).
Proof. rewrite unshiftCapped_take. reflexivity. Qed.

Lemma historiesCapped_list_write (R : gmap string Stored) (key : string)
    (a : ActionHistory.t) (l : list Item) :
  historiesCapped R ->
  historiesCapped (<[key := VList (RedisGameService.unshiftCapped a l)]> R).
Proof.
  intros HR sub l' Hl.
  destruct (decide (key = REDIS_KEYS.ACTION_HISTORY sub)) as [-> | Hne].
  - rewrite lookup_insert_eq in Hl. injection Hl as <-. apply unshiftCapped_le.
  - rewrite lookup_insert_ne in Hl by exact Hne. apply (HR _ _ Hl).
Qed.

(** Whatever happens, [recordAction] leaves no list longer than 1000. *)
Lemma recordAction_keeps_cap (draft : ActionHistory.draft) :
  triple (onStore historiesCapped) (RedisGameService.recordAction draft)
         (fun _ => onStore historiesCapped) (fun _ => onStore historiesCapped).
Proof.
  unfold RedisGameService.recordAction.
  apply triple_game_withRetry; [apply onStore_sleepProof |].
  eapply triple_bind; [apply generateActionId_spec |].
  intros id. eapply triple_bind; [apply triple_Date_now |].
  intros timestamp. cbv zeta.
  eapply triple_bind with (Q1 := fun _ => onStore historiesCapped).
  { eapply triple_conseq;
      [apply triple_redis_get | intros w H; exact H
      | intros a w [H _]; exact H | intros e w H; exact H]. }
  intros existing.
  eapply triple_bind with (Q1 := fun _ => onStore historiesCapped).
  { destruct existing as [[st | p | l] |];
      [apply triple_throw | apply triple_throw | apply triple_ret | apply triple_ret];
      auto. }
  intros actions.
  eapply triple_bind with (Q1 := fun _ => onStore historiesCapped).
  { eapply triple_conseq;
      [apply triple_redis_set | intros w H; exact H | | intros e w H; exact H].
    intros [] w (R & HR & Hw). unfold onStore. rewrite Hw.
    apply historiesCapped_list_write, HR. }
  intros [].
  eapply triple_bind;
    [apply updateGameStateFromAction_keeps, historiesCapped_state_write |].
  intros []. apply triple_ret. auto.
Qed.

(** When [recordAction] returns, the list of the subreddit starts with the
    action it returns and has at most 1000 entries. *)
Lemma recordAction_front (draft : ActionHistory.draft) :
  triple (onStore (fun _ => True)) (RedisGameService.recordAction draft)
         (fun action w =>
            exists l,
              redis w !! REDIS_KEYS.ACTION_HISTORY (ActionHistory.d_subredditName draft)
              = Some (VList l)
              /\ (length l <= 1000)%nat /\ head l = Some (IAction action))
         (fun _ => onStore (fun _ => True)).
Proof.
  unfold RedisGameService.recordAction.
  apply triple_game_withRetry; [apply onStore_sleepProof |].
  eapply triple_bind; [apply generateActionId_spec |].
  intros id. eapply triple_bind; [apply triple_Date_now |].
  intros timestamp. cbv zeta.
  eapply triple_bind with (Q1 := fun _ => onStore (fun _ => True)).
  { eapply triple_conseq;
      [apply triple_redis_get | intros w H; exact H
      | intros a w [H _]; exact H | intros e w H; exact H]. }
  intros existing.
  eapply triple_bind with (Q1 := fun _ => onStore (fun _ => True)).
  { destruct existing as [[st | p | l] |];
      [apply triple_throw | apply triple_throw | apply triple_ret | apply triple_ret];
      auto. }
  intros actions.
  match goal with
  | |- context [RedisGameService.unshiftCapped ?a actions] => set (action := a)
  end.
  set (Front := fun R : gmap string Stored =>
         exists l,
           R !! REDIS_KEYS.ACTION_HISTORY (ActionHistory.d_subredditName draft)
           = Some (VList l)
           /\ (length l <= 1000)%nat /\ head l = Some (IAction action)).
  assert (HFront : stateWriteClosed Front).
  { intros R sub st (l & Hl & Hlen & Hhd). exists l. split; [| split; assumption].
    rewrite lookup_insert_ne by apply state_key_not_action_key. exact Hl. }
  eapply triple_bind with (Q1 := fun _ => onStore Front).
  { eapply triple_conseq;
      [apply triple_redis_set | intros w H; exact H | | intros e w H; exact H].
    intros [] w (R & _ & Hw). unfold onStore. rewrite Hw.
    exists (RedisGameService.unshiftCapped action actions).
    split; [apply lookup_insert_eq |].
    split; [apply unshiftCapped_le | apply unshiftCapped_head]. }
  intros [].
  eapply triple_conseq with (E' := fun _ => onStore Front);
    [| intros w H; exact H | intros a w H; exact H | intros e w _; exact I].
  eapply triple_bind; [apply updateGameStateFromAction_keeps, HFront |].
  intros []. apply triple_ret. intros w H. exact H.
Qed.

Lemma take_evicts_oldest {X} (x : X) (l : list X) :
  length l = 1000%nat ->
  exists older oldest,
    l = older ++ [oldest] /\ take 1000 (x :: l) = x :: older
    /\ length (take 1000 (x :: l)) = 1000%nat.
Proof.
  intros Hlen.
  destruct (list.nil_or_length_pos l) as [-> | Hpos]; [discriminate Hlen |].
  destruct l as [| y l']; [cbn in Hpos; lia |].
  pose proof (@app_removelast_last X (y :: l') y) as Hsplit.
  specialize (Hsplit ltac:(discriminate)).
  set (older := removelast (y :: l')) in *.
  set (oldest := List.last (y :: l') y) in *.
  assert (Hol : length older = 999%nat).
  { apply (f_equal (@length X)) in Hsplit. rewrite length_app in Hsplit.
    cbn [length] in Hsplit, Hlen. lia. }
  exists older, oldest. split; [exact Hsplit |].
  rewrite Hsplit.
  change (take 1000 (x :: older ++ [oldest])) with (x :: take 999 (older ++ [oldest])).
  rewrite <- Hol, take_app_length. split; [reflexivity |].
  cbn [length]. lia.
Qed.

(** C7: [recordAction] never leaves an action list of more than 1000
    entries (whatever the availability of the store, and whether it
    returns or throws); when it returns, the subreddit's list starts with
    the action it returns; and while the store is available, on a
    subreddit that has a game state, the stored list becomes the new
    action followed by the earlier ones, cut to 1000: with 1000 entries
    before, exactly 1000 after, the oldest one gone. *)
Theorem history_capped_newest_first (w : World) (draft : ActionHistory.draft) :
  (forall r w',
     RedisGameService.recordAction draft w = (r, w') ->
     historiesCapped (redis w) -> historiesCapped (redis w'))
  /\
  (forall action w',
     RedisGameService.recordAction draft w = (Ok action, w') ->
     exists l',
       redis w' !! REDIS_KEYS.ACTION_HISTORY (ActionHistory.d_subredditName draft)
       = Some (VList l')
       /\ (length l' <= 1000)%nat /\ head l' = Some (IAction action))
  /\
  (forall st l,
     gardenIs (ActionHistory.d_subredditName draft) st l w ->
     exists action w' l',
       RedisGameService.recordAction draft w = (Ok action, w')
       /\ redis w' !! REDIS_KEYS.ACTION_HISTORY (ActionHistory.d_subredditName draft)
          = Some (VList l')
       /\ l' = take 1000 (IAction action :: l)
       /\ (length l = 1000%nat ->
           exists older oldest,
             l = older ++ [oldest] /\ l' = IAction action :: older
             /\ length l' = 1000%nat)).
Proof.
  split; [| split].
  - intros r w' Hrun HR.
    pose proof (recordAction_keeps_cap draft w HR) as H.
    rewrite Hrun in H. destruct r; exact H.
  - intros action w' Hrun.
    pose proof (recordAction_front draft w I) as H.
    rewrite Hrun in H. exact H.
  - intros st l Hg.
    destruct (recordAction_calm draft st l w Hg) as (w' & Hrun & _ & Hg').
    destruct Hg' as (_ & _ & _ & Hh).
    exists (actionOf draft w), w', (take 1000 (IAction (actionOf draft w) :: l)).
    split; [exact Hrun |]. split; [| split; [reflexivity |]].
    + destruct Hh as [Hh | [_ Hh]].
      * rewrite Hh, unshiftCapped_take. reflexivity.
      * rewrite unshiftCapped_take in Hh. discriminate Hh.
    + intros Hlen. apply take_evicts_oldest, Hlen.
Qed.

Lemma fullGarden_is_garden :
  gardenIs "garden" gardenState thousandActions fullGardenWorld.
Proof.
  split; [reflexivity |]. split; [reflexivity |]. split; [reflexivity |].
  left. reflexivity.
Qed.

Lemma history_capped_newest_first_witness :
  gardenIs (ActionHistory.d_subredditName gardenCharge) gardenState thousandActions
           fullGardenWorld
  /\ length thousandActions = 1000%nat
  /\ exists action w' l',
       RedisGameService.recordAction gardenCharge fullGardenWorld = (Ok action, w')
       /\ redis w' !! REDIS_KEYS.ACTION_HISTORY "garden" = Some (VList l')
       /\ l' = take 1000 (IAction action :: thousandActions)
       /\ (length thousandActions = 1000%nat ->
           exists older oldest,
             thousandActions = older ++ [oldest] /\ l' = IAction action :: older
             /\ length l' = 1000%nat).
Proof.
  split; [exact fullGarden_is_garden |]. split; [reflexivity |].
  exact (proj2 (proj2 (history_capped_newest_first fullGardenWorld gardenCharge))
               gardenState thousandActions fullGarden_is_garden).
Defined.

(* ===================================================================== *)
(** * Player resources *)
(* ===================================================================== *)

(** C10: for an amount that is zero or negative, [earnCinnamon] throws
    'Cinnamon amount must be positive' at once: the world is left exactly
    as it was, with no store command issued.  [awardUpvoteCinnamon] with
    no upvotes asks for 0 * 0.1 = 0 cinnamon and so fails the same way
    instead of returning the unchanged resources. *)
Theorem earnCinnamon_rejects_nonpositive
    (w : World) (username subredditName : string) (amount : Q) :
  amount <= 0 ->
  PlayerResourceService.earnCinnamon username subredditName amount w
  = (Throw "Cinnamon amount must be positive", w)
  /\ PlayerResourceService.awardUpvoteCinnamon username subredditName 0 w
     = (Throw "Cinnamon amount must be positive", w).
Proof.
  intros Hle. split.
  - unfold PlayerResourceService.earnCinnamon.
    apply num_le_spec in Hle. rewrite Hle. reflexivity.
  - reflexivity.
Qed.

Lemma earnCinnamon_rejects_nonpositive_witness :
  0 <= 0
  /\ PlayerResourceService.earnCinnamon "alice" "garden" 0 aliceWorld
     = (Throw "Cinnamon amount must be positive", aliceWorld)
  /\ PlayerResourceService.awardUpvoteCinnamon "alice" "garden" 0 aliceWorld
     = (Throw "Cinnamon amount must be positive", aliceWorld).
Proof.
  split; [discriminate |].
  apply (earnCinnamon_rejects_nonpositive aliceWorld "alice" "garden" 0).
  discriminate.
Defined.

(** ** The retry wrapper *)

Lemma withRetry_three_attempts {A} (op : Promise A) (w : World) :
  withRetryPolicy 3 1000 op w =
  match op w with
  | (Ok a, w1) => (Ok a, w1)
  | (Throw e1, w1) =>
      match op (snd (sleep 1000 w1)) with
      | (Ok a, w2) => (Ok a, w2)
      | (Throw e2, w2) =>
          match op (snd (sleep 2000 w2)) with
          | (Ok a, w3) => (Ok a, w3)
          | (Throw e3, w3) => (Throw (connectionError (Some e3)), w3)
          end
      end
  end.
Proof.
  unfold withRetryPolicy. change (Z.to_nat 3) with 3%nat.
  cbn [retryLoop]. change (1 <=? 3)%Z with true. cbv iota.
  unfold try_catch at 1. destruct (op w) as [[a | e1] w1]; [reflexivity |].
  change (1 =? 3)%Z with false. cbv iota.
  rewrite bind_unfold. unfold await.
  change (sleep (1000 * 2 ^ (1 - 1)) w1) with (Ok tt, snd (sleep 1000 w1)).
  cbv iota. change (1 + 1 <=? 3)%Z with true. cbv iota.
  unfold try_catch at 1.
  destruct (op (snd (sleep 1000 w1))) as [[a | e2] w2]; [reflexivity |].
  change (1 + 1 =? 3)%Z with false. cbv iota.
  rewrite bind_unfold. unfold await.
  change (sleep (1000 * 2 ^ (1 + 1 - 1)) w2) with (Ok tt, snd (sleep 2000 w2)).
  cbv iota. change (1 + 1 + 1 <=? 3)%Z with true. cbv iota.
  unfold try_catch at 1.
  destruct (op (snd (sleep 2000 w2))) as [[a | e3] w3]; [reflexivity |].
  change (1 + 1 + 1 =? 3)%Z with true. cbv iota. reflexivity.
Qed.

(** ** The player service under any availability of the store *)

Lemma triple_player_withRetry {A} (op : Promise A) (I : World -> Prop) Q :
  sleepProof I ->
  triple I op Q (fun _ => I) ->
  triple I (PlayerResourceService.withRetry op) Q (fun _ => I).
Proof.
  intros Hs Hop. unfold PlayerResourceService.withRetry, withRetryPolicy.
  apply triple_retryLoop; assumption.
Qed.

Lemma getPlayerResources_spec (username sub : string) Φ :
  triple (onStore Φ) (PlayerResourceService.getPlayerResources username sub)
         (fun r w =>
            Φ (redis w) /\
            match r with
            | Some p =>
                redis w !! REDIS_KEYS.PLAYER_RESOURCES username sub = Some (VPlayer p)
            | None => redis w !! REDIS_KEYS.PLAYER_RESOURCES username sub = None
            end)
         (fun _ => onStore Φ).
Proof.
  unfold PlayerResourceService.getPlayerResources.
  apply triple_player_withRetry; [apply onStore_sleepProof |].
  cbv zeta. eapply triple_bind; [apply triple_redis_get |].
  intros [[st | p | l] |].
  - apply triple_throw. intros w [H1 _]. exact H1.
  - apply triple_ret. intros w [H1 H2]. split; [exact H1 | symmetry; exact H2].
  - apply triple_throw. intros w [H1 _]. exact H1.
  - apply triple_ret. intros w [H1 H2]. split; [exact H1 | symmetry; exact H2].
Qed.

Lemma getPlayerResources_keeps (username sub : string) Φ :
  triple (onStore Φ) (PlayerResourceService.getPlayerResources username sub)
         (fun _ => onStore Φ) (fun _ => onStore Φ).
Proof.
  eapply triple_conseq;
    [apply getPlayerResources_spec | intros w H; exact H
    | intros r w [H _]; exact H | intros e w H; exact H].
Qed.

Lemma cinnamonFloor_list_write (R : gmap string Stored) (key : string) (l : list Item) :
  cinnamonFloor R -> cinnamonFloor (<[key := VList l]> R).
Proof.
  intros HR k p Hl.
  destruct (decide (key = k)) as [-> | Hne].
  - rewrite lookup_insert_eq in Hl. discriminate Hl.
  - rewrite lookup_insert_ne in Hl by exact Hne. apply (HR _ _ Hl).
Qed.

Lemma cinnamonFloor_player_write (R : gmap string Stored) (key : string)
    (p : PlayerResources.t) :
  0 <= PlayerResources.cinnamon p ->
  cinnamonFloor R -> cinnamonFloor (<[key := VPlayer p]> R).
Proof.
  intros Hp HR k p' Hl.
  destruct (decide (key = k)) as [-> | Hne].
  - rewrite lookup_insert_eq in Hl. injection Hl as <-. exact Hp.
  - rewrite lookup_insert_ne in Hl by exact Hne. apply (HR _ _ Hl).
Qed.

Lemma updatePlayerIndex_keeps_floor (username sub : string) :
  triple (onStore cinnamonFloor) (PlayerResourceService.updatePlayerIndex username sub)
         (fun _ => onStore cinnamonFloor) (fun _ => onStore cinnamonFloor).
Proof.
  unfold PlayerResourceService.updatePlayerIndex. cbv zeta.
  eapply triple_bind with (Q1 := fun _ => onStore cinnamonFloor).
  { eapply triple_conseq;
      [apply triple_redis_get | intros w H; exact H
      | intros a w [H _]; exact H | intros e w H; exact H]. }
  intros data.
  eapply triple_bind with (Q1 := fun _ => onStore cinnamonFloor).
  { destruct data as [[st | p | l] |];
      [apply triple_throw | apply triple_throw | apply triple_ret | apply triple_ret];
      auto. }
  intros players.
  destruct (negb (PlayerResourceService.includes username players)).
  - eapply triple_conseq;
      [apply triple_redis_set | intros w H; exact H | | intros e w H; exact H].
    intros [] w (R & HR & Hw). unfold onStore. rewrite Hw.
    apply cinnamonFloor_list_write, HR.
  - apply triple_ret. auto.
Qed.

Lemma savePlayerResources_keeps_floor (r : PlayerResources.t) :
  0 <= PlayerResources.cinnamon r ->
  triple (onStore cinnamonFloor) (PlayerResourceService.savePlayerResources r)
         (fun _ => onStore cinnamonFloor) (fun _ => onStore cinnamonFloor).
Proof.
  intros Hr. unfold PlayerResourceService.savePlayerResources.
  apply triple_player_withRetry; [apply onStore_sleepProof |].
  cbv zeta. eapply triple_bind; [apply triple_Date_now |].
  intros now.
  eapply triple_bind with (Q1 := fun _ => onStore cinnamonFloor).
  { eapply triple_conseq;
      [apply triple_redis_set | intros w H; exact H | | intros e w H; exact H].
    intros [] w (R & HR & Hw). unfold onStore. rewrite Hw.
    apply cinnamonFloor_player_write; [exact Hr | exact HR]. }
  intros [].
  eapply triple_bind; [apply updatePlayerIndex_keeps_floor |].
  intros []. apply triple_ret. auto.
Qed.

(** [validateResourceLimits] lets through only a balance within 0 and the
    maximum. *)
Lemma validateResourceLimits_spec (r : PlayerResources.t) (P : World -> Prop) :
  triple P (PlayerResourceService.validateResourceLimits r)
         (fun _ w => P w /\ 0 <= PlayerResources.cinnamon r
                     /\ PlayerResources.cinnamon r <= LIMITS.MAX_CINNAMON)
         (fun _ => P).
Proof.
  unfold PlayerResourceService.validateResourceLimits.
  destruct (num_lt (PlayerResources.cinnamon r) 0) eqn:H0;
    [apply triple_throw; auto |].
  destruct (num_gt (PlayerResources.cinnamon r) LIMITS.MAX_CINNAMON) eqn:H1;
    [apply triple_throw; auto |].
  apply num_lt_false in H0. apply num_gt_false in H1.
  destruct (num_lt (PlayerResources.seeds r) 0); [apply triple_throw; auto |].
  destruct (num_lt (PlayerResources.energy r) 0); [apply triple_throw; auto |].
  destruct (num_lt (PlayerResources.totalContributions r) 0);
    [apply triple_throw; auto |].
  apply triple_ret. auto.
Qed.

Lemma updatePlayerResources_keeps_floor (username sub : string)
    (updates : PlayerResources.partial) :
  triple (onStore cinnamonFloor)
         (PlayerResourceService.updatePlayerResources username sub updates)
         (fun _ => onStore cinnamonFloor) (fun _ => onStore cinnamonFloor).
Proof.
  unfold PlayerResourceService.updatePlayerResources.
  apply triple_player_withRetry; [apply onStore_sleepProof |].
  eapply triple_bind; [apply getPlayerResources_keeps |].
  intros [cur |]; [| apply triple_throw; auto].
  eapply triple_bind; [apply triple_Date_now |].
  intros now. cbv zeta.
  eapply triple_bind; [apply validateResourceLimits_spec |].
  intros [].
  match goal with
  | |- context [PlayerResourceService.savePlayerResources ?r] => set (updated := r)
  end.
  eapply triple_pure with (φ := 0 <= PlayerResources.cinnamon updated).
  { intros w (_ & H & _). exact H. }
  intros Hfloor.
  eapply triple_weaken with (P' := onStore cinnamonFloor);
    [intros w [H _]; exact H |].
  eapply triple_bind; [apply savePlayerResources_keeps_floor, Hfloor |].
  intros saved. apply triple_ret. auto.
Qed.

Lemma earnCinnamon_keeps_floor (username sub : string) (amount : Q) :
  triple (onStore cinnamonFloor)
         (PlayerResourceService.earnCinnamon username sub amount)
         (fun _ => onStore cinnamonFloor) (fun _ => onStore cinnamonFloor).
Proof.
  unfold PlayerResourceService.earnCinnamon.
  destruct (num_le amount 0); [apply triple_throw; auto |].
  apply triple_player_withRetry; [apply onStore_sleepProof |].
  eapply triple_bind; [apply getPlayerResources_keeps |].
  intros [cur |]; [| apply triple_throw; auto].
  cbv zeta. apply updatePlayerResources_keeps_floor.
Qed.

Lemma spendCinnamon_keeps_floor (username sub : string) (amount : Q) :
  triple (onStore cinnamonFloor)
         (PlayerResourceService.spendCinnamon username sub amount)
         (fun _ => onStore cinnamonFloor) (fun _ => onStore cinnamonFloor).
Proof.
  unfold PlayerResourceService.spendCinnamon.
  destruct (num_le amount 0); [apply triple_throw; auto |].
  apply triple_player_withRetry; [apply onStore_sleepProof |].
  eapply triple_bind; [apply getPlayerResources_keeps |].
  intros [cur |]; [| apply triple_throw; auto].
  destruct (num_lt (PlayerResources.cinnamon cur) amount);
    [apply triple_throw; auto |].
  apply updatePlayerResources_keeps_floor.
Qed.

Lemma initializePlayerResources_keeps_floor (username sub : string) :
  triple (onStore cinnamonFloor)
         (PlayerResourceService.initializePlayerResources username sub)
         (fun _ => onStore cinnamonFloor) (fun _ => onStore cinnamonFloor).
Proof.
  unfold PlayerResourceService.initializePlayerResources.
  eapply triple_catch with (E1 := fun _ => onStore cinnamonFloor).
  - eapply triple_bind; [apply getPlayerResources_keeps |].
    intros [cur |]; [apply triple_ret; auto |].
    eapply triple_bind; [apply triple_Date_now |].
    intros now. cbv zeta.
    eapply triple_bind; [apply savePlayerResources_keeps_floor; discriminate |].
    intros saved. apply triple_ret. auto.
  - intros e. apply triple_throw. auto.
Qed.

Lemma getActionCost_keeps (actionType : string) (P : World -> Prop) :
  triple P (PlayerResourceService.getActionCost actionType)
         (fun _ => P) (fun _ => P).
Proof.
  unfold PlayerResourceService.getActionCost.
  repeat (case_decide; [apply triple_ret; auto |]).
  apply triple_throw. auto.
Qed.

Lemma processActionTransaction_keeps_floor (username sub actionType : string) :
  triple (onStore cinnamonFloor)
         (PlayerResourceService.processActionTransaction username sub actionType)
         (fun _ => onStore cinnamonFloor) (fun _ => onStore cinnamonFloor).
Proof.
  unfold PlayerResourceService.processActionTransaction.
  apply triple_player_withRetry; [apply onStore_sleepProof |].
  eapply triple_bind; [apply getActionCost_keeps |].
  intros cost. destruct (Qeq_bool cost 0).
  - eapply triple_bind; [apply updatePlayerResources_keeps_floor |].
    intros r. apply triple_ret. auto.
  - eapply triple_bind; [apply spendCinnamon_keeps_floor |].
    intros r. apply triple_ret. auto.
Qed.

Lemma forget_keeps {A} (m : Promise A) (I : World -> Prop) :
  triple I m (fun _ => I) (fun _ => I) ->
  triple I (forget m) (fun _ => I) (fun _ => I).
Proof.
  intros H. unfold forget. eapply triple_bind; [exact H |].
  intros a. apply triple_ret. auto.
Qed.

Lemma serve_keeps_floor (req : PlayerRequest) :
  triple (onStore cinnamonFloor) (serve req)
         (fun _ => onStore cinnamonFloor) (fun _ => onStore cinnamonFloor).
Proof.
  destruct req; cbn [serve]; apply forget_keeps.
  - apply initializePlayerResources_keeps_floor.
  - apply updatePlayerResources_keeps_floor.
  - apply earnCinnamon_keeps_floor.
  - apply spendCinnamon_keeps_floor.
  - apply processActionTransaction_keeps_floor.
  - apply earnCinnamon_keeps_floor.
  - apply earnCinnamon_keeps_floor.
Qed.

Lemma serveAll_keeps_floor (reqs : list PlayerRequest) :
  triple (onStore cinnamonFloor) (serveAll reqs)
         (fun _ => onStore cinnamonFloor) (fun _ => onStore cinnamonFloor).
Proof.
  induction reqs as [| req rest IH]; cbn [serveAll].
  - apply triple_ret. auto.
  - eapply triple_bind with (Q1 := fun _ => onStore cinnamonFloor).
    + eapply triple_catch; [apply serve_keeps_floor |].
      intros e. apply triple_ret. auto.
    + intros []. exact IH.
Qed.

(** ** Spending more than the balance *)

(** Under any availability of the store, the attempt throws and writes
    nothing. *)
Lemma spendCinnamon_insufficient_any (username sub : string) (amount : Q)
    (p : PlayerResources.t) (R : gmap string Stored) :
  R !! REDIS_KEYS.PLAYER_RESOURCES username sub = Some (VPlayer p) ->
  PlayerResources.cinnamon p < amount ->
  triple (onStore (fun R' => R' = R))
         (PlayerResourceService.spendCinnamon username sub amount)
         (fun _ _ => False) (fun _ w => redis w = R).
Proof.
  intros Hl Hlt. unfold PlayerResourceService.spendCinnamon.
  destruct (num_le amount 0); [apply triple_throw; auto |].
  apply (triple_player_withRetry _ (onStore (fun R' => R' = R)));
    [apply onStore_sleepProof |].
  eapply triple_bind; [apply getPlayerResources_spec |].
  intros [cur |].
  - eapply triple_pure with (φ := cur = p).
    { intros w [HR Hl']. rewrite HR, Hl in Hl'. injection Hl' as ->. reflexivity. }
    intros ->. apply num_lt_spec in Hlt. cbv beta iota. rewrite Hlt.
    apply triple_throw. intros w [HR _]. exact HR.
  - apply triple_throw. intros w [HR _]. exact HR.
Qed.

Lemma player_withRetry_Ok {A} (op : Promise A) (w w1 : World) (a : A) :
  op w = (Ok a, w1) -> PlayerResourceService.withRetry op w = (Ok a, w1).
Proof.
  intros H. unfold PlayerResourceService.withRetry, withRetryPolicy.
  change (Z.to_nat PlayerResourceService.maxRetries) with 3%nat.
  apply retryLoop_first_Ok; [unfold PlayerResourceService.maxRetries; lia | exact H].
Qed.

Lemma getPlayerResources_found (username sub : string) (p : PlayerResources.t)
    (w : World) :
  calm w ->
  redis w !! REDIS_KEYS.PLAYER_RESOURCES username sub = Some (VPlayer p) ->
  PlayerResourceService.getPlayerResources username sub w
  = (Ok (Some p), record (EvGet (REDIS_KEYS.PLAYER_RESOURCES username sub)) w).
Proof.
  intros Hc Hl. unfold PlayerResourceService.getPlayerResources.
  apply player_withRetry_Ok. cbv zeta.
  erewrite bind_Ok by (apply redis_get_calm; exact Hc).
  rewrite Hl. reflexivity.
Qed.

Lemma readsOf_app (key : string) (t1 t2 : list Event) :
  readsOf key (t1 ++ t2) = (readsOf key t1 + readsOf key t2)%nat.
Proof.
  induction t1 as [| [k | k | ms] t1 IH]; cbn [app readsOf]; [reflexivity | | |];
    rewrite ?IH; lia.
Qed.

Lemma pauses_app (t1 t2 : list Event) : pauses (t1 ++ t2) = pauses t1 ++ pauses t2.
Proof.
  induction t1 as [| [k | k | ms] t1 IH]; cbn [app pauses]; [reflexivity | | |];
    rewrite ?IH; reflexivity.
Qed.

(** An operation that reads one key and throws [e], each time it is
    tried: the wrapper tries it three times. *)
Lemma withRetry_all_throw {A} (op : Promise A) (e key : string)
    (P : World -> Prop) (w : World) :
  (forall w0, P w0 -> op w0 = (Throw e, record (EvGet key) w0)) ->
  (forall w0 ev, P w0 -> P (record ev w0)) ->
  sleepProof P ->
  P w ->
  withRetryPolicy 3 1000 op w
  = (Throw (connectionError (Some e)),
     record (EvGet key)
       (snd (sleep 2000
          (record (EvGet key)
             (snd (sleep 1000 (record (EvGet key) w))))))).
Proof.
  intros Hop Hrec Hsl Hw.
  rewrite withRetry_three_attempts.
  rewrite (Hop w Hw).
  assert (H1 : P (snd (sleep 1000 (record (EvGet key) w)))) by (apply Hsl, Hrec, Hw).
  rewrite (Hop _ H1).
  assert (H2 : P (snd (sleep 2000
                   (record (EvGet key) (snd (sleep 1000 (record (EvGet key) w)))))))
    by (apply Hsl, Hrec, H1).
  rewrite (Hop _ H2). reflexivity.
Qed.

(** While the store is available: three reads, pauses of 1000 and 2000 ms
    between them, and the insufficient-resources message wrapped by the
    retry wrapper. *)
Lemma spendCinnamon_insufficient_calm (username sub : string) (amount : Q)
    (p : PlayerResources.t) (w : World) :
  calm w ->
  redis w !! REDIS_KEYS.PLAYER_RESOURCES username sub = Some (VPlayer p) ->
  PlayerResources.cinnamon p < amount ->
  0 < amount ->
  exists w',
    PlayerResourceService.spendCinnamon username sub amount w
    = (Throw (ERROR_MESSAGES.REDIS_CONNECTION_ERROR +:+ ": "
              +:+ ERROR_MESSAGES.INSUFFICIENT_RESOURCES), w')
    /\ redis w' = redis w
    /\ pauses (trace w') = pauses (trace w) ++ [1000; 2000]%Z
    /\ readsOf (REDIS_KEYS.PLAYER_RESOURCES username sub) (trace w')
       = (readsOf (REDIS_KEYS.PLAYER_RESOURCES username sub) (trace w) + 3)%nat.
Proof.
  intros Hc Hl Hlt Hpos. unfold PlayerResourceService.spendCinnamon.
  apply num_le_false in Hpos. rewrite Hpos.
  unfold PlayerResourceService.withRetry.
  change PlayerResourceService.maxRetries with 3%Z.
  change PlayerResourceService.retryDelay with 1000%Z.
  set (key := REDIS_KEYS.PLAYER_RESOURCES username sub).
  erewrite (withRetry_all_throw _ ERROR_MESSAGES.INSUFFICIENT_RESOURCES key
              (fun w0 => calm w0 /\ redis w0 = redis w)).
  - eexists. split; [reflexivity |]. split; [reflexivity |].
    cbn [trace record sleep snd]. split.
    + rewrite !pauses_app. cbn [pauses].
      rewrite !app_nil_r, <- app_assoc. reflexivity.
    + rewrite !readsOf_app. cbn [readsOf].
      rewrite decide_True by reflexivity. lia.
  - intros w0 [Hc0 Hr0].
    erewrite bind_Ok
      by (apply getPlayerResources_found with (p := p); [exact Hc0 | rewrite Hr0; exact Hl]).
    cbv beta iota. apply num_lt_spec in Hlt. rewrite Hlt. reflexivity.
  - intros w0 ev H. exact H.
  - intros w0 d H. exact H.
  - split; [exact Hc | reflexivity].
Qed.

(** C6: when the stored balance (which is never negative) is below the
    requested amount, [spendCinnamon] fails and the store is left exactly
    as it was, whatever the availability of the store; while the store is
    available the error is the insufficient-resources message, as the
    retry wrapper rethrows it.  And no series of requests to the player
    service, successful or not, leaves a negative cinnamon balance in the
    store. *)
Theorem spendCinnamon_floor
    (w : World) (username subredditName : string) (amount : Q)
    (p : PlayerResources.t) :
  redis w !! REDIS_KEYS.PLAYER_RESOURCES username subredditName = Some (VPlayer p) ->
  0 <= PlayerResources.cinnamon p ->
  PlayerResources.cinnamon p < amount ->
  (forall r w',
     PlayerResourceService.spendCinnamon username subredditName amount w = (r, w') ->
     (exists e, r = Throw e) /\ redis w' = redis w)
  /\ (calm w ->
      exists w',
        PlayerResourceService.spendCinnamon username subredditName amount w
        = (Throw ("Database connection error: "
                  +:+ ERROR_MESSAGES.INSUFFICIENT_RESOURCES), w')
        /\ redis w' = redis w)
  /\ (forall reqs r w',
        cinnamonFloor (redis w) ->
        serveAll reqs w = (r, w') ->
        cinnamonFloor (redis w')).
Proof.
  intros Hl Hfloor Hlt. split; [| split].
  - intros r w' Hrun.
    pose proof (spendCinnamon_insufficient_any username subredditName amount p
                  (redis w) Hl Hlt w eq_refl) as H.
    rewrite Hrun in H. destruct r as [a | e]; [destruct H |].
    split; [exists e; reflexivity | exact H].
  - intros Hc.
    destruct (spendCinnamon_insufficient_calm username subredditName amount p w
                Hc Hl Hlt) as (w' & Hrun & Hr & _).
    { lra. }
    exists w'. split; [exact Hrun | exact Hr].
  - intros reqs r w' HR Hrun.
    pose proof (serveAll_keeps_floor reqs w HR) as H.
    rewrite Hrun in H. destruct r; exact H.
Qed.

Lemma spendCinnamon_floor_witness :
  redis aliceWorld !! REDIS_KEYS.PLAYER_RESOURCES "alice" "garden"
  = Some (VPlayer aliceResources)
  /\ 0 <= PlayerResources.cinnamon aliceResources
  /\ PlayerResources.cinnamon aliceResources < 5
  /\ (forall r w',
        PlayerResourceService.spendCinnamon "alice" "garden" 5 aliceWorld = (r, w') ->
        (exists e, r = Throw e) /\ redis w' = redis aliceWorld)
  /\ (calm aliceWorld ->
      exists w',
        PlayerResourceService.spendCinnamon "alice" "garden" 5 aliceWorld
        = (Throw ("Database connection error: "
                  +:+ ERROR_MESSAGES.INSUFFICIENT_RESOURCES), w')
        /\ redis w' = redis aliceWorld)
  /\ (forall reqs r w',
        cinnamonFloor (redis aliceWorld) ->
        serveAll reqs aliceWorld = (r, w') ->
        cinnamonFloor (redis w')).
Proof.
  split; [reflexivity |]. split; [discriminate |]. split; [reflexivity |].
  apply (spendCinnamon_floor aliceWorld "alice" "garden" 5 aliceResources).
  - reflexivity.
  - discriminate.
  - reflexivity.
Defined.

(** ** Which failures are retried *)

(** C5, as stated, fails: spending 5 cinnamon out of a balance of 2, with
    the store available throughout, is not reported at once.  The player
    record is read three times, with pauses of 1000 and 2000 ms, and the
    error comes out under the connection-error heading. *)
Lemma insufficient_resources_is_retried :
  calm aliceWorld
  /\ exists w',
       PlayerResourceService.spendCinnamon "alice" "garden" 5 aliceWorld
       = (Throw "Database connection error: Not enough cinnamon to perform this action",
          w')
       /\ pauses (trace w') = [1000; 2000]%Z
       /\ pauses (trace w') <> pauses (trace aliceWorld)
       /\ readsOf (REDIS_KEYS.PLAYER_RESOURCES "alice" "garden") (trace w') = 3%nat.
Proof.
  split; [reflexivity |].
  eexists. split; [vm_compute; reflexivity |].
  split; [reflexivity |]. split; [discriminate | reflexivity].
Qed.

(** C5 (amended): the retry wrapper of both services retries every
    failure of the operation it wraps, whatever its kind: the operation is
    run, on a failure run again after 1000 ms, on a second failure run
    again after 2000 ms, and on a third failure the last message is
    rethrown behind 'Database connection error: '.  So an
    insufficient-resources failure of [spendCinnamon] costs three reads
    and two pauses, like a store outage.  Only the argument check made
    before the wrapper is entered (amount <= 0) is reported at once. *)
Theorem every_failure_is_retried {A} (operation : Promise A) (w : World) :
  RedisGameService.withRetry operation w
  = PlayerResourceService.withRetry operation w
  /\ PlayerResourceService.withRetry operation w
     = match operation w with
       | (Ok a, w1) => (Ok a, w1)
       | (Throw e1, w1) =>
           match operation (snd (sleep 1000 w1)) with
           | (Ok a, w2) => (Ok a, w2)
           | (Throw e2, w2) =>
               match operation (snd (sleep 2000 w2)) with
               | (Ok a, w3) => (Ok a, w3)
               | (Throw e3, w3) =>
                   (Throw ("Database connection error: "
                           +:+ (if decide (e3 = "") then "Unknown error" else e3)),
                    w3)
               end
           end
       end
  /\ (forall username sub amount p,
        calm w ->
        redis w !! REDIS_KEYS.PLAYER_RESOURCES username sub = Some (VPlayer p) ->
        PlayerResources.cinnamon p < amount ->
        0 < amount ->
        exists w',
          PlayerResourceService.spendCinnamon username sub amount w
          = (Throw ("Database connection error: "
                    +:+ ERROR_MESSAGES.INSUFFICIENT_RESOURCES), w')
          /\ pauses (trace w') = pauses (trace w) ++ [1000; 2000]%Z
          /\ readsOf (REDIS_KEYS.PLAYER_RESOURCES username sub) (trace w')
             = (readsOf (REDIS_KEYS.PLAYER_RESOURCES username sub) (trace w) + 3)%nat)
  /\ (forall username sub amount,
        amount <= 0 ->
        PlayerResourceService.spendCinnamon username sub amount w
        = (Throw "Cinnamon amount must be positive", w)).
Proof.
  split; [reflexivity |]. split; [| split].
  - unfold PlayerResourceService.withRetry.
    change PlayerResourceService.maxRetries with 3%Z.
    change PlayerResourceService.retryDelay with 1000%Z.
    apply withRetry_three_attempts.
  - intros username sub amount p Hc Hl Hlt Hpos.
    destruct (spendCinnamon_insufficient_calm username sub amount p w Hc Hl Hlt Hpos)
      as (w' & Hrun & _ & Hp & Hr).
    exists w'. split; [exact Hrun | split; assumption].
  - intros username sub amount Hle.
    unfold PlayerResourceService.spendCinnamon.
    apply num_le_spec in Hle. rewrite Hle. reflexivity.
Qed.

Lemma every_failure_is_retried_witness :
  calm aliceWorld
  /\ redis aliceWorld !! REDIS_KEYS.PLAYER_RESOURCES "alice" "garden"
     = Some (VPlayer aliceResources)
  /\ PlayerResources.cinnamon aliceResources < 5
  /\ 0 < 5
  /\ exists w',
       PlayerResourceService.spendCinnamon "alice" "garden" 5 aliceWorld
       = (Throw ("Database connection error: "
                 +:+ ERROR_MESSAGES.INSUFFICIENT_RESOURCES), w')
       /\ pauses (trace w') = pauses (trace aliceWorld) ++ [1000; 2000]%Z
       /\ readsOf (REDIS_KEYS.PLAYER_RESOURCES "alice" "garden") (trace w')
          = (readsOf (REDIS_KEYS.PLAYER_RESOURCES "alice" "garden")
                     (trace aliceWorld) + 3)%nat.
Proof.
  split; [reflexivity |]. split; [reflexivity |].
  split; [reflexivity |]. split; [reflexivity |].
  exact (proj1 (proj2 (proj2
           (every_failure_is_retried
              (PlayerResourceService.getPlayerResources "alice" "garden") aliceWorld)))
           "alice" "garden" 5 aliceResources eq_refl eq_refl eq_refl eq_refl).
Defined.

(** The other kinds, evaluated: a missing record and a malformed record
    are each tried three times; a store that drops one command is tried
    again after 1000 ms and then answers. *)
Example retried_kinds :
  (exists w',
     RedisGameService.updateGameState "nowhere" GameState.noUpdates emptyWorld
     = (Throw "Database connection error: Game state not found for subreddit: nowhere",
        w')
     /\ pauses (trace w') = [1000; 2000]%Z)
  /\ (exists w',
        RedisGameService.getGameState "garden" malformedWorld
        = (Throw "Database connection error: Invalid game state data structure", w')
        /\ pauses (trace w') = [1000; 2000]%Z)
  /\ (exists w',
        RedisGameService.getGameState "garden" flakyGardenWorld
        = (Ok (Some gardenState), w')
        /\ pauses (trace w') = [1000]%Z).
Proof.
  split; [| split]; eexists; (split; [vm_compute; reflexivity | reflexivity]).
Qed.

(* ===================================================================== *)
(** * The matcher *)
(* ===================================================================== *)

(** ** What the matcher accepts is a match *)

Lemma starLoop_sound {R} (r : Regex)
    (step : chars -> option chars -> (chars -> option chars -> option R) -> option R) :
  (forall s cap k res,
     step s cap k = Some res ->
     exists s1 s2 cap', s = s1 ++ s2 /\ matches r s1 cap cap' /\ k s2 cap' = Some res) ->
  forall fuel s cap k res,
    starLoop fuel step s cap k = Some res ->
    exists s1 s2 cap',
      s = s1 ++ s2 /\ matches (RStar r) s1 cap cap' /\ k s2 cap' = Some res.
Proof.
  intros Hstep. induction fuel as [| fuel IH]; intros s cap k res H.
  - cbn [starLoop] in H. exists [], s, cap. split; [reflexivity |].
    split; [constructor | exact H].
  - cbn [starLoop] in H.
    destruct (step s cap _) as [res' |] eqn:Hs.
    + injection H as <-.
      apply Hstep in Hs as (s1 & s2 & cap1 & -> & Hm & Hk).
      destruct (length s2 <? length (s1 ++ s2))%nat; [| discriminate Hk].
      apply IH in Hk as (s3 & s4 & cap2 & -> & Hm' & Hk).
      exists (s1 ++ s3), s4, cap2. split; [apply app_assoc |].
      split; [econstructor; eassumption | exact Hk].
    + exists [], s, cap. split; [reflexivity |]. split; [constructor | exact H].
Qed.

Lemma matchRe_sound {R} (r : Regex) :
  forall s cap (k : chars -> option chars -> option R) res,
    matchRe r s cap k = Some res ->
    exists s1 s2 cap',
      s = s1 ++ s2 /\ matches r s1 cap cap' /\ k s2 cap' = Some res.
Proof.
  induction r as [c | | r1 IH1 r2 IH2 | r1 IH1 | r1 IH1 | r1 IH1];
    intros s cap k res H; cbn [matchRe] in H.
  - destruct s as [| c' s']; [discriminate H |].
    destruct (Ascii.eqb_spec c c') as [<- | Hne]; [| discriminate H].
    exists [c], s', cap. split; [reflexivity |]. split; [constructor | exact H].
  - destruct s as [| c' s']; [discriminate H |].
    destruct (isWordChar c') eqn:Hw; [| discriminate H].
    exists [c'], s', cap. split; [reflexivity |].
    split; [constructor; exact Hw | exact H].
  - apply IH1 in H as (s1 & s2 & cap1 & -> & Hm1 & H).
    apply IH2 in H as (s3 & s4 & cap2 & -> & Hm2 & H).
    exists (s1 ++ s3), s4, cap2. split; [apply app_assoc |].
    split; [econstructor; eassumption | exact H].
  - eapply starLoop_sound; [exact IH1 | exact H].
  - apply IH1 in H as (s1 & s2 & cap1 & -> & Hm1 & H).
    eapply starLoop_sound in H as (s3 & s4 & cap2 & -> & Hm2 & H); [| exact IH1].
    exists (s1 ++ s3), s4, cap2. split; [apply app_assoc |].
    split; [econstructor; eassumption | exact H].
  - apply IH1 in H as (s1 & s2 & cap1 & -> & Hm1 & H).
    exists s1, s2, (Some s1). split; [reflexivity |].
    split; [econstructor; exact Hm1 |].
    rewrite length_app in H.
    replace (length s1 + length s2 - length s2)%nat with (length s1) in H by lia.
    rewrite take_app_length in H. exact H.
Qed.

(** ** The matches of the placeholder pattern *)

Lemma matches_star_word (s : chars) cap cap' :
  matches (RStar RWord) s cap cap' -> forallb isWordChar s = true /\ cap' = cap.
Proof.
  intros H. remember (RStar RWord) as r eqn:Er.
  induction H as [ | | | r0 cap0 | r0 s1 s2 cap0 cap1 cap2 H1 _ H2 IH2 | | ];
    try discriminate Er.
  - split; reflexivity.
  - injection Er as ->. destruct (IH2 eq_refl) as [Hw ->].
    inversion H1; subst. split; [| reflexivity].
    cbn [app forallb]. rewrite Hw.
    match goal with Hc : isWordChar _ = true |- _ => rewrite Hc end. reflexivity.
Qed.

Lemma matches_plus_word (s : chars) cap cap' :
  matches (RPlus RWord) s cap cap' -> isWord s /\ cap' = cap.
Proof.
  intros H. inversion H as [ | | | | | r0 s1 s2 cap0 cap1 cap2 H1 H2 | ]; subst.
  inversion H1; subst.
  apply matches_star_word in H2 as [Hw ->].
  split; [| reflexivity]. split; [discriminate |].
  cbn [app forallb]. rewrite Hw.
  match goal with Hc : isWordChar _ = true |- _ => rewrite Hc end. reflexivity.
Qed.

Lemma matches_dotWord (s : chars) cap cap' :
  matches dotWordPattern s cap cap' ->
  exists w, isWord w /\ s = "."%char :: w /\ cap' = cap.
Proof.
  intros H. unfold dotWordPattern in H.
  inversion H as [ | | r1 r2 s1 s2 cap0 cap1 cap2 H1 H2 | | | | ]; subst.
  inversion H1; subst.
  apply matches_plus_word in H2 as [Hw ->].
  exists s2. split; [exact Hw |]. split; reflexivity.
Qed.

Lemma matches_star_dotWord (s : chars) cap cap' :
  matches (RStar dotWordPattern) s cap cap' -> dotSegments s /\ cap' = cap.
Proof.
  intros H. remember (RStar dotWordPattern) as r eqn:Er.
  induction H as [ | | | r0 cap0 | r0 s1 s2 cap0 cap1 cap2 H1 _ H2 IH2 | | ];
    try discriminate Er.
  - split; [constructor | reflexivity].
  - injection Er as ->. destruct (IH2 eq_refl) as [Hds ->].
    apply matches_dotWord in H1 as (w & Hw & -> & ->).
    split; [| reflexivity]. cbn [app]. constructor; assumption.
Qed.

Lemma matches_path (s : chars) cap cap' :
  matches pathPattern s cap cap' -> dottedPath s /\ cap' = cap.
Proof.
  intros H. unfold pathPattern in H.
  inversion H as [ | | r1 r2 s1 s2 cap0 cap1 cap2 H1 H2 | | | | ]; subst.
  apply matches_plus_word in H1 as [Hw ->].
  apply matches_star_dotWord in H2 as [Hds ->].
  split; [| reflexivity]. exists s1, s2. auto.
Qed.

Lemma placeholderPattern_unfold :
  ChronicleGenerationService.placeholderPattern
  = RSeq (RChar "{"%char) (RSeq (RChar "{"%char)
      (RSeq (RGroup pathPattern) (RSeq (RChar "}"%char) (RChar "}"%char)))).
Proof. reflexivity. Qed.

Lemma matches_placeholder (s : chars) cap cap' :
  matches ChronicleGenerationService.placeholderPattern s cap cap' ->
  exists p, dottedPath p /\ s = placeholder p /\ cap' = Some p.
Proof.
  rewrite placeholderPattern_unfold. intros H.
  inversion H as [ | | r1 r2 s1 s2 cap0 cap1 cap2 H1 H2 | | | | ]; subst.
  inversion H1; subst.
  inversion H2 as [ | | r1 r2 s3 s4 cap0 cap3 cap4 H3 H4 | | | | ]; subst.
  inversion H3; subst.
  inversion H4 as [ | | r1 r2 s5 s6 cap0 cap5 cap6 H5 H6 | | | | ]; subst.
  inversion H5 as [ | | | | | | r0 s0 cap0 cap7 H7 ]; subst.
  apply matches_path in H7 as [Hp _].
  inversion H6 as [ | | r1 r2 s7 s8 cap0 cap8 cap9 H8 H9 | | | | ]; subst.
  inversion H8; subst. inversion H9; subst.
  exists s5. split; [exact Hp |]. split; reflexivity.
Qed.

Lemma matchHere_placeholder_inv (s rest : chars) (cap : option chars) :
  matchHere ChronicleGenerationService.placeholderPattern s = Some (rest, cap) ->
  exists p, dottedPath p /\ s = placeholder p ++ rest /\ cap = Some p.
Proof.
  unfold matchHere. intros H.
  apply matchRe_sound in H as (s1 & s2 & cap' & -> & Hm & Hk).
  injection Hk as -> ->.
  apply matches_placeholder in Hm as (p & Hp & -> & ->).
  exists p. auto.
Qed.

(** ** The matcher finds the placeholder in front of it *)

Lemma closes_not_word (tail : chars) (c : ascii) (s : chars) :
  closes tail -> tail = c :: s -> isWordChar c = false.
Proof. intros H ->. exact (proj1 H). Qed.

Lemma starLoop_S {R} (fuel : nat)
    (step : chars -> option chars -> (chars -> option chars -> option R) -> option R)
    (s : chars) (cap : option chars) (k : chars -> option chars -> option R) :
  starLoop (S fuel) step s cap k
  = match step s cap (fun s' cap' =>
                        if (length s' <? length s)%nat
                        then starLoop fuel step s' cap' k
                        else None) with
    | Some res => Some res
    | None => k s cap
    end.
Proof. reflexivity. Qed.

Lemma matchRe_word_cons {R} (c : ascii) (s : chars) (cap : option chars)
    (k : chars -> option chars -> option R) :
  matchRe RWord (c :: s) cap k = if isWordChar c then k s cap else None.
Proof. reflexivity. Qed.

Lemma matchRe_dotWord_cons {R} (c : ascii) (s : chars) (cap : option chars)
    (k : chars -> option chars -> option R) :
  matchRe dotWordPattern (c :: s) cap k
  = if Ascii.eqb "."%char c then matchRe (RPlus RWord) s cap k else None.
Proof. reflexivity. Qed.

Lemma starWord_greedy {R} (w tail : chars) (cap : option chars)
    (k : chars -> option chars -> option R) (res : R) :
  forallb isWordChar w = true ->
  match tail with [] => True | c :: _ => isWordChar c = false end ->
  k tail cap = Some res ->
  forall fuel, (length (w ++ tail) <= fuel)%nat ->
    starLoop fuel (matchRe RWord) (w ++ tail) cap k = Some res.
Proof.
  intros Hw Htail Hk. induction w as [| c w IH]; intros fuel Hfuel.
  - cbn [app]. destruct fuel as [| fuel]; [exact Hk |].
    rewrite starLoop_S.
    destruct tail as [| c t]; [cbn [matchRe]; exact Hk |].
    rewrite matchRe_word_cons, Htail. exact Hk.
  - cbn [forallb] in Hw. apply andb_true_iff in Hw as [Hc Hw].
    destruct fuel as [| fuel]; [cbn [app length] in Hfuel; lia |].
    cbn [app]. rewrite starLoop_S, matchRe_word_cons, Hc.
    cbn [length]. rewrite (proj2 (Nat.ltb_lt _ _)) by lia.
    rewrite (IH Hw fuel) by (cbn [app length] in Hfuel; lia). reflexivity.
Qed.

Lemma plusWord_greedy {R} (w tail : chars) (cap : option chars)
    (k : chars -> option chars -> option R) (res : R) :
  isWord w ->
  match tail with [] => True | c :: _ => isWordChar c = false end ->
  k tail cap = Some res ->
  matchRe (RPlus RWord) (w ++ tail) cap k = Some res.
Proof.
  intros [Hne Hw] Htail Hk.
  destruct w as [| c w]; [contradiction |].
  cbn [forallb] in Hw. apply andb_true_iff in Hw as [Hc Hw].
  change (matchRe (RPlus RWord) ((c :: w) ++ tail) cap k)
    with (matchRe RWord (c :: w ++ tail) cap
            (fun s' cap' => starLoop (length s') (matchRe RWord) s' cap' k)).
  rewrite matchRe_word_cons, Hc.
  apply starWord_greedy; auto.
Qed.

Lemma dotSegments_head (ds tail : chars) :
  dotSegments ds -> closes tail ->
  match ds ++ tail with [] => True | c :: _ => isWordChar c = false end.
Proof.
  intros Hds Ht. destruct Hds as [| w ds' Hw Hds'].
  - cbn [app]. destruct tail as [| c t]; [exact I | exact (proj1 Ht)].
  - reflexivity.
Qed.

Lemma starDotWord_greedy {R} (ds tail : chars) (cap : option chars)
    (k : chars -> option chars -> option R) (res : R) :
  dotSegments ds ->
  closes tail ->
  k tail cap = Some res ->
  forall fuel, (length (ds ++ tail) <= fuel)%nat ->
    starLoop fuel (matchRe dotWordPattern) (ds ++ tail) cap k = Some res.
Proof.
  intros Hds Htail Hk. induction Hds as [| w ds Hw Hds IH]; intros fuel Hfuel.
  - cbn [app]. destruct fuel as [| fuel]; [exact Hk |].
    rewrite starLoop_S.
    destruct tail as [| c t]; [cbn [matchRe dotWordPattern]; exact Hk |].
    rewrite matchRe_dotWord_cons.
    destruct Htail as [_ Hdot].
    destruct (Ascii.eqb_spec "."%char c) as [<- | _]; [contradiction |].
    exact Hk.
  - destruct fuel as [| fuel]; [cbn [app length] in Hfuel; lia |].
    cbn [app] in *. rewrite <- app_assoc in *.
    rewrite starLoop_S, matchRe_dotWord_cons.
    change (Ascii.eqb "." ".") with true. cbv iota.
    erewrite plusWord_greedy; [reflexivity | exact Hw | |].
    + apply dotSegments_head; assumption.
    + cbn [length] in *. rewrite !length_app in *.
      rewrite (proj2 (Nat.ltb_lt _ _)) by lia.
      apply IH. lia.
Qed.

Lemma path_greedy {R} (p tail : chars) (cap : option chars)
    (k : chars -> option chars -> option R) (res : R) :
  dottedPath p ->
  closes tail ->
  k tail (Some p) = Some res ->
  matchRe (RGroup pathPattern) (p ++ tail) cap k = Some res.
Proof.
  intros (w & ds & Hw & Hds & ->) Htail Hk.
  change (matchRe (RGroup pathPattern) ((w ++ ds) ++ tail) cap k)
    with (matchRe (RPlus RWord) ((w ++ ds) ++ tail) cap
            (fun s' cap' =>
               starLoop (length s') (matchRe dotWordPattern) s' cap'
                 (fun s'' _ =>
                    k s'' (Some (take (length ((w ++ ds) ++ tail) - length s'')
                                      ((w ++ ds) ++ tail)))))).
  rewrite <- app_assoc.
  apply plusWord_greedy; [exact Hw | apply dotSegments_head; assumption |].
  apply starDotWord_greedy; [exact Hds | exact Htail | | lia].
  rewrite !length_app.
  replace (length w + (length ds + length tail) - length tail)%nat
    with (length (w ++ ds)) by (rewrite length_app; lia).
  rewrite app_assoc, take_app_length. exact Hk.
Qed.

Lemma placeholder_app (p rest : chars) :
  placeholder p ++ rest = "{"%char :: "{"%char :: p ++ "}"%char :: "}"%char :: rest.
Proof. unfold placeholder. cbn [app]. rewrite <- app_assoc. reflexivity. Qed.

Lemma matchHere_placeholder (p rest : chars) :
  dottedPath p ->
  matchHere ChronicleGenerationService.placeholderPattern (placeholder p ++ rest)
  = Some (rest, Some p).
Proof.
  intros Hp. rewrite placeholder_app, placeholderPattern_unfold.
  unfold matchHere.
  change (matchRe (RGroup pathPattern) (p ++ "}"%char :: "}"%char :: rest) None
            (fun s' cap' =>
               matchRe (RSeq (RChar "}"%char) (RChar "}"%char)) s' cap'
                       (fun rest0 cap0 => Some (rest0, cap0)))
          = Some (rest, Some p)).
  apply path_greedy; [exact Hp | split; [reflexivity | discriminate] | reflexivity].
Qed.

(** The pattern matches at the head of [s] exactly when [s] starts with
    the placeholder of a dotted path. *)
Lemma matchHere_None_iff (s : chars) :
  matchHere ChronicleGenerationService.placeholderPattern s = None <->
  ~ exists p rest, dottedPath p /\ s = placeholder p ++ rest.
Proof.
  split.
  - intros Hnone (p & rest & Hp & ->).
    rewrite (matchHere_placeholder p rest Hp) in Hnone. discriminate Hnone.
  - intros Hno.
    destruct (matchHere _ s) as [[rest cap] |] eqn:Hm; [| reflexivity].
    exfalso. apply Hno.
    apply matchHere_placeholder_inv in Hm as (p & Hp & -> & _).
    exists p, rest. auto.
Qed.

(* ===================================================================== *)
(** * Template processing *)
(* ===================================================================== *)

(** The scan has fuel to spare: any amount above the length of the input
    gives the same output. *)
Lemma replaceLoop_fuel (r : Regex) (f : chars -> option chars -> chars) :
  forall fuel1 s fuel2,
    (length s < fuel1)%nat -> (length s < fuel2)%nat ->
    replaceLoop fuel1 r f s = replaceLoop fuel2 r f s.
Proof.
  induction fuel1 as [| fuel1 IH]; intros s fuel2 H1 H2; [lia |].
  destruct fuel2 as [| fuel2]; [lia |].
  cbn [replaceLoop].
  destruct (matchHere r s) as [[rest cap] |].
  - destruct (Nat.ltb_spec (length rest) (length s)) as [Hlt | Hge].
    + rewrite (IH rest fuel2) by lia. reflexivity.
    + destruct s as [| c s']; [reflexivity |].
      cbn [length] in H1, H2. rewrite (IH s' fuel2) by lia. reflexivity.
  - destruct s as [| c s']; [reflexivity |].
    cbn [length] in H1, H2. rewrite (IH s' fuel2) by lia. reflexivity.
Qed.

Lemma placeholder_length (p : chars) : length (placeholder p) = (length p + 4)%nat.
Proof. unfold placeholder. cbn [length]. rewrite length_app. cbn [length]. lia. Qed.

Lemma String_replace_placeholder (f : chars -> option chars -> chars)
    (p rest : chars) :
  dottedPath p ->
  String_replace ChronicleGenerationService.placeholderPattern f (placeholder p ++ rest)
  = f (placeholder p) (Some p)
    ++ String_replace ChronicleGenerationService.placeholderPattern f rest.
Proof.
  intros Hp. unfold String_replace.
  set (after := replaceLoop (S (length rest)) _ f rest).
  cbn [replaceLoop].
  rewrite (matchHere_placeholder p rest Hp).
  rewrite length_app, placeholder_length.
  replace (length p + 4 + length rest - length rest)%nat with (length (placeholder p))
    by (rewrite placeholder_length; lia).
  rewrite take_app_length.
  rewrite (proj2 (Nat.ltb_lt _ _)) by lia.
  f_equal. subst after. apply replaceLoop_fuel; lia.
Qed.

Lemma String_replace_copy (f : chars -> option chars -> chars) (c : ascii) (s : chars) :
  matchHere ChronicleGenerationService.placeholderPattern (c :: s) = None ->
  String_replace ChronicleGenerationService.placeholderPattern f (c :: s)
  = c :: String_replace ChronicleGenerationService.placeholderPattern f s.
Proof.
  intros Hm. unfold String_replace.
  set (after := replaceLoop (S (length s)) _ f s).
  cbn [replaceLoop length]. rewrite Hm. reflexivity.
Qed.

Lemma string_of_app (a b : chars) : string_of (a ++ b) = string_of a +:+ string_of b.
Proof.
  unfold string_of. induction a as [| c a IH]; [reflexivity |].
  cbn [app String.string_of_list_ascii]. rewrite IH. reflexivity.
Qed.

Lemma string_of_chars_of (s : string) : string_of (chars_of s) = s.
Proof. apply String.string_of_list_ascii_of_string. Qed.

Lemma chars_of_string_of (l : chars) : chars_of (string_of l) = l.
Proof. apply String.list_ascii_of_string_of_list_ascii. Qed.

Lemma chars_of_placeholder (path rest : string) :
  chars_of ("{{" +:+ path +:+ "}}" +:+ rest)
  = placeholder (chars_of path) ++ chars_of rest.
Proof.
  rewrite placeholder_app, !chars_of_app. reflexivity.
Qed.

Lemma string_of_placeholder (path : string) :
  string_of (placeholder (chars_of path)) = "{{" +:+ path +:+ "}}".
Proof.
  unfold placeholder.
  change ("{"%char :: "{"%char :: chars_of path ++ ["}"%char; "}"%char])
    with (chars_of "{{" ++ chars_of path ++ chars_of "}}").
  rewrite !string_of_app, !string_of_chars_of. reflexivity.
Qed.

Section TemplateSpec.
Variable getProperty : JsValue -> string -> JsValue.
Variable String_ : JsValue -> string.
Variable context : JsValue.

Lemma processTemplate_placeholder (path rest : string) :
  dottedPath (chars_of path) ->
  ChronicleGenerationService.processTemplate getProperty String_
    ("{{" +:+ path +:+ "}}" +:+ rest) context
  = match ChronicleGenerationService.getNestedValue getProperty context
            (chars_of path) with
    | JUndefined => "{{" +:+ path +:+ "}}"
    | value => String_ value
    end
    +:+ ChronicleGenerationService.processTemplate getProperty String_ rest context.
Proof.
  intros Hp. unfold ChronicleGenerationService.processTemplate.
  rewrite chars_of_placeholder, String_replace_placeholder by exact Hp.
  rewrite string_of_app. f_equal.
  unfold ChronicleGenerationService.replacer.
  destruct (ChronicleGenerationService.getNestedValue getProperty context
              (chars_of path));
    try apply string_of_chars_of.
  apply string_of_placeholder.
Qed.

Lemma processTemplate_copy (c : ascii) (rest : string) :
  (~ exists path rest',
       dottedPath (chars_of path)
       /\ String c rest = "{{" +:+ path +:+ "}}" +:+ rest') ->
  ChronicleGenerationService.processTemplate getProperty String_
    (String c rest) context
  = String c (ChronicleGenerationService.processTemplate getProperty String_
                rest context).
Proof.
  intros Hno. unfold ChronicleGenerationService.processTemplate.
  change (chars_of (String c rest)) with (c :: chars_of rest).
  rewrite String_replace_copy; [reflexivity |].
  apply matchHere_None_iff. intros (p & rest' & Hp & Heq).
  apply Hno. exists (string_of p), (string_of rest').
  rewrite chars_of_string_of. split; [exact Hp |].
  apply chars_of_inj. rewrite chars_of_placeholder, !chars_of_string_of.
  exact Heq.
Qed.

End TemplateSpec.

(** *** Paths and their keys *)

Lemma wordChar_not_dot (c : ascii) : isWordChar c = true -> Ascii.eqb c "."%char = false.
Proof.
  intros H. destruct (Ascii.eqb_spec c "."%char) as [-> | _]; [| reflexivity].
  discriminate H.
Qed.

Lemma splitOn_word (w : chars) :
  forallb isWordChar w = true -> splitOn "."%char w = [w].
Proof.
  induction w as [| c w IH]; intros H; [reflexivity |].
  cbn [forallb] in H. apply andb_true_iff in H as [Hc Hw].
  cbn [splitOn]. rewrite (wordChar_not_dot c Hc), (IH Hw). reflexivity.
Qed.

Lemma splitOn_word_dot (w rest : chars) :
  forallb isWordChar w = true ->
  splitOn "."%char (w ++ "."%char :: rest) = w :: splitOn "."%char rest.
Proof.
  induction w as [| c w IH]; intros H; [reflexivity |].
  cbn [forallb] in H. apply andb_true_iff in H as [Hc Hw].
  cbn [splitOn app]. rewrite (wordChar_not_dot c Hc), (IH Hw). reflexivity.
Qed.

Lemma dotted_cons (key key' : string) (keys : list string) :
  dotted (key :: key' :: keys) = key +:+ "." +:+ dotted (key' :: keys).
Proof. reflexivity. Qed.

Lemma chars_of_dotted_cons (key key' : string) (keys : list string) :
  chars_of (dotted (key :: key' :: keys))
  = chars_of key ++ "."%char :: chars_of (dotted (key' :: keys)).
Proof. rewrite dotted_cons, !chars_of_app. reflexivity. Qed.

(** Splitting the text of a path at its dots gives back the keys. *)
Lemma splitOn_dotted (keys : list string) :
  wordKeys keys -> splitOn "."%char (chars_of (dotted keys)) = map chars_of keys.
Proof.
  intros [Hne Hw]. induction keys as [| key keys IH]; [congruence |].
  apply Forall_cons in Hw as [[_ Hkey] Hrest].
  destruct keys as [| key' keys].
  - apply splitOn_word, Hkey.
  - rewrite chars_of_dotted_cons, splitOn_word_dot by exact Hkey.
    rewrite IH by (try discriminate; exact Hrest). reflexivity.
Qed.

Lemma dotSegments_tail (keys : list string) :
  Forall (fun key => isWord (chars_of key)) keys ->
  dotSegments (flat_map (fun key => "."%char :: chars_of key) keys).
Proof.
  induction 1 as [| key keys Hkey _ IH]; [constructor |].
  cbn [flat_map]. change (("."%char :: chars_of key) ++ ?t)
    with ("."%char :: chars_of key ++ t).
  constructor; assumption.
Qed.

Lemma chars_of_dotted (key : string) (keys : list string) :
  chars_of (dotted (key :: keys))
  = chars_of key ++ flat_map (fun key => "."%char :: chars_of key) keys.
Proof.
  revert key. induction keys as [| key' keys IH]; intros key.
  - cbn [flat_map]. rewrite app_nil_r. reflexivity.
  - rewrite chars_of_dotted_cons, IH. reflexivity.
Qed.

(** The dotted paths are the texts of the lists of word keys. *)
Lemma dottedPath_keys (path : string) :
  dottedPath (chars_of path) <-> exists keys, wordKeys keys /\ path = dotted keys.
Proof.
  split.
  - intros (w & ds & Hw & Hds & E).
    assert (T : exists keys,
               Forall (fun key => isWord (chars_of key)) keys
               /\ ds = flat_map (fun key => "."%char :: chars_of key) keys).
    { clear E. induction Hds as [| w' ds' Hw' _ (keys & Hk & ->)].
      - exists []. split; [constructor | reflexivity].
      - exists (string_of w' :: keys). split.
        + constructor; [rewrite chars_of_string_of; exact Hw' | exact Hk].
        + cbn [flat_map]. rewrite chars_of_string_of. reflexivity. }
    destruct T as (keys & Hk & ->).
    exists (string_of w :: keys). split.
    + split; [discriminate |].
      constructor; [rewrite chars_of_string_of; exact Hw | exact Hk].
    + apply chars_of_inj. rewrite chars_of_dotted, chars_of_string_of. exact E.
  - intros (keys & [Hne Hw] & ->).
    destruct keys as [| key keys]; [congruence |].
    apply Forall_cons in Hw as [Hkey Hrest].
    exists (chars_of key), (flat_map (fun key => "."%char :: chars_of key) keys).
    split; [exact Hkey |]. split; [apply dotSegments_tail, Hrest |].
    apply chars_of_dotted.
Qed.

(** *** What a path resolves to *)

Section PathResolution.
Variable getProperty : JsValue -> string -> JsValue.

(** Every list of keys leads to one value, from every start. *)
Lemma resolvesTo_total (keys : list string) :
  forall v, exists value, resolvesTo getProperty v keys value.
Proof.
  induction keys as [| key keys IH]; intros v.
  - exists v. constructor.
  - destruct (IH JUndefined) as [u Hu].
    destruct (IH (getProperty v key)) as [value H].
    destruct v;
      try (exists u; constructor; exact Hu);
      exists value; apply resolves_member; try discriminate; exact H.
Qed.

Lemma resolvesTo_functional (v : JsValue) (keys : list string) (a b : JsValue) :
  resolvesTo getProperty v keys a -> resolvesTo getProperty v keys b -> a = b.
Proof.
  intros Ha. revert b.
  induction Ha as [v | key keys a _ IH | key keys a _ IH | v key keys a Hu Hn _ IH];
    intros b Hb; inversion Hb; subst; try congruence; auto.
Qed.

(** From [undefined] every path leads to [undefined]. *)
Lemma resolvesTo_from_undefined (keys : list string) (value : JsValue) :
  resolvesTo getProperty JUndefined keys value -> value = JUndefined.
Proof.
  induction keys as [| key keys IH]; intros H; inversion H; subst;
    try reflexivity; try congruence; auto.
Qed.

(** [getNestedValue] follows the keys of the path, one after the other. *)
Lemma getNestedValue_keys (v : JsValue) (keys : list string) (value : JsValue) :
  resolvesTo getProperty v keys value ->
  fold_left (fun current key =>
               ChronicleGenerationService.optionalMember getProperty current
                 (string_of key))
            (map chars_of keys) v
  = value.
Proof.
  induction 1 as [v | key keys a _ IH | key keys a _ IH | v key keys a Hu Hn _ IH].
  - reflexivity.
  - exact IH.
  - exact IH.
  - cbn [map fold_left]. rewrite string_of_chars_of.
    destruct v; try congruence; exact IH.
Qed.

Lemma getNestedValue_resolves (context : JsValue) (keys : list string) (value : JsValue) :
  wordKeys keys ->
  resolvesTo getProperty context keys value ->
  ChronicleGenerationService.getNestedValue getProperty context (chars_of (dotted keys))
  = value.
Proof.
  intros Hk Hr. unfold ChronicleGenerationService.getNestedValue.
  rewrite splitOn_dotted by exact Hk. apply getNestedValue_keys, Hr.
Qed.

End PathResolution.

Lemma wordKeys_gameState_treeLevel : wordKeys ["gameState"; "treeLevel"].
Proof.
  split; [discriminate |].
  repeat constructor; discriminate.
Qed.

Lemma levelThreeContext_treeLevel :
  resolvesTo plainGetProperty levelThreeContext ["gameState"; "treeLevel"] (JNumber 3).
Proof.
  apply resolves_member; [discriminate | discriminate |].
  apply resolves_member; [discriminate | discriminate |].
  apply resolves_here.
Qed.

(** C9: for every template, context and runtime, [processTemplate]
    replaces a placeholder of a dotted path (word keys joined by dots) by
    the string form of the value its keys lead to in the context, each
    key looked up in the value the keys before it led to, and by the
    placeholder itself when they lead to nothing ([undefined], which is
    also where every key leads from [undefined] and [null]); then it goes
    on behind the placeholder.  Every list of keys leads to exactly one
    value.  Text that does not start a placeholder is copied.  With the
    context {gameState: {treeLevel: 3}}, "Level {{gameState.treeLevel}}"
    becomes "Level 3" and "{{missing.path}}" stays as it is. *)
Theorem processTemplate_substitutes
    (getProperty : JsValue -> string -> JsValue) (String_ : JsValue -> string)
    (context : JsValue) :
  (forall keys rest value,
     wordKeys keys ->
     resolvesTo getProperty context keys value ->
     value <> JUndefined ->
     ChronicleGenerationService.processTemplate getProperty String_
       ("{{" +:+ dotted keys +:+ "}}" +:+ rest) context
     = String_ value
       +:+ ChronicleGenerationService.processTemplate getProperty String_ rest context)
  /\ (forall keys rest,
        wordKeys keys ->
        resolvesTo getProperty context keys JUndefined ->
        ChronicleGenerationService.processTemplate getProperty String_
          ("{{" +:+ dotted keys +:+ "}}" +:+ rest) context
        = ("{{" +:+ dotted keys +:+ "}}")
          +:+ ChronicleGenerationService.processTemplate getProperty String_ rest context)
  /\ (forall keys,
        (exists value, resolvesTo getProperty context keys value)
        /\ forall a b,
             resolvesTo getProperty context keys a ->
             resolvesTo getProperty context keys b -> a = b)
  /\ (forall path,
        dottedPath (chars_of path) <-> exists keys, wordKeys keys /\ path = dotted keys)
  /\ (forall c rest,
        (~ exists path rest',
             dottedPath (chars_of path)
             /\ String c rest = "{{" +:+ path +:+ "}}" +:+ rest') ->
        ChronicleGenerationService.processTemplate getProperty String_
          (String c rest) context
        = String c (ChronicleGenerationService.processTemplate getProperty String_
                      rest context))
  /\ ChronicleGenerationService.processTemplate getProperty String_ "" context = ""
  /\ ChronicleGenerationService.processTemplate plainGetProperty plainString
       "Level {{gameState.treeLevel}}" levelThreeContext = "Level 3"
  /\ ChronicleGenerationService.processTemplate plainGetProperty plainString
       "{{missing.path}}" levelThreeContext = "{{missing.path}}".
Proof.
  split; [| split; [| split; [| split; [| split; [| split; [| split]]]]]].
  - intros keys rest value Hk Hr Hv.
    rewrite processTemplate_placeholder
      by (apply dottedPath_keys; exists keys; split; [exact Hk | reflexivity]).
    rewrite (getNestedValue_resolves getProperty context keys value Hk Hr).
    destruct value; congruence.
  - intros keys rest Hk Hr.
    rewrite processTemplate_placeholder
      by (apply dottedPath_keys; exists keys; split; [exact Hk | reflexivity]).
    rewrite (getNestedValue_resolves getProperty context keys JUndefined Hk Hr).
    reflexivity.
  - intros keys. split.
    + apply resolvesTo_total.
    + apply resolvesTo_functional.
  - apply dottedPath_keys.
  - apply processTemplate_copy.
  - reflexivity.
  - reflexivity.
  - reflexivity.
Qed.

Lemma processTemplate_substitutes_witness :
  wordKeys ["gameState"; "treeLevel"]
  /\ resolvesTo plainGetProperty levelThreeContext ["gameState"; "treeLevel"] (JNumber 3)
  /\ JNumber 3 <> JUndefined
  /\ ChronicleGenerationService.processTemplate plainGetProperty plainString
       ("{{" +:+ dotted ["gameState"; "treeLevel"] +:+ "}}" +:+ " reached")
       levelThreeContext
     = plainString (JNumber 3)
       +:+ ChronicleGenerationService.processTemplate plainGetProperty plainString
             " reached" levelThreeContext.
Proof.
  split; [exact wordKeys_gameState_treeLevel |].
  split; [exact levelThreeContext_treeLevel |].
  split; [discriminate |].
  exact (proj1 (processTemplate_substitutes plainGetProperty plainString
                  levelThreeContext)
               ["gameState"; "treeLevel"] " reached" (JNumber 3)
               wordKeys_gameState_treeLevel levelThreeContext_treeLevel
               ltac:(discriminate)).
Defined.

(** Templates of the service use helper calls such as
    "{{getTreeEmoji gameState.treeLevel}}": the blank keeps the pattern
    from matching, so they come out verbatim; a brace in front of a
    placeholder is copied and the placeholder behind it replaced. *)
Example processTemplate_more :
  ChronicleGenerationService.processTemplate plainGetProperty plainString
    "{{getTreeEmoji gameState.treeLevel}} {{{gameState.treeLevel}}} {{a.}}"
    levelThreeContext
  = "{{getTreeEmoji gameState.treeLevel}} {3} {{a.}}"
  /\ ChronicleGenerationService.getNestedValue plainGetProperty levelThreeContext
       (chars_of "gameState.treeLevel") = JNumber 3
  /\ ChronicleGenerationService.getNestedValue plainGetProperty levelThreeContext
       (chars_of "missing.path") = JUndefined.
Proof. repeat split. Qed.

(* ===================================================================== *)
(** * The player service while the store is available *)
(* ===================================================================== *)

Lemma player_key_not_index_key (username sub sub' : string) :
  REDIS_KEYS.PLAYER_RESOURCES username sub
  <> PlayerResourceService.playerIndexKey sub'.
Proof.
  unfold REDIS_KEYS.PLAYER_RESOURCES, PlayerResourceService.playerIndexKey.
  intros H.
  change ("cinnarito:player:" +:+ username +:+ ":" +:+ sub +:+ ":resources")
    with ("cinnarito:" +:+ "player:" +:+ username +:+ ":" +:+ sub +:+ ":resources") in H.
  change ("cinnarito:subreddit:" +:+ sub' +:+ ":players")
    with ("cinnarito:" +:+ "subreddit:" +:+ sub' +:+ ":players") in H.
  apply string_app_inj_l in H. discriminate H.
Qed.

Lemma validateResourceLimits_calm (r : PlayerResources.t) (w : World) :
  withinLimits r ->
  PlayerResourceService.validateResourceLimits r w = (Ok tt, w).
Proof.
  intros (H1 & H2 & H3 & H4 & H5).
  unfold PlayerResourceService.validateResourceLimits.
  rewrite (proj2 (num_lt_false _ _) H1), (proj2 (num_gt_false _ _) H2),
          (proj2 (num_lt_false _ _) H3), (proj2 (num_lt_false _ _) H4),
          (proj2 (num_lt_false _ _) H5).
  reflexivity.
Qed.

Lemma updatePlayerIndex_calm (username sub : string) (names : list Item) (w : World) :
  calm w ->
  indexIs sub names (redis w) ->
  exists w',
    PlayerResourceService.updatePlayerIndex username sub w = (Ok tt, w')
    /\ calm w' /\ clock w' = clock w
    /\ pauses (trace w') = pauses (trace w)
    /\ (forall key, key <> PlayerResourceService.playerIndexKey sub ->
                    redis w' !! key = redis w !! key)
    /\ indexIs sub (indexWith username names) (redis w').
Proof.
  intros Hc Hidx. unfold PlayerResourceService.updatePlayerIndex. cbv zeta.
  erewrite bind_Ok by (apply redis_get_calm; exact Hc).
  set (w1 := record (EvGet (PlayerResourceService.playerIndexKey sub)) w).
  assert (Hplayers :
    (match redis w !! PlayerResourceService.playerIndexKey sub with
     | None => mret []
     | Some (VList l) => mret l
     | Some _ => throw "players.includes is not a function"
     end : Promise (list Item)) w1 = (Ok names, w1)).
  { destruct Hidx as [-> | [-> ->]]; reflexivity. }
  erewrite bind_Ok by exact Hplayers.
  unfold indexWith.
  destruct (PlayerResourceService.includes username names) eqn:Hin; cbn [negb].
  - exists w1. split; [reflexivity |]. split; [exact Hc |]. split; [reflexivity |].
    split; [subst w1; cbn [trace record]; rewrite pauses_app, app_nil_r; reflexivity |].
    split; [intros key _; reflexivity |].
    destruct Hidx as [Hl | [Hl ->]].
    + left. exact Hl.
    + discriminate Hin.
  - rewrite redis_set_calm by exact Hc.
    eexists. split; [reflexivity |]. split; [exact Hc |]. split; [reflexivity |].
    split; [subst w1; cbn [trace record stored];
            rewrite !pauses_app, !app_nil_r; reflexivity |].
    split.
    + intros key Hne. cbn [redis stored record]. subst w1. cbn [redis record].
      apply lookup_insert_ne. apply not_eq_sym, Hne.
    + left. cbn [redis stored]. apply lookup_insert_eq.
Qed.

Lemma savePlayerResources_calm (r : PlayerResources.t) (names : list Item) (w : World) :
  calm w ->
  indexIs (PlayerResources.subredditName r) names (redis w) ->
  let r' := PlayerResources.set_lastActive (clock w) r in
  exists w',
    PlayerResourceService.savePlayerResources r w = (Ok r', w')
    /\ calm w' /\ clock w' = clock w
    /\ pauses (trace w') = pauses (trace w)
    /\ redis w' !! REDIS_KEYS.PLAYER_RESOURCES (PlayerResources.username r)
                                                (PlayerResources.subredditName r)
       = Some (VPlayer r')
    /\ (forall key,
          key <> PlayerResourceService.playerIndexKey (PlayerResources.subredditName r) ->
          key <> REDIS_KEYS.PLAYER_RESOURCES (PlayerResources.username r)
                                             (PlayerResources.subredditName r) ->
          redis w' !! key = redis w !! key)
    /\ indexIs (PlayerResources.subredditName r)
               (indexWith (PlayerResources.username r) names) (redis w').
Proof.
  intros Hc Hidx r'.
  set (key := REDIS_KEYS.PLAYER_RESOURCES (PlayerResources.username r)
                                          (PlayerResources.subredditName r)).
  set (w1 := stored key (VPlayer r') w).
  assert (Hidx1 : indexIs (PlayerResources.subredditName r) names (redis w1)).
  { unfold indexIs. subst w1. cbn [redis stored].
    rewrite lookup_insert_ne by apply player_key_not_index_key. exact Hidx. }
  destruct (updatePlayerIndex_calm (PlayerResources.username r)
              (PlayerResources.subredditName r) names w1 Hc Hidx1)
    as (w2 & Hrun & Hc2 & Hk2 & Hp2 & Hfr & Hidx2).
  exists w2. split.
  - unfold PlayerResourceService.savePlayerResources.
    apply player_withRetry_Ok. cbv zeta.
    erewrite bind_Ok by reflexivity.
    erewrite bind_Ok by (apply redis_set_calm; exact Hc).
    fold key. fold r'. fold w1.
    change (PlayerResources.username (PlayerResources.set_lastActive (clock w) r))
      with (PlayerResources.username r).
    change (PlayerResources.subredditName (PlayerResources.set_lastActive (clock w) r))
      with (PlayerResources.subredditName r).
    erewrite bind_Ok by exact Hrun. reflexivity.
  - split; [exact Hc2 |]. split; [rewrite Hk2; reflexivity |].
    split; [rewrite Hp2; subst w1; cbn [trace stored];
            rewrite pauses_app, app_nil_r; reflexivity |].
    split; [| split].
    + rewrite Hfr by apply player_key_not_index_key.
      subst w1. cbn [redis stored]. apply lookup_insert_eq.
    + intros k Hk1 Hk2'. rewrite Hfr by exact Hk1.
      subst w1. cbn [redis stored]. apply lookup_insert_ne, not_eq_sym, Hk2'.
    + exact Hidx2.
Qed.

(** What [updatePlayerResources] makes of the record it read, when the
    merged record passes the limits. *)
Lemma updatePlayerResources_calm (username sub : string)
    (updates : PlayerResources.partial) (p : PlayerResources.t)
    (names : list Item) (w : World) :
  playerIs username sub p names w ->
  withinLimits (PlayerResources.spread p updates) ->
  let p' := PlayerResources.set_lastActive (clock w) (PlayerResources.spread p updates) in
  exists w',
    PlayerResourceService.updatePlayerResources username sub updates w = (Ok p', w')
    /\ clock w' = clock w
    /\ pauses (trace w') = pauses (trace w)
    /\ playerIs username sub p' (indexWith username names) w'
    /\ (forall key,
          key <> PlayerResourceService.playerIndexKey sub ->
          key <> REDIS_KEYS.PLAYER_RESOURCES username sub ->
          redis w' !! key = redis w !! key).
Proof.
  intros (Hc & Hl & Hu & Hs & Hidx) Hlim p'.
  set (w1 := record (EvGet (REDIS_KEYS.PLAYER_RESOURCES username sub)) w).
  set (merged := PlayerResources.set_lastActive (clock w)
                   (PlayerResources.spread p updates)).
  assert (Hnames : PlayerResources.username merged = username
                   /\ PlayerResources.subredditName merged = sub).
  { subst merged. cbn. auto. }
  destruct Hnames as [Hmu Hms].
  destruct (savePlayerResources_calm merged names w1 Hc) as
    (w2 & Hrun & Hc2 & Hk2 & Hp2 & Hl2 & Hfr & Hidx2).
  { rewrite Hms. exact Hidx. }
  rewrite Hmu, Hms in *.
  exists w2. split; [| split; [| split; [| split]]].
  - unfold PlayerResourceService.updatePlayerResources.
    apply player_withRetry_Ok.
    erewrite bind_Ok by (apply getPlayerResources_found; eassumption).
    cbv beta iota. erewrite bind_Ok by reflexivity. cbv zeta.
    fold w1. change (clock w1) with (clock w). fold merged.
    erewrite bind_Ok by (apply validateResourceLimits_calm; exact Hlim).
    erewrite bind_Ok by exact Hrun. reflexivity.
  - exact Hk2.
  - rewrite Hp2. subst w1. cbn [trace record].
    rewrite pauses_app, app_nil_r. reflexivity.
  - split; [exact Hc2 |]. split; [exact Hl2 |].
    split; [exact Hmu |]. split; [exact Hms | exact Hidx2].
  - intros k H1 H2. rewrite Hfr by assumption. reflexivity.
Qed.

(* ===================================================================== *)
(** * What every request to the player service keeps *)
(* ===================================================================== *)

Lemma validateResourceLimits_within (r : PlayerResources.t) (P : World -> Prop) :
  triple P (PlayerResourceService.validateResourceLimits r)
         (fun _ w => P w /\ withinLimits r)
         (fun _ => P).
Proof.
  unfold PlayerResourceService.validateResourceLimits, withinLimits.
  destruct (num_lt (PlayerResources.cinnamon r) 0) eqn:H0;
    [apply triple_throw; auto |].
  destruct (num_gt (PlayerResources.cinnamon r) LIMITS.MAX_CINNAMON) eqn:H1;
    [apply triple_throw; auto |].
  destruct (num_lt (PlayerResources.seeds r) 0) eqn:H2; [apply triple_throw; auto |].
  destruct (num_lt (PlayerResources.energy r) 0) eqn:H3; [apply triple_throw; auto |].
  destruct (num_lt (PlayerResources.totalContributions r) 0) eqn:H4;
    [apply triple_throw; auto |].
  apply num_lt_false in H0, H2, H3, H4. apply num_gt_false in H1.
  apply triple_ret. auto 10.
Qed.

Section PlayerStoreInvariant.
Variable Φ : gmap string Stored -> Prop.
Hypothesis Φ_register : registerClosed Φ.
Hypothesis Φ_player : playerWriteClosed Φ.

Lemma updatePlayerIndex_keeps (username sub : string) :
  triple (onStore Φ) (PlayerResourceService.updatePlayerIndex username sub)
         (fun _ => onStore Φ) (fun _ => onStore Φ).
Proof.
  unfold PlayerResourceService.updatePlayerIndex. cbv zeta.
  set (key := PlayerResourceService.playerIndexKey sub).
  eapply triple_bind; [apply triple_redis_get |].
  intros data.
  eapply triple_bind with
    (Q1 := fun players => onStore (fun R =>
             Φ R /\ (R !! key = Some (VList players)
                     \/ (R !! key = None /\ players = [])))).
  { destruct data as [[st | p | l] |].
    - apply triple_throw. intros w [H _]. exact H.
    - apply triple_throw. intros w [H _]. exact H.
    - apply triple_ret. intros w [H1 H2]. split; [exact H1 | left; symmetry; exact H2].
    - apply triple_ret. intros w [H1 H2].
      split; [exact H1 | right; split; [symmetry; exact H2 | reflexivity]]. }
  intros players.
  destruct (PlayerResourceService.includes username players) eqn:Hin; cbn [negb].
  - apply triple_ret. intros w [H _]. exact H.
  - eapply triple_conseq; [apply triple_redis_set | intros w H; exact H | |].
    + intros [] w (R & [HR Hl] & Hw). unfold onStore. rewrite Hw.
      apply Φ_register; assumption.
    + intros e w [H _]. exact H.
Qed.

Lemma savePlayerResources_keeps (r : PlayerResources.t) :
  withinLimits r ->
  triple (onStore Φ) (PlayerResourceService.savePlayerResources r)
         (fun _ => onStore Φ) (fun _ => onStore Φ).
Proof.
  intros Hr. unfold PlayerResourceService.savePlayerResources.
  apply triple_player_withRetry; [apply onStore_sleepProof |].
  cbv zeta. eapply triple_bind; [apply triple_Date_now |].
  intros now.
  eapply triple_bind with (Q1 := fun _ => onStore Φ).
  { eapply triple_conseq;
      [apply triple_redis_set | intros w H; exact H | | intros e w H; exact H].
    intros [] w (R & HR & Hw). unfold onStore. rewrite Hw.
    apply Φ_player; [exact Hr | exact HR]. }
  intros [].
  eapply triple_bind; [apply updatePlayerIndex_keeps |].
  intros []. apply triple_ret. auto.
Qed.

Lemma updatePlayerResources_keeps (username sub : string)
    (updates : PlayerResources.partial) :
  triple (onStore Φ)
         (PlayerResourceService.updatePlayerResources username sub updates)
         (fun _ => onStore Φ) (fun _ => onStore Φ).
Proof.
  unfold PlayerResourceService.updatePlayerResources.
  apply triple_player_withRetry; [apply onStore_sleepProof |].
  eapply triple_bind; [apply getPlayerResources_keeps |].
  intros [cur |]; [| apply triple_throw; auto].
  eapply triple_bind; [apply triple_Date_now |].
  intros now. cbv zeta.
  eapply triple_bind; [apply validateResourceLimits_within |].
  intros [].
  match goal with
  | |- context [PlayerResourceService.savePlayerResources ?r] => set (updated := r)
  end.
  eapply triple_pure with (φ := withinLimits updated).
  { intros w [_ H]. exact H. }
  intros Hlim.
  eapply triple_weaken with (P' := onStore Φ); [intros w [H _]; exact H |].
  eapply triple_bind; [apply savePlayerResources_keeps, Hlim |].
  intros saved. apply triple_ret. auto.
Qed.

Lemma earnCinnamon_keeps (username sub : string) (amount : Q) :
  triple (onStore Φ) (PlayerResourceService.earnCinnamon username sub amount)
         (fun _ => onStore Φ) (fun _ => onStore Φ).
Proof.
  unfold PlayerResourceService.earnCinnamon.
  destruct (num_le amount 0); [apply triple_throw; auto |].
  apply triple_player_withRetry; [apply onStore_sleepProof |].
  eapply triple_bind; [apply getPlayerResources_keeps |].
  intros [cur |]; [| apply triple_throw; auto].
  cbv zeta. apply updatePlayerResources_keeps.
Qed.

Lemma spendCinnamon_keeps (username sub : string) (amount : Q) :
  triple (onStore Φ) (PlayerResourceService.spendCinnamon username sub amount)
         (fun _ => onStore Φ) (fun _ => onStore Φ).
Proof.
  unfold PlayerResourceService.spendCinnamon.
  destruct (num_le amount 0); [apply triple_throw; auto |].
  apply triple_player_withRetry; [apply onStore_sleepProof |].
  eapply triple_bind; [apply getPlayerResources_keeps |].
  intros [cur |]; [| apply triple_throw; auto].
  destruct (num_lt (PlayerResources.cinnamon cur) amount);
    [apply triple_throw; auto |].
  apply updatePlayerResources_keeps.
Qed.

Lemma initializePlayerResources_keeps (username sub : string) :
  triple (onStore Φ) (PlayerResourceService.initializePlayerResources username sub)
         (fun _ => onStore Φ) (fun _ => onStore Φ).
Proof.
  unfold PlayerResourceService.initializePlayerResources.
  eapply triple_catch with (E1 := fun _ => onStore Φ).
  - eapply triple_bind; [apply getPlayerResources_keeps |].
    intros [cur |]; [apply triple_ret; auto |].
    eapply triple_bind; [apply triple_Date_now |].
    intros now. cbv zeta.
    eapply triple_bind.
    + apply savePlayerResources_keeps.
      unfold withinLimits. cbn. repeat split; discriminate.
    + intros saved. apply triple_ret. auto.
  - intros e. apply triple_throw. auto.
Qed.

Lemma processActionTransaction_keeps (username sub actionType : string) :
  triple (onStore Φ)
         (PlayerResourceService.processActionTransaction username sub actionType)
         (fun _ => onStore Φ) (fun _ => onStore Φ).
Proof.
  unfold PlayerResourceService.processActionTransaction.
  apply triple_player_withRetry; [apply onStore_sleepProof |].
  eapply triple_bind; [apply getActionCost_keeps |].
  intros cost. destruct (Qeq_bool cost 0).
  - eapply triple_bind; [apply updatePlayerResources_keeps |].
    intros r. apply triple_ret. auto.
  - eapply triple_bind; [apply spendCinnamon_keeps |].
    intros r. apply triple_ret. auto.
Qed.

Lemma serve_keeps (req : PlayerRequest) :
  triple (onStore Φ) (serve req) (fun _ => onStore Φ) (fun _ => onStore Φ).
Proof.
  destruct req; cbn [serve]; apply forget_keeps.
  - apply initializePlayerResources_keeps.
  - apply updatePlayerResources_keeps.
  - apply earnCinnamon_keeps.
  - apply spendCinnamon_keeps.
  - apply processActionTransaction_keeps.
  - apply earnCinnamon_keeps.
  - apply earnCinnamon_keeps.
Qed.

Lemma serveAll_keeps (reqs : list PlayerRequest) :
  triple (onStore Φ) (serveAll reqs) (fun _ => onStore Φ) (fun _ => onStore Φ).
Proof.
  induction reqs as [| req rest IH]; cbn [serveAll].
  - apply triple_ret. auto.
  - eapply triple_bind with (Q1 := fun _ => onStore Φ).
    + eapply triple_catch; [apply serve_keeps |].
      intros e. apply triple_ret. auto.
    + intros []. exact IH.
Qed.

End PlayerStoreInvariant.

Lemma triple_run {A} (m : Promise A) (I : World -> Prop) (w w' : World)
    (r : Outcome A) :
  triple I m (fun _ => I) (fun _ => I) -> I w -> m w = (r, w') -> I w'.
Proof.
  intros H Hw Hrun. specialize (H w Hw). rewrite Hrun in H. destruct r; exact H.
Qed.

Lemma limits_registerClosed : registerClosed everyPlayerWithinLimits.
Proof.
  intros R key l u HR _ _ k p Hl.
  destruct (decide (key = k)) as [-> | Hne].
  - rewrite lookup_insert_eq in Hl. discriminate Hl.
  - rewrite lookup_insert_ne in Hl by exact Hne. apply (HR _ _ Hl).
Qed.

Lemma limits_playerWriteClosed : playerWriteClosed everyPlayerWithinLimits.
Proof.
  intros R key p Hp HR k p' Hl.
  destruct (decide (key = k)) as [-> | Hne].
  - rewrite lookup_insert_eq in Hl. injection Hl as <-. exact Hp.
  - rewrite lookup_insert_ne in Hl by exact Hne. apply (HR _ _ Hl).
Qed.

(** X1: whatever the availability of the store, no series of requests to
    the player service (initialise, update, earn, spend, transaction, daily
    bonus, upvotes) whose amounts, counts and update fields are finite
    numbers, failed or not, stores a record outside the limits of
    [validateResourceLimits]: cinnamon stays within 0 and 10000, and seeds,
    energy and total contributions stay non-negative.  The numeric
    arguments of a request are rationals, so [NaN] is not among them: the
    source lets a [NaN] amount pass the guard [amount <= 0] and every
    comparison of [validateResourceLimits], and nothing is stated here
    about such a request. *)
Theorem player_records_stay_within_limits
    (reqs : list PlayerRequest) (w w' : World) (r : Outcome unit) :
  everyPlayerWithinLimits (redis w) ->
  serveAll reqs w = (r, w') ->
  everyPlayerWithinLimits (redis w').
Proof.
  intros HR Hrun.
  apply (triple_run (serveAll reqs) (onStore everyPlayerWithinLimits) w w' r);
    [| exact HR | exact Hrun].
  apply serveAll_keeps; [apply limits_registerClosed | apply limits_playerWriteClosed].
Qed.

Lemma includes_false_not_in (username : string) (l : list Item) :
  PlayerResourceService.includes username l = false -> ~ In username (namesOf l).
Proof.
  induction l as [| [a | s] l IH]; cbn [PlayerResourceService.includes existsb namesOf].
  - intros _ [].
  - cbn [orb]. exact IH.
  - intros H. apply orb_false_elim in H as [H1 H2].
    apply bool_decide_eq_false in H1.
    intros [-> | Hin]; [apply H1; reflexivity | apply (IH H2 Hin)].
Qed.

Lemma namesOf_app (l1 l2 : list Item) : namesOf (l1 ++ l2) = namesOf l1 ++ namesOf l2.
Proof.
  induction l1 as [| [a | s] l1 IH]; cbn [app namesOf]; [reflexivity | exact IH |].
  rewrite IH. reflexivity.
Qed.

Lemma distinct_registerClosed : registerClosed indexesDistinct.
Proof.
  intros R key l u HR Hl Hin k l' Hl'.
  destruct (decide (key = k)) as [-> | Hne].
  - rewrite lookup_insert_eq in Hl'. injection Hl' as <-.
    rewrite namesOf_app. cbn [namesOf]. apply NoDup_app. split; [| split].
    + destruct Hl as [Hl | [_ ->]]; [apply (HR _ _ Hl) | constructor].
    + intros x Hx Hx'. apply list_elem_of_singleton in Hx'. subst x.
      apply (includes_false_not_in u l Hin). apply list_elem_of_In. exact Hx.
    + apply NoDup_singleton.
  - rewrite lookup_insert_ne in Hl' by exact Hne. apply (HR _ _ Hl').
Qed.

Lemma distinct_playerWriteClosed : playerWriteClosed indexesDistinct.
Proof.
  intros R key p _ HR k l Hl.
  destruct (decide (key = k)) as [-> | Hne].
  - rewrite lookup_insert_eq in Hl. discriminate Hl.
  - rewrite lookup_insert_ne in Hl by exact Hne. apply (HR _ _ Hl).
Qed.

(** X2: whatever the availability of the store, no series of requests to
    the player service makes a player index list the same user name twice:
    [updatePlayerIndex] appends a name only when [includes] does not find
    it. *)
Theorem player_index_never_lists_a_name_twice
    (reqs : list PlayerRequest) (w w' : World) (r : Outcome unit) :
  indexesDistinct (redis w) ->
  serveAll reqs w = (r, w') ->
  indexesDistinct (redis w').
Proof.
  intros HR Hrun.
  apply (triple_run (serveAll reqs) (onStore indexesDistinct) w w' r);
    [| exact HR | exact Hrun].
  apply serveAll_keeps; [apply distinct_registerClosed | apply distinct_playerWriteClosed].
Qed.

(* ===================================================================== *)
(** * Earning and spending while the store is available *)
(* ===================================================================== *)

Lemma playerIs_record (username sub : string) (p : PlayerResources.t)
    (names : list Item) (e : Event) (w : World) :
  playerIs username sub p names w -> playerIs username sub p names (record e w).
Proof. intros H. exact H. Qed.

Lemma set_lastActive_spread (username sub : string) (p : PlayerResources.t)
    (updates : PlayerResources.partial) (now : Z) :
  PlayerResources.username p = username ->
  PlayerResources.subredditName p = sub ->
  PlayerResources.set_lastActive now (PlayerResources.spread p updates)
  = PlayerResources.mk username sub
      (default (PlayerResources.cinnamon p) (PlayerResources.p_cinnamon updates))
      (default (PlayerResources.seeds p) (PlayerResources.p_seeds updates))
      (default (PlayerResources.energy p) (PlayerResources.p_energy updates))
      (default (PlayerResources.totalContributions p)
               (PlayerResources.p_totalContributions updates))
      now.
Proof. intros <- <-. reflexivity. Qed.

Lemma spendCinnamon_calm
    (username subredditName : string) (amount : Q) (p : PlayerResources.t)
    (names : list Item) (w : World) :
  playerIs username subredditName p names w ->
  withinLimits p ->
  0 < amount ->
  amount <= PlayerResources.cinnamon p ->
  exists w',
    PlayerResourceService.spendCinnamon username subredditName amount w
    = (Ok (PlayerResources.mk username subredditName
             (PlayerResources.cinnamon p - amount)
             (PlayerResources.seeds p) (PlayerResources.energy p)
             (PlayerResources.totalContributions p + amount)
             (clock w)), w')
    /\ redis w' !! REDIS_KEYS.PLAYER_RESOURCES username subredditName
       = Some (VPlayer (PlayerResources.mk username subredditName
                          (PlayerResources.cinnamon p - amount)
                          (PlayerResources.seeds p) (PlayerResources.energy p)
                          (PlayerResources.totalContributions p + amount)
                          (clock w)))
    /\ pauses (trace w') = pauses (trace w)
    /\ (forall key,
          key <> PlayerResourceService.playerIndexKey subredditName ->
          key <> REDIS_KEYS.PLAYER_RESOURCES username subredditName ->
          redis w' !! key = redis w !! key).
Proof.
  intros Hp Hlim Hpos Hle.
  pose proof Hp as (Hc & Hl & Hu & Hs & Hidx).
  destruct Hlim as (L1 & L2 & L3 & L4 & L5).
  set (key := REDIS_KEYS.PLAYER_RESOURCES username subredditName).
  set (updates := PlayerResources.mkPartial
                    (Some (PlayerResources.cinnamon p - amount)) None None
                    (Some (PlayerResources.totalContributions p + amount)) None).
  destruct (updatePlayerResources_calm username subredditName updates p names
              (record (EvGet key) w))
    as (w' & Hrun & Hk & Hpa & Hp' & Hfr).
  { apply playerIs_record, Hp. }
  { unfold withinLimits. cbn. repeat split; lra. }
  exists w'.
  rewrite (set_lastActive_spread username subredditName) in Hrun, Hp' by assumption.
  cbn [default PlayerResources.p_cinnamon PlayerResources.p_seeds
       PlayerResources.p_energy PlayerResources.p_totalContributions updates
       clock record] in Hrun, Hp'.
  split; [| split; [| split]].
  - unfold PlayerResourceService.spendCinnamon.
    rewrite (proj2 (num_le_false _ _) Hpos).
    apply player_withRetry_Ok.
    erewrite bind_Ok by (apply getPlayerResources_found; eassumption).
    cbv beta iota. rewrite (proj2 (num_lt_false _ _) Hle). exact Hrun.
  - destruct Hp' as (_ & Hl' & _). exact Hl'.
  - rewrite Hpa. cbn [trace record]. rewrite pauses_app, app_nil_r. reflexivity.
  - intros k H1 H2. rewrite Hfr by assumption. reflexivity.
Qed.

(** X3: with the store available, spending an amount the balance covers
    succeeds at the first attempt: the stored record loses exactly [amount]
    cinnamon and gains exactly [amount] total contributions, seeds and
    energy are unchanged, [lastActive] is the time of the call, and no other
    player's record is touched. *)
Theorem spendCinnamon_moves_cinnamon_to_contributions
    (username subredditName : string) (amount : Q) (p : PlayerResources.t)
    (names : list Item) (w : World) :
  playerIs username subredditName p names w ->
  withinLimits p ->
  0 < amount ->
  amount <= PlayerResources.cinnamon p ->
  exists w',
    PlayerResourceService.spendCinnamon username subredditName amount w
    = (Ok (PlayerResources.mk username subredditName
             (PlayerResources.cinnamon p - amount)
             (PlayerResources.seeds p) (PlayerResources.energy p)
             (PlayerResources.totalContributions p + amount)
             (clock w)), w')
    /\ redis w' !! REDIS_KEYS.PLAYER_RESOURCES username subredditName
       = Some (VPlayer (PlayerResources.mk username subredditName
                          (PlayerResources.cinnamon p - amount)
                          (PlayerResources.seeds p) (PlayerResources.energy p)
                          (PlayerResources.totalContributions p + amount)
                          (clock w)))
    /\ pauses (trace w') = pauses (trace w)
    /\ (forall key,
          key <> PlayerResourceService.playerIndexKey subredditName ->
          key <> REDIS_KEYS.PLAYER_RESOURCES username subredditName ->
          redis w' !! key = redis w !! key).
Proof.
  intros Hp Hlim Hpos Hle.
  apply (spendCinnamon_calm username subredditName amount p names w); assumption.
Qed.





(** ** Transactions *)

Lemma getActionCost_known (actionType : string) (cost : Q) (w : World) :
  costOf actionType = Some cost ->
  PlayerResourceService.getActionCost actionType w = (Ok cost, w).
Proof.
  unfold costOf, PlayerResourceService.getActionCost.
  repeat case_decide; intros Hsome; try discriminate Hsome;
    injection Hsome as <-; reflexivity.
Qed.

Lemma getActionCost_unknown (actionType : string) (w : World) :
  costOf actionType = None ->
  PlayerResourceService.getActionCost actionType w
  = (Throw ("Unknown action type: " +:+ actionType), w).
Proof.
  unfold costOf, PlayerResourceService.getActionCost.
  repeat case_decide; intros Hnone; try discriminate Hnone; reflexivity.
Qed.

Lemma costOf_cases (actionType : string) (cost : Q) :
  costOf actionType = Some cost ->
  (cost = 0 /\ Qeq_bool cost 0 = true) \/ (0 < cost /\ Qeq_bool cost 0 = false).
Proof.
  unfold costOf.
  repeat case_decide; intros Hsome; try discriminate Hsome;
    injection Hsome as <-; [right | right | right | left]; split; reflexivity.
Qed.

(** An operation that throws [e] each time it is tried, moving the world by
    [after]: the wrapper tries it three times, with its two pauses. *)
Lemma withRetry_all_throw_after {A} (op : Promise A) (e : string)
    (after : World -> World) (P : World -> Prop) (w : World) :
  (forall w0, P w0 -> op w0 = (Throw e, after w0)) ->
  (forall w0, P w0 -> P (after w0)) ->
  sleepProof P ->
  P w ->
  withRetryPolicy 3 1000 op w
  = (Throw (connectionError (Some e)),
     after (snd (sleep 2000 (after (snd (sleep 1000 (after w))))))).
Proof.
  intros Hop Hafter Hsl Hw.
  rewrite withRetry_three_attempts.
  rewrite (Hop w Hw).
  assert (H1 : P (snd (sleep 1000 (after w)))) by (apply Hsl, Hafter, Hw).
  rewrite (Hop _ H1).
  assert (H2 : P (snd (sleep 2000 (after (snd (sleep 1000 (after w)))))))
    by (apply Hsl, Hafter, H1).
  rewrite (Hop _ H2). reflexivity.
Qed.

Lemma processActionTransaction_insufficient_calm
    (username subredditName actionType : string) (cost : Q)
    (p : PlayerResources.t) (w : World) :
  calm w ->
  redis w !! REDIS_KEYS.PLAYER_RESOURCES username subredditName = Some (VPlayer p) ->
  costOf actionType = Some cost ->
  0 <= PlayerResources.cinnamon p ->
  PlayerResources.cinnamon p < cost ->
  exists w',
    PlayerResourceService.processActionTransaction username subredditName actionType w
    = (Throw ("Database connection error: Database connection error: "
              +:+ ERROR_MESSAGES.INSUFFICIENT_RESOURCES), w')
    /\ redis w' = redis w
    /\ pauses (trace w')
       = pauses (trace w) ++ [1000; 2000; 1000; 1000; 2000; 2000; 1000; 2000]%Z
    /\ readsOf (REDIS_KEYS.PLAYER_RESOURCES username subredditName) (trace w')
       = (readsOf (REDIS_KEYS.PLAYER_RESOURCES username subredditName) (trace w) + 9)%nat.
Proof.
  intros Hc Hl Hcost Hfloor Hlt.
  set (key := REDIS_KEYS.PLAYER_RESOURCES username subredditName).
  set (P := fun w0 : World => calm w0 /\ redis w0 = redis w).
  set (inner := fun w0 : World =>
         record (EvGet key)
           (snd (sleep 2000 (record (EvGet key)
              (snd (sleep 1000 (record (EvGet key) w0))))))).
  assert (Hpos : 0 < cost) by lra.
  assert (Hspend : forall w0, P w0 ->
            PlayerResourceService.spendCinnamon username subredditName cost w0
            = (Throw (connectionError (Some ERROR_MESSAGES.INSUFFICIENT_RESOURCES)),
               inner w0)).
  { intros w0 [Hc0 Hr0]. unfold PlayerResourceService.spendCinnamon.
    rewrite (proj2 (num_le_false _ _) Hpos).
    unfold PlayerResourceService.withRetry.
    change PlayerResourceService.maxRetries with 3%Z.
    change PlayerResourceService.retryDelay with 1000%Z.
    apply (withRetry_all_throw _ ERROR_MESSAGES.INSUFFICIENT_RESOURCES key
             (fun w1 => calm w1 /\ redis w1 = redis w)).
    - intros w1 [Hc1 Hr1].
      erewrite bind_Ok
        by (apply getPlayerResources_found with (p := p);
            [exact Hc1 | rewrite Hr1; exact Hl]).
      cbv beta iota. rewrite (proj2 (num_lt_spec _ _) Hlt). reflexivity.
    - intros w1 ev H. exact H.
    - intros w1 d H. exact H.
    - split; [exact Hc0 | exact Hr0]. }
  destruct (costOf_cases actionType cost Hcost) as [[H0 _] | [_ Hnz]];
    [rewrite H0 in Hpos; discriminate Hpos |].
  unfold PlayerResourceService.processActionTransaction.
  unfold PlayerResourceService.withRetry.
  change PlayerResourceService.maxRetries with 3%Z.
  change PlayerResourceService.retryDelay with 1000%Z.
  erewrite (withRetry_all_throw_after _
              (connectionError (Some ERROR_MESSAGES.INSUFFICIENT_RESOURCES)) inner P).
  - eexists. split; [reflexivity |]. split; [reflexivity |].
    subst inner. cbn [trace record sleep snd]. split.
    + rewrite !pauses_app. cbn [pauses].
      rewrite !app_nil_r, <- !app_assoc. reflexivity.
    + rewrite !readsOf_app. cbn [readsOf].
      rewrite decide_True by reflexivity. lia.
  - intros w0 Hw0.
    erewrite bind_Ok by (apply getActionCost_known; exact Hcost).
    rewrite Hnz.
    erewrite bind_Throw by (apply Hspend; exact Hw0). reflexivity.
  - intros w0 H. exact H.
  - intros w0 d H. exact H.
  - split; [exact Hc | reflexivity].
Qed.

(** X5: the retry wrappers nest.  With the store available throughout, a
    transaction the balance cannot pay for is not refused at once:
    [processActionTransaction] retries [spendCinnamon], which retries its
    own body, so the player record is read nine times, the call pauses
    eight times (12 seconds in all), and the error carries the
    connection-error heading twice.  The store is left as it was. *)
Theorem transaction_retries_insufficient_funds_nine_times
    (username subredditName actionType : string) (cost : Q)
    (p : PlayerResources.t) (w : World) :
  calm w ->
  redis w !! REDIS_KEYS.PLAYER_RESOURCES username subredditName = Some (VPlayer p) ->
  costOf actionType = Some cost ->
  0 <= PlayerResources.cinnamon p ->
  PlayerResources.cinnamon p < cost ->
  exists w',
    PlayerResourceService.processActionTransaction username subredditName actionType w
    = (Throw ("Database connection error: Database connection error: "
              +:+ ERROR_MESSAGES.INSUFFICIENT_RESOURCES), w')
    /\ redis w' = redis w
    /\ pauses (trace w')
       = pauses (trace w) ++ [1000; 2000; 1000; 1000; 2000; 2000; 1000; 2000]%Z
    /\ readsOf (REDIS_KEYS.PLAYER_RESOURCES username subredditName) (trace w')
       = (readsOf (REDIS_KEYS.PLAYER_RESOURCES username subredditName) (trace w) + 9)%nat.
Proof.
  intros Hc Hl Hcost Hfloor Hlt.
  apply (processActionTransaction_insufficient_calm
           username subredditName actionType cost p w); assumption.
Qed.

(** X6: with the store available, [canAffordAction] tells what
    [processActionTransaction] will do for a player whose record is within
    the limits: it answers whether the balance covers the cost of the
    action; when it answers yes the transaction succeeds and leaves the
    balance less the cost, and when it answers no the transaction throws
    and changes nothing. *)
Theorem canAffordAction_predicts_transaction
    (username subredditName actionType : string) (cost : Q)
    (p : PlayerResources.t) (names : list Item) (w : World) :
  playerIs username subredditName p names w ->
  withinLimits p ->
  costOf actionType = Some cost ->
  exists w1,
    PlayerResourceService.canAffordAction username subredditName actionType w
    = (Ok (num_ge (PlayerResources.cinnamon p) cost), w1)
    /\ redis w1 = redis w
    /\ (num_ge (PlayerResources.cinnamon p) cost = true ->
        exists r w2,
          PlayerResourceService.processActionTransaction
            username subredditName actionType w1 = (Ok (r, cost), w2)
          /\ PlayerResources.cinnamon r == PlayerResources.cinnamon p - cost
          /\ redis w2 !! REDIS_KEYS.PLAYER_RESOURCES username subredditName
             = Some (VPlayer r))
    /\ (num_ge (PlayerResources.cinnamon p) cost = false ->
        exists e w2,
          PlayerResourceService.processActionTransaction
            username subredditName actionType w1 = (Throw e, w2)
          /\ redis w2 = redis w).
Proof.
  intros Hp Hlim Hcost.
  pose proof Hp as (Hc & Hl & Hu & Hs & Hidx).
  set (key := REDIS_KEYS.PLAYER_RESOURCES username subredditName).
  exists (record (EvGet key) w).
  assert (Hp1 : playerIs username subredditName p names (record (EvGet key) w))
    by (apply playerIs_record, Hp).
  split; [| split; [reflexivity | split]].
  - unfold PlayerResourceService.canAffordAction.
    apply player_withRetry_Ok.
    erewrite bind_Ok by (apply getPlayerResources_found; eassumption).
    cbv beta iota.
    erewrite bind_Ok by (apply getActionCost_known; exact Hcost).
    reflexivity.
  - intros Hyes. apply num_ge_spec in Hyes.
    unfold PlayerResourceService.processActionTransaction.
    destruct (costOf_cases actionType cost Hcost) as [[H0 Hz] | [Hpos Hnz]].
    + destruct (updatePlayerResources_calm username subredditName
                  PlayerResources.noUpdates p names _ Hp1)
        as (w2 & Hrun & _ & _ & Hp2 & _).
      { destruct p; exact Hlim. }
      eexists _, w2. split; [| split].
      * apply player_withRetry_Ok.
        erewrite bind_Ok by (apply getActionCost_known; exact Hcost).
        rewrite Hz. erewrite bind_Ok by exact Hrun. reflexivity.
      * rewrite H0. cbn. ring.
      * destruct Hp2 as (_ & Hl2 & _). exact Hl2.
    + destruct (spendCinnamon_calm
                  username subredditName cost p names _ Hp1 Hlim Hpos Hyes)
        as (w2 & Hrun & Hl2 & _).
      eexists _, w2. split; [| split].
      * apply player_withRetry_Ok.
        erewrite bind_Ok by (apply getActionCost_known; exact Hcost).
        rewrite Hnz. erewrite bind_Ok by exact Hrun. reflexivity.
      * cbn. reflexivity.
      * exact Hl2.
  - intros Hno. apply num_ge_false in Hno.
    destruct Hlim as (L1 & _).
    destruct (processActionTransaction_insufficient_calm
                username subredditName actionType cost p (record (EvGet key) w))
      as (w2 & Hrun & Hr & _); try assumption.
    eexists _, w2. split; [exact Hrun | exact Hr].
Qed.

(** ** New players *)

Lemma getPlayerResources_absent (username sub : string) (w : World) :
  calm w ->
  redis w !! REDIS_KEYS.PLAYER_RESOURCES username sub = None ->
  PlayerResourceService.getPlayerResources username sub w
  = (Ok None, record (EvGet (REDIS_KEYS.PLAYER_RESOURCES username sub)) w).
Proof.
  intros Hc Hl. unfold PlayerResourceService.getPlayerResources.
  apply player_withRetry_Ok. cbv zeta.
  erewrite bind_Ok by (apply redis_get_calm; exact Hc).
  rewrite Hl. reflexivity.
Qed.

Lemma initializePlayerResources_existing_calm (username sub : string)
    (p : PlayerResources.t) (w : World) :
  calm w ->
  redis w !! REDIS_KEYS.PLAYER_RESOURCES username sub = Some (VPlayer p) ->
  PlayerResourceService.initializePlayerResources username sub w
  = (Ok p, record (EvGet (REDIS_KEYS.PLAYER_RESOURCES username sub)) w).
Proof.
  intros Hc Hl. unfold PlayerResourceService.initializePlayerResources, try_catch.
  erewrite bind_Ok by (apply getPlayerResources_found; eassumption).
  reflexivity.
Qed.

Lemma includes_indexWith (username : string) (names : list Item) :
  PlayerResourceService.includes username (indexWith username names) = true.
Proof.
  unfold indexWith.
  destruct (PlayerResourceService.includes username names) eqn:H; [exact H |].
  unfold PlayerResourceService.includes. rewrite existsb_app. cbn [existsb].
  rewrite bool_decide_eq_true_2 by reflexivity.
  rewrite orb_true_l, orb_true_r. reflexivity.
Qed.

Lemma initializePlayerResources_fresh_calm
    (username sub : string) (names : list Item) (w : World) :
  calm w ->
  redis w !! REDIS_KEYS.PLAYER_RESOURCES username sub = None ->
  indexIs sub names (redis w) ->
  exists w1,
    PlayerResourceService.initializePlayerResources username sub w
    = (Ok (initialPlayerResources username sub (clock w)), w1)
    /\ playerIs username sub (initialPlayerResources username sub (clock w))
         (indexWith username names) w1
    /\ clock w1 = clock w.
Proof.
  intros Hc Hl Hidx.
  set (key := REDIS_KEYS.PLAYER_RESOURCES username sub).
  set (fresh := initialPlayerResources username sub (clock w)).
  destruct (savePlayerResources_calm fresh names (record (EvGet key) w))
    as (w1 & Hrun & Hc1 & Hk1 & _ & Hl1 & _ & Hidx1).
  { exact Hc. }
  { exact Hidx. }
  exists w1. split; [| split].
  - unfold PlayerResourceService.initializePlayerResources, try_catch.
    erewrite bind_Ok by (apply getPlayerResources_absent; eassumption).
    cbv beta iota.
    erewrite bind_Ok by reflexivity. cbv zeta.
    erewrite bind_Ok by exact Hrun. reflexivity.
  - split; [exact Hc1 |]. split; [exact Hl1 |].
    split; [reflexivity |]. split; [reflexivity | exact Hidx1].
  - exact Hk1.
Qed.

(** X7: with the store available, a player with no record gets one with 10
    cinnamon and nothing else, dated at the call, and is entered in the
    player index of the subreddit; initialising again returns that record
    as it is stored, whatever the player has earned or spent since, and
    writes nothing. *)
Theorem initializePlayerResources_grants_start_once
    (username subredditName : string) (names : list Item) (w : World) :
  calm w ->
  redis w !! REDIS_KEYS.PLAYER_RESOURCES username subredditName = None ->
  indexIs subredditName names (redis w) ->
  (exists w1,
     PlayerResourceService.initializePlayerResources username subredditName w
     = (Ok (PlayerResources.mk username subredditName 10 0 0 0 (clock w)), w1)
     /\ playerIs username subredditName
          (PlayerResources.mk username subredditName 10 0 0 0 (clock w))
          (indexWith username names) w1
     /\ PlayerResourceService.includes username (indexWith username names) = true)
  /\ (forall p w2,
        calm w2 ->
        redis w2 !! REDIS_KEYS.PLAYER_RESOURCES username subredditName
        = Some (VPlayer p) ->
        exists w3,
          PlayerResourceService.initializePlayerResources username subredditName w2
          = (Ok p, w3)
          /\ redis w3 = redis w2).
Proof.
  intros Hc Hl Hidx. split.
  - destruct (initializePlayerResources_fresh_calm username subredditName names w
                Hc Hl Hidx) as (w1 & Hrun & Hp1 & _).
    exists w1. split; [exact Hrun |]. split; [exact Hp1 |].
    apply includes_indexWith.
  - intros p w2 Hc2 Hl2. eexists. split.
    + apply initializePlayerResources_existing_calm; eassumption.
    + reflexivity.
Qed.

(** ** Sample runs *)

Lemma richAlice_within : withinLimits richAlice.
Proof. unfold withinLimits. cbn. repeat split; discriminate. Qed.

Lemma richAlice_playerIs :
  playerIs "alice" "garden" richAlice [IName "alice"] richAliceWorld.
Proof.
  split; [reflexivity |]. split; [reflexivity |].
  split; [reflexivity |]. split; [reflexivity |]. left. reflexivity.
Qed.

Lemma richAliceWorld_within : everyPlayerWithinLimits (redis richAliceWorld).
Proof.
  intros key p Hl. cbn [redis richAliceWorld] in Hl.
  apply lookup_insert_Some in Hl as [[_ Hd] | [_ Hl]]; [discriminate Hd |].
  apply lookup_singleton_Some in Hl as [_ Heq]. injection Heq as <-.
  apply richAlice_within.
Qed.

Lemma richAliceWorld_distinct : indexesDistinct (redis richAliceWorld).
Proof.
  intros key l Hl. cbn [redis richAliceWorld] in Hl.
  apply lookup_insert_Some in Hl as [[_ Heq] | [_ Hl]].
  - injection Heq as <-. cbn [namesOf]. apply NoDup_singleton.
  - apply lookup_singleton_Some in Hl as [_ Hd]. discriminate Hd.
Qed.

Lemma player_records_stay_within_limits_witness :
  everyPlayerWithinLimits (redis richAliceWorld)
  /\ everyPlayerWithinLimits (redis (snd (serveAll aliceSession richAliceWorld))).
Proof.
  split; [apply richAliceWorld_within |].
  apply (player_records_stay_within_limits aliceSession richAliceWorld _
           (fst (serveAll aliceSession richAliceWorld))).
  - apply richAliceWorld_within.
  - apply surjective_pairing.
Defined.

Lemma player_index_never_lists_a_name_twice_witness :
  indexesDistinct (redis richAliceWorld)
  /\ indexesDistinct (redis (snd (serveAll aliceSession richAliceWorld))).
Proof.
  split; [apply richAliceWorld_distinct |].
  apply (player_index_never_lists_a_name_twice aliceSession richAliceWorld _
           (fst (serveAll aliceSession richAliceWorld))).
  - apply richAliceWorld_distinct.
  - apply surjective_pairing.
Defined.

Lemma spendCinnamon_moves_cinnamon_to_contributions_witness :
  playerIs "alice" "garden" richAlice [IName "alice"] richAliceWorld
  /\ withinLimits richAlice
  /\ 0 < 8
  /\ 8 <= PlayerResources.cinnamon richAlice
  /\ exists w',
       PlayerResourceService.spendCinnamon "alice" "garden" 8 richAliceWorld
       = (Ok (PlayerResources.mk "alice" "garden" (9998 - 8) 0 0 (40 + 8) 7), w')
       /\ redis w' !! REDIS_KEYS.PLAYER_RESOURCES "alice" "garden"
          = Some (VPlayer (PlayerResources.mk "alice" "garden" (9998 - 8) 0 0 (40 + 8) 7))
       /\ pauses (trace w') = pauses (trace richAliceWorld)
       /\ (forall key,
             key <> PlayerResourceService.playerIndexKey "garden" ->
             key <> REDIS_KEYS.PLAYER_RESOURCES "alice" "garden" ->
             redis w' !! key = redis richAliceWorld !! key).
Proof.
  split; [apply richAlice_playerIs |]. split; [apply richAlice_within |].
  split; [reflexivity |]. split; [discriminate |].
  apply (spendCinnamon_moves_cinnamon_to_contributions
           "alice" "garden" 8 richAlice [IName "alice"] richAliceWorld).
  - apply richAlice_playerIs.
  - apply richAlice_within.
  - reflexivity.
  - discriminate.
Defined.


Lemma transaction_retries_insufficient_funds_nine_times_witness :
  calm aliceWorld
  /\ redis aliceWorld !! REDIS_KEYS.PLAYER_RESOURCES "alice" "garden"
     = Some (VPlayer aliceResources)
  /\ costOf "plant" = Some 5
  /\ 0 <= PlayerResources.cinnamon aliceResources
  /\ PlayerResources.cinnamon aliceResources < 5
  /\ exists w',
       PlayerResourceService.processActionTransaction "alice" "garden" "plant" aliceWorld
       = (Throw ("Database connection error: Database connection error: "
                 +:+ ERROR_MESSAGES.INSUFFICIENT_RESOURCES), w')
       /\ redis w' = redis aliceWorld
       /\ pauses (trace w')
          = pauses (trace aliceWorld)
            ++ [1000; 2000; 1000; 1000; 2000; 2000; 1000; 2000]%Z
       /\ readsOf (REDIS_KEYS.PLAYER_RESOURCES "alice" "garden") (trace w')
          = (readsOf (REDIS_KEYS.PLAYER_RESOURCES "alice" "garden") (trace aliceWorld)
             + 9)%nat.
Proof.
  split; [reflexivity |]. split; [reflexivity |]. split; [reflexivity |].
  split; [discriminate |]. split; [reflexivity |].
  apply (transaction_retries_insufficient_funds_nine_times
           "alice" "garden" "plant" 5 aliceResources aliceWorld).
  - reflexivity.
  - reflexivity.
  - reflexivity.
  - discriminate.
  - reflexivity.
Defined.

Lemma canAffordAction_predicts_transaction_witness :
  playerIs "alice" "garden" richAlice [IName "alice"] richAliceWorld
  /\ withinLimits richAlice
  /\ costOf "charge" = Some 10
  /\ exists w1,
       PlayerResourceService.canAffordAction "alice" "garden" "charge" richAliceWorld
       = (Ok (num_ge (PlayerResources.cinnamon richAlice) 10), w1)
       /\ redis w1 = redis richAliceWorld
       /\ (num_ge (PlayerResources.cinnamon richAlice) 10 = true ->
           exists r w2,
             PlayerResourceService.processActionTransaction
               "alice" "garden" "charge" w1 = (Ok (r, 10), w2)
             /\ PlayerResources.cinnamon r == PlayerResources.cinnamon richAlice - 10
             /\ redis w2 !! REDIS_KEYS.PLAYER_RESOURCES "alice" "garden"
                = Some (VPlayer r))
       /\ (num_ge (PlayerResources.cinnamon richAlice) 10 = false ->
           exists e w2,
             PlayerResourceService.processActionTransaction
               "alice" "garden" "charge" w1 = (Throw e, w2)
             /\ redis w2 = redis richAliceWorld).
Proof.
  split; [apply richAlice_playerIs |]. split; [apply richAlice_within |].
  split; [reflexivity |].
  apply (canAffordAction_predicts_transaction
           "alice" "garden" "charge" 10 richAlice [IName "alice"] richAliceWorld).
  - apply richAlice_playerIs.
  - apply richAlice_within.
  - reflexivity.
Defined.

Lemma initializePlayerResources_grants_start_once_witness :
  calm richAliceWorld
  /\ redis richAliceWorld !! REDIS_KEYS.PLAYER_RESOURCES "bob" "garden" = None
  /\ indexIs "garden" [IName "alice"] (redis richAliceWorld)
  /\ (exists w1,
        PlayerResourceService.initializePlayerResources "bob" "garden" richAliceWorld
        = (Ok (PlayerResources.mk "bob" "garden" 10 0 0 0 (clock richAliceWorld)), w1)
        /\ playerIs "bob" "garden"
             (PlayerResources.mk "bob" "garden" 10 0 0 0 (clock richAliceWorld))
             (indexWith "bob" [IName "alice"]) w1
        /\ PlayerResourceService.includes "bob" (indexWith "bob" [IName "alice"]) = true)
  /\ (forall p w2,
        calm w2 ->
        redis w2 !! REDIS_KEYS.PLAYER_RESOURCES "bob" "garden" = Some (VPlayer p) ->
        exists w3,
          PlayerResourceService.initializePlayerResources "bob" "garden" w2 = (Ok p, w3)
          /\ redis w3 = redis w2).
Proof.
  split; [reflexivity |]. split; [reflexivity |]. split; [left; reflexivity |].
  apply (initializePlayerResources_grants_start_once
           "bob" "garden" [IName "alice"] richAliceWorld).
  - reflexivity.
  - reflexivity.
  - left. reflexivity.
Defined.

(* ===================================================================== *)
(** * The action history *)
(* ===================================================================== *)

Lemma parseActions_actions (acts : list ActionHistory.t) (w : World) :
  RedisGameService.parseActions (map IAction acts) w = (Ok acts, w).
Proof.
  induction acts as [| a acts IH]; cbn [map RedisGameService.parseActions];
    [reflexivity |].
  erewrite bind_Ok by exact IH. reflexivity.
Qed.

Lemma getRecentActions_calm (sub : string) (limit : option Z)
    (acts : list ActionHistory.t) (w : World) :
  calm w ->
  historyIs sub (map IAction acts) (redis w) ->
  RedisGameService.getRecentActions sub limit w
  = (Ok (Array_slice0 (default 50%Z limit) acts),
     record (EvGet (REDIS_KEYS.ACTION_HISTORY sub)) w).
Proof.
  intros Hc Hh. unfold RedisGameService.getRecentActions. cbv zeta.
  apply game_withRetry_Ok.
  erewrite bind_Ok by (apply redis_get_calm; exact Hc).
  destruct Hh as [-> | [-> Hnil]].
  - assert (Hs : forall n, Array_slice0 n (map IAction acts)
                           = map IAction (Array_slice0 n acts)).
    { intros n. unfold Array_slice0. rewrite length_map.
      destruct (n <? 0)%Z; apply firstn_map. }
    rewrite Hs. apply parseActions_actions.
  - destruct acts; [| discriminate Hnil].
    unfold Array_slice0. destruct (default 50%Z limit <? 0)%Z;
      rewrite take_nil; reflexivity.
Qed.

(** X8: with the store available, an action that [recordAction] has just
    recorded is the first that [getRecentActions] returns, followed by the
    earlier history in its order; the answer has at most [limit] entries
    (50 when no limit is given), and reading changes nothing in the
    store. *)
Theorem getRecentActions_returns_what_recordAction_stored
    (draft : ActionHistory.draft) (st : GameState.t) (acts : list ActionHistory.t)
    (limit : option Z) (w : World) :
  gardenIs (ActionHistory.d_subredditName draft) st (map IAction acts) w ->
  (0 < default 50 limit)%Z ->
  exists w1 w2 recent,
    RedisGameService.recordAction draft w = (Ok (actionOf draft w), w1)
    /\ RedisGameService.getRecentActions (ActionHistory.d_subredditName draft) limit w1
       = (Ok (actionOf draft w :: recent), w2)
    /\ actionOf draft w :: recent
       = take (Nat.min (Z.to_nat (default 50%Z limit)) 1000) (actionOf draft w :: acts)
    /\ (length (actionOf draft w :: recent) <= Z.to_nat (default 50%Z limit))%nat
    /\ redis w2 = redis w1.
Proof.
  intros Hg Hpos.
  destruct (recordAction_calm draft st (map IAction acts) w Hg)
    as (w1 & Hrun & _ & (Hc1 & _ & _ & Hh1)).
  rewrite unshiftCapped_take in Hh1.
  change (IAction (actionOf draft w) :: map IAction acts)
    with (map IAction (actionOf draft w :: acts)) in Hh1.
  rewrite firstn_map in Hh1.
  pose proof (getRecentActions_calm _ limit _ w1 Hc1 Hh1) as Hget.
  assert (Hslice : Array_slice0 (default 50%Z limit)
                     (take 1000 (actionOf draft w :: acts))
                   = take (Nat.min (Z.to_nat (default 50%Z limit)) 1000)
                          (actionOf draft w :: acts)).
  { unfold Array_slice0.
    destruct (Z.ltb_spec (default 50%Z limit) 0) as [Hneg | _]; [lia |].
    apply take_take. }
  rewrite Hslice in Hget.
  destruct (Nat.min (Z.to_nat (default 50%Z limit)) 1000) as [| k] eqn:Hk; [lia |].
  cbn [take] in Hget.
  exists w1, (record (EvGet (REDIS_KEYS.ACTION_HISTORY
                               (ActionHistory.d_subredditName draft))) w1),
         (take k acts).
  split; [exact Hrun |]. split; [exact Hget |]. split; [reflexivity |].
  split; [| reflexivity].
  cbn [length]. rewrite length_take. lia.
Qed.

(* ===================================================================== *)
(** * A subreddit without a game state *)
(* ===================================================================== *)

Lemma connectionError_message (msg : string) :
  msg <> "" ->
  connectionError (Some msg) = "Database connection error: " +:+ msg.
Proof.
  intros Hne. unfold connectionError.
  destruct (decide (msg = "")) as [H | _]; [destruct (Hne H) | reflexivity].
Qed.

Lemma prefixed_nonempty (c : ascii) (prefix rest : string) :
  String c prefix +:+ rest <> "".
Proof. intros H. apply (f_equal chars_of) in H. rewrite chars_of_app in H. discriminate H. Qed.

Lemma updateGameState_absent_calm (sub : string) (updates : GameState.partial)
    (w : World) :
  calm w ->
  redis w !! REDIS_KEYS.SUBREDDIT_STATE sub = None ->
  exists w',
    RedisGameService.updateGameState sub updates w
    = (Throw ("Database connection error: Game state not found for subreddit: "
              +:+ sub), w')
    /\ calm w' /\ redis w' = redis w /\ clock w' = (clock w + 3000)%Z
    /\ pauses (trace w') = pauses (trace w) ++ [1000; 2000]%Z.
Proof.
  intros Hc Hl. unfold RedisGameService.updateGameState.
  unfold RedisGameService.withRetry.
  change RedisGameService.maxRetries with 3%Z.
  change RedisGameService.retryDelay with 1000%Z.
  erewrite (withRetry_all_throw _ ("Game state not found for subreddit: " +:+ sub)
              (REDIS_KEYS.SUBREDDIT_STATE sub)
              (fun w0 => calm w0 /\ redis w0 = redis w)).
  - eexists. split; [reflexivity |]. split; [exact Hc |]. split; [reflexivity |].
    cbn [clock trace record sleep snd]. split; [lia |].
    rewrite !pauses_app. cbn [pauses]. rewrite !app_nil_r, <- app_assoc. reflexivity.
  - intros w0 [Hc0 Hr0].
    erewrite bind_Ok by (apply getGameState_absent; [exact Hc0 | rewrite Hr0; exact Hl]).
    reflexivity.
  - intros w0 ev H. exact H.
  - intros w0 d H. exact H.
  - split; [exact Hc | reflexivity].
Qed.

Lemma updateGameStateFromAction_absent_calm (action : ActionHistory.t) (w : World) :
  calm w ->
  redis w !! REDIS_KEYS.SUBREDDIT_STATE (ActionHistory.subredditName action) = None ->
  exists w',
    RedisGameService.updateGameStateFromAction action w
    = (Throw ("Database connection error: Game state not found for subreddit: "
              +:+ ActionHistory.subredditName action), w')
    /\ calm w' /\ redis w' = redis w /\ clock w' = (clock w + 3000)%Z.
Proof.
  intros Hc Hl. unfold RedisGameService.updateGameStateFromAction. cbv zeta.
  erewrite bind_Ok by (apply getGameState_absent; eassumption).
  cbv beta iota.
  match goal with
  | |- context [RedisGameService.updateGameState ?s ?u] =>
      destruct (updateGameState_absent_calm s u
                  (record (EvGet (REDIS_KEYS.SUBREDDIT_STATE s)) w) Hc Hl)
        as (w' & Hrun & Hc' & Hr' & Hk' & _)
  end.
  exists w'. split; [| split; [exact Hc' | split; [exact Hr' | exact Hk']]].
  erewrite bind_Throw by exact Hrun. reflexivity.
Qed.

(** X9: recording an action for a subreddit that has no game state fails,
    but not cleanly.  With the store available, each of the three attempts
    of the retry wrapper first puts a new copy of the action in the history
    and then fails to update the state: the call throws, the history has
    grown by three entries made from the same draft, dated 4 and 9 seconds
    apart, and no game state has been created. *)
Theorem recordAction_without_state_leaves_three_entries
    (draft : ActionHistory.draft) (l : list Item) (w : World) :
  calm w ->
  redis w !! REDIS_KEYS.SUBREDDIT_STATE (ActionHistory.d_subredditName draft) = None ->
  historyIs (ActionHistory.d_subredditName draft) l (redis w) ->
  exists a1 a2 a3 w',
    RedisGameService.recordAction draft w
    = (Throw ("Database connection error: Database connection error: "
              +:+ "Game state not found for subreddit: "
              +:+ ActionHistory.d_subredditName draft), w')
    /\ redis w' !! REDIS_KEYS.ACTION_HISTORY (ActionHistory.d_subredditName draft)
       = Some (VList (RedisGameService.unshiftCapped a3
                        (RedisGameService.unshiftCapped a2
                           (RedisGameService.unshiftCapped a1 l))))
    /\ (forall key,
          key <> REDIS_KEYS.ACTION_HISTORY (ActionHistory.d_subredditName draft) ->
          redis w' !! key = redis w !! key)
    /\ draftOf a1 = draft /\ draftOf a2 = draft /\ draftOf a3 = draft
    /\ ActionHistory.timestamp a1 = clock w
    /\ ActionHistory.timestamp a2 = (clock w + 4000)%Z
    /\ ActionHistory.timestamp a3 = (clock w + 9000)%Z.
Proof.
  intros Hc Hl Hh.
  set (sub := ActionHistory.d_subredditName draft) in *.
  set (K := REDIS_KEYS.ACTION_HISTORY sub).
  set (e := "Database connection error: Game state not found for subreddit: " +:+ sub).
  unfold RedisGameService.recordAction, RedisGameService.withRetry.
  change RedisGameService.maxRetries with 3%Z.
  change RedisGameService.retryDelay with 1000%Z.
  match goal with
  | |- context [withRetryPolicy _ _ ?op] => set (body := op)
  end.
  assert (Hbody : forall l0 w0,
            calm w0 ->
            redis w0 !! REDIS_KEYS.SUBREDDIT_STATE sub = None ->
            historyIs sub l0 (redis w0) ->
            exists w1,
              body w0 = (Throw e, w1)
              /\ calm w1 /\ clock w1 = (clock w0 + 3000)%Z
              /\ redis w1
                 = <[K := VList (RedisGameService.unshiftCapped (actionOf draft w0) l0)]>
                     (redis w0)).
  { intros l0 w0 Hc0 Hl0 Hh0.
    destruct (generateActionId_run w0) as (wa & Hid & Hra & Hoa & Hca).
    assert (Hcalma : calm wa) by (unfold calm; rewrite Hoa; exact Hc0).
    set (act := actionOf draft w0).
    set (wb := record (EvGet K) wa).
    set (wc := stored K (VList (RedisGameService.unshiftCapped act l0)) wb).
    destruct (updateGameStateFromAction_absent_calm act wc) as (wd & Hupd & Hcd & Hrd & Hkd).
    { exact Hcalma. }
    { subst wc wb. cbn [redis stored record ActionHistory.subredditName act actionOf].
      rewrite lookup_insert_ne by (apply not_eq_sym, state_key_not_action_key).
      rewrite Hra. exact Hl0. }
    exists wd. split; [| split; [exact Hcd | split]].
    - subst body. cbv beta.
      erewrite bind_Ok by exact Hid.
      erewrite bind_Ok by reflexivity.
      cbv zeta. rewrite Hca.
      erewrite bind_Ok by (apply redis_get_calm; exact Hcalma).
      assert (Hact : (match redis wa !! REDIS_KEYS.ACTION_HISTORY sub with
                      | None => mret []
                      | Some (VList l1) => mret l1
                      | Some _ => throw "actions.unshift is not a function"
                      end : Promise (list Item)) wb = (Ok l0, wb)).
      { rewrite Hra. destruct Hh0 as [-> | [-> ->]]; reflexivity. }
      erewrite bind_Ok by exact Hact.
      erewrite bind_Ok by (apply redis_set_calm; exact Hcalma).
      erewrite bind_Throw by exact Hupd. reflexivity.
    - rewrite Hkd. subst wc wb. cbn [clock stored record]. rewrite Hca. reflexivity.
    - rewrite Hrd. subst wc wb. cbn [redis stored record]. rewrite Hra. reflexivity. }
  rewrite withRetry_three_attempts.
  destruct (Hbody l w Hc Hl Hh) as (w1 & H1 & Hc1 & Hk1 & Hr1).
  rewrite H1.
  set (w1' := snd (sleep 1000 w1)).
  set (l1 := RedisGameService.unshiftCapped (actionOf draft w) l) in *.
  destruct (Hbody l1 w1') as (w2 & H2 & Hc2 & Hk2 & Hr2).
  { exact Hc1. }
  { subst w1'. cbn [redis sleep snd]. rewrite Hr1.
    rewrite lookup_insert_ne by (apply not_eq_sym, state_key_not_action_key). exact Hl. }
  { left. subst w1'. cbn [redis sleep snd]. rewrite Hr1. apply lookup_insert_eq. }
  rewrite H2.
  set (w2' := snd (sleep 2000 w2)).
  set (l2 := RedisGameService.unshiftCapped (actionOf draft w1') l1) in *.
  assert (Hl2 : redis w2 !! REDIS_KEYS.SUBREDDIT_STATE sub = None).
  { rewrite Hr2. rewrite lookup_insert_ne by (apply not_eq_sym, state_key_not_action_key).
    subst w1'. cbn [redis sleep snd]. rewrite Hr1.
    rewrite lookup_insert_ne by (apply not_eq_sym, state_key_not_action_key). exact Hl. }
  destruct (Hbody l2 w2') as (w3 & H3 & Hc3 & Hk3 & Hr3).
  { exact Hc2. }
  { exact Hl2. }
  { left. subst w2'. cbn [redis sleep snd]. rewrite Hr2. apply lookup_insert_eq. }
  rewrite H3.
  exists (actionOf draft w), (actionOf draft w1'), (actionOf draft w2'), w3.
  split; [| split; [| split]].
  - subst e. rewrite connectionError_message by apply prefixed_nonempty. reflexivity.
  - rewrite Hr3. apply lookup_insert_eq.
  - intros key Hne. rewrite Hr3. rewrite lookup_insert_ne by (apply not_eq_sym, Hne).
    subst w2'. cbn [redis sleep snd]. rewrite Hr2.
    rewrite lookup_insert_ne by (apply not_eq_sym, Hne).
    subst w1'. cbn [redis sleep snd]. rewrite Hr1.
    rewrite lookup_insert_ne by (apply not_eq_sym, Hne). reflexivity.
  - split; [destruct draft; reflexivity |].
    split; [destruct draft; reflexivity |].
    split; [destruct draft; reflexivity |].
    cbn [ActionHistory.timestamp actionOf].
    split; [reflexivity |]. subst w2' w1'. cbn [clock sleep snd] in *.
    split; lia.
Qed.

(** X10: [updateGameState] never creates a game state.  Whatever the
    availability of the store, updating a subreddit that has none throws
    and leaves the store as it was; with the store available the three
    attempts read the key three times and the error names the subreddit. *)
Theorem updateGameState_never_creates_a_state
    (subredditName : string) (updates : GameState.partial) (w : World) :
  redis w !! REDIS_KEYS.SUBREDDIT_STATE subredditName = None ->
  (forall r w',
     RedisGameService.updateGameState subredditName updates w = (r, w') ->
     (exists e, r = Throw e) /\ redis w' = redis w)
  /\ (calm w ->
      exists w',
        RedisGameService.updateGameState subredditName updates w
        = (Throw ("Database connection error: Game state not found for subreddit: "
                  +:+ subredditName), w')
        /\ pauses (trace w') = pauses (trace w) ++ [1000; 2000]%Z).
Proof.
  intros Hl. split.
  - intros r w' Hrun.
    assert (Ht : triple (onStore (fun R' => R' = redis w))
                   (RedisGameService.updateGameState subredditName updates)
                   (fun _ _ => False) (fun _ w2 => redis w2 = redis w)).
    { unfold RedisGameService.updateGameState.
      apply (triple_game_withRetry _ (onStore (fun R' => R' = redis w)));
        [apply onStore_sleepProof |].
      eapply triple_bind; [apply getGameState_spec |].
      intros [cur |].
      - eapply triple_pure with (φ := False).
        { intros w0 [HR Hl0]. rewrite HR, Hl in Hl0. discriminate Hl0. }
        intros [].
      - apply triple_throw. intros w0 [HR _]. exact HR. }
    specialize (Ht w eq_refl). rewrite Hrun in Ht.
    destruct r as [a | e]; [destruct Ht |].
    split; [exists e; reflexivity | exact Ht].
  - intros Hc.
    destruct (updateGameState_absent_calm subredditName updates w Hc Hl)
      as (w' & Hrun & _ & _ & _ & Hp).
    exists w'. split; [exact Hrun | exact Hp].
Qed.

(* ===================================================================== *)
(** * Sequences of actions *)
(* ===================================================================== *)

Lemma recordAll_calm (sub : string) (drafts : list ActionHistory.draft) :
  forall (st : GameState.t) (l : list Item) (w : World),
    gardenIs sub st l w ->
    Forall (fun draft => ActionHistory.d_subredditName draft = sub) drafts ->
    exists l' w',
      recordAll drafts w = (Ok tt, w')
      /\ clock w' = clock w
      /\ gardenIs sub (afterActions (clock w) drafts st) l' w'.
Proof.
  induction drafts as [| draft rest IH]; intros st l w Hg Hsub.
  - exists l, w. split; [reflexivity |]. split; [reflexivity | exact Hg].
  - apply Forall_cons in Hsub as [Hd Hrest]. subst sub.
    destruct (recordAction_calm draft st l w Hg) as (w1 & Hrun & Hk1 & Hg1).
    destruct (IH _ _ _ Hg1 Hrest) as (l' & w' & Hrun' & Hk' & Hg').
    exists l', w'. split; [| split].
    + cbn [recordAll]. erewrite bind_Ok by exact Hrun. exact Hrun'.
    + rewrite Hk', Hk1. reflexivity.
    + rewrite Hk1 in Hg'. exact Hg'.
Qed.

Lemma repo_level_monotone (x y : Q) :
  x <= y -> RedisGameService.calculateTreeLevel x <= RedisGameService.calculateTreeLevel y.
Proof. intros H. rewrite !repo_level_eq_utils. apply utils_level_monotone, H. Qed.

Lemma counts_nonneg (t which : ActionType) : 0 <= counts t which.
Proof. destruct t, which; discriminate. Qed.

Lemma afterActions_grows (now : Z) (drafts : list ActionHistory.draft) :
  forall st,
    levelDerived st ->
    Forall (fun draft => 0 <= ActionHistory.d_growthContributed draft) drafts ->
    levelDerived (afterActions now drafts st)
    /\ GameState.totalGrowth st <= GameState.totalGrowth (afterActions now drafts st)
    /\ GameState.treeLevel st <= GameState.treeLevel (afterActions now drafts st)
    /\ GameState.seedsPlanted st <= GameState.seedsPlanted (afterActions now drafts st)
    /\ GameState.spiritsFed st <= GameState.spiritsFed (afterActions now drafts st)
    /\ GameState.robotCharged st <= GameState.robotCharged (afterActions now drafts st).
Proof.
  induction drafts as [| draft rest IH]; intros st Hd Hpos.
  - cbn. repeat split; try exact Hd; apply Qle_refl.
  - apply Forall_cons in Hpos as [Hg Hrest].
    set (st1 := afterAction (ActionHistory.d_actionType draft)
                            (ActionHistory.d_growthContributed draft) now st).
    destruct (IH st1 eq_refl Hrest) as (Hd' & H1 & H2 & H3 & H4 & H5).
    change (afterActions now (draft :: rest) st) with (afterActions now rest st1).
    split; [exact Hd' |].
    pose proof (counts_nonneg (ActionHistory.d_actionType draft) plant) as Cp.
    pose proof (counts_nonneg (ActionHistory.d_actionType draft) feed) as Cf.
    pose proof (counts_nonneg (ActionHistory.d_actionType draft) charge) as Cc.
    assert (Hlv : GameState.treeLevel st <= GameState.treeLevel st1).
    { rewrite Hd. subst st1. cbn [afterAction GameState.treeLevel].
      apply repo_level_monotone. lra. }
    subst st1.
    cbn [afterAction GameState.totalGrowth GameState.seedsPlanted GameState.spiritsFed
         GameState.robotCharged] in H1, H3, H4, H5.
    repeat split; lra.
Qed.

(** X11: with the store available, no series of recorded actions with
    non-negative growth makes a garden go backwards: the total growth, the
    tree level and the three counters of the stored state are each at least
    what they were, and the stored level is the level of the stored
    growth. *)
Theorem recorded_actions_never_shrink_the_garden
    (sub : string) (drafts : list ActionHistory.draft)
    (st : GameState.t) (l : list Item) (w : World) :
  gardenIs sub st l w ->
  levelDerived st ->
  Forall (fun draft => ActionHistory.d_subredditName draft = sub) drafts ->
  Forall (fun draft => 0 <= ActionHistory.d_growthContributed draft) drafts ->
  exists st' l' w',
    recordAll drafts w = (Ok tt, w')
    /\ gardenIs sub st' l' w'
    /\ levelDerived st'
    /\ GameState.totalGrowth st <= GameState.totalGrowth st'
    /\ GameState.treeLevel st <= GameState.treeLevel st'
    /\ GameState.seedsPlanted st <= GameState.seedsPlanted st'
    /\ GameState.spiritsFed st <= GameState.spiritsFed st'
    /\ GameState.robotCharged st <= GameState.robotCharged st'.
Proof.
  intros Hg Hd Hsub Hpos.
  destruct (recordAll_calm sub drafts st l w Hg Hsub) as (l' & w' & Hrun & _ & Hg').
  exists (afterActions (clock w) drafts st), l', w'.
  split; [exact Hrun |]. split; [exact Hg' |].
  apply afterActions_grows; assumption.
Qed.

Lemma calculateGrowthContribution_multiplier (t : ActionType) :
  GameServiceIntegration.calculateGrowthContribution (actionName t)
  == counts t plant * GROWTH_MULTIPLIERS.SEEDS_PLANTED
     + counts t feed * GROWTH_MULTIPLIERS.SPIRITS_FED
     + counts t charge * GROWTH_MULTIPLIERS.ROBOT_CHARGED.
Proof. destruct t; reflexivity. Qed.

Lemma afterAction_balanced (draft : ActionHistory.draft) (now : Z) (st : GameState.t) :
  standardDraft draft ->
  balanced st ->
  balanced (afterAction (ActionHistory.d_actionType draft)
                        (ActionHistory.d_growthContributed draft) now st).
Proof.
  unfold standardDraft, balanced. intros -> Hb.
  cbn [afterAction GameState.totalGrowth GameState.seedsPlanted GameState.spiritsFed
       GameState.robotCharged].
  rewrite Hb, calculateGrowthContribution_multiplier.
  unfold GrowthUtils.calculateGrowth. ring.
Qed.

Lemma afterActions_balanced (now : Z) (drafts : list ActionHistory.draft) :
  forall st,
    balanced st ->
    Forall standardDraft drafts ->
    balanced (afterActions now drafts st).
Proof.
  induction drafts as [| draft rest IH]; intros st Hb Hstd; [exact Hb |].
  apply Forall_cons in Hstd as [Hd Hrest].
  apply (IH _ (afterAction_balanced draft now st Hd Hb) Hrest).
Qed.

(** X12: the integration layer credits every action with the multiplier
    of the shared growth formula (1.5 for a seed, 2 for a spirit, 3 for a
    charge, nothing for a post).  So, with the store available, when a
    garden's total growth equals the formula on its three counters (as it
    does for a new garden), it still does after any series of such
    actions; upvotes never enter the stored total. *)
Theorem stored_growth_matches_formula_on_counters
    (sub : string) (drafts : list ActionHistory.draft)
    (st : GameState.t) (l : list Item) (w : World) :
  gardenIs sub st l w ->
  balanced st ->
  Forall (fun draft => ActionHistory.d_subredditName draft = sub) drafts ->
  Forall standardDraft drafts ->
  exists st' l' w',
    recordAll drafts w = (Ok tt, w')
    /\ gardenIs sub st' l' w'
    /\ GameState.totalGrowth st'
       == GrowthUtils.calculateGrowth (GameState.seedsPlanted st')
            (GameState.spiritsFed st') (GameState.robotCharged st') 0
    /\ GameState.dailyUpvotes st' = GameState.dailyUpvotes st.
Proof.
  intros Hg Hb Hsub Hstd.
  destruct (recordAll_calm sub drafts st l w Hg Hsub) as (l' & w' & Hrun & _ & Hg').
  exists (afterActions (clock w) drafts st), l', w'.
  split; [exact Hrun |]. split; [exact Hg' |]. split.
  - apply afterActions_balanced; assumption.
  - clear. revert st. induction drafts as [| draft rest IH]; intros st; [reflexivity |].
    change (afterActions (clock w) (draft :: rest) st)
      with (afterActions (clock w) rest
              (afterAction (ActionHistory.d_actionType draft)
                           (ActionHistory.d_growthContributed draft) (clock w) st)).
    rewrite IH. reflexivity.
Qed.

(** X13: [updateGameStateWithGrowth] of the shared utilities and the
    repository agree: with the store available, the state the utility
    computes for [newGrowth] holds the same values as the state
    [recordAction] stores for a post that contributes [newGrowth]. *)
Theorem updateGameStateWithGrowth_agrees_with_recordAction
    (username : string) (spent newGrowth : Q)
    (st : GameState.t) (l : list Item) (w : World) :
  gardenIs (GameState.subredditName st) st l w ->
  exists computed recorded w',
    updateGameStateWithGrowth st newGrowth w = (Ok computed, w)
    /\ RedisGameService.recordAction
         (ActionHistory.mkDraft username (GameState.subredditName st) post spent newGrowth)
         w
       = (Ok (actionOf (ActionHistory.mkDraft username (GameState.subredditName st)
                          post spent newGrowth) w), w')
    /\ redis w' !! REDIS_KEYS.SUBREDDIT_STATE (GameState.subredditName st)
       = Some (VState recorded)
    /\ sameGameState computed recorded.
Proof.
  intros Hg.
  set (draft := ActionHistory.mkDraft username (GameState.subredditName st)
                  post spent newGrowth).
  destruct (recordAction_calm draft st l w Hg) as (w' & Hrun & _ & (_ & Hl & _)).
  eexists _, _, w'. split; [reflexivity |]. split; [exact Hrun |].
  split; [exact Hl |].
  unfold sameGameState.
  cbn [GameState.spread GameState.totalGrowth GameState.treeLevel GameState.seedsPlanted
       GameState.spiritsFed GameState.robotCharged GameState.dailyUpvotes
       GameState.lastGrowthCalculation GameState.subredditName
       GameState.p_totalGrowth GameState.p_treeLevel GameState.p_seedsPlanted
       GameState.p_spiritsFed GameState.p_robotCharged GameState.p_dailyUpvotes
       GameState.p_lastGrowthCalculation default
       GameState.updatedAt GameState.createdAt GameState.p_updatedAt
       afterAction draft ActionHistory.d_growthContributed ActionHistory.d_actionType
       counts].
  rewrite repo_level_eq_utils.
  repeat split; try reflexivity; ring.
Qed.

(* ===================================================================== *)
(** * Upvotes and bonuses *)
(* ===================================================================== *)





(** ** Sample runs *)

Lemma gardenWorld_is_garden : gardenIs "garden" gardenState (map IAction []) gardenWorld.
Proof.
  split; [reflexivity |]. split; [reflexivity |]. split; [reflexivity |].
  right. split; reflexivity.
Qed.

Lemma getRecentActions_returns_what_recordAction_stored_witness :
  gardenIs (ActionHistory.d_subredditName gardenCharge) gardenState (map IAction [])
           gardenWorld
  /\ (0 < default 50 (Some 10))%Z
  /\ exists w1 w2 recent,
       RedisGameService.recordAction gardenCharge gardenWorld
       = (Ok (actionOf gardenCharge gardenWorld), w1)
       /\ RedisGameService.getRecentActions
            (ActionHistory.d_subredditName gardenCharge) (Some 10%Z) w1
          = (Ok (actionOf gardenCharge gardenWorld :: recent), w2)
       /\ actionOf gardenCharge gardenWorld :: recent
          = take (Nat.min (Z.to_nat (default 50%Z (Some 10%Z))) 1000)
                 (actionOf gardenCharge gardenWorld :: [])
       /\ (length (actionOf gardenCharge gardenWorld :: recent)
           <= Z.to_nat (default 50%Z (Some 10%Z)))%nat
       /\ redis w2 = redis w1.
Proof.
  split; [apply gardenWorld_is_garden |]. split; [reflexivity |].
  apply (getRecentActions_returns_what_recordAction_stored
           gardenCharge gardenState [] (Some 10%Z) gardenWorld).
  - apply gardenWorld_is_garden.
  - reflexivity.
Defined.

Lemma recordAction_without_state_leaves_three_entries_witness :
  calm statelessWorld
  /\ redis statelessWorld
       !! REDIS_KEYS.SUBREDDIT_STATE (ActionHistory.d_subredditName gardenPlant) = None
  /\ historyIs (ActionHistory.d_subredditName gardenPlant) [olderAction 0]
               (redis statelessWorld)
  /\ exists a1 a2 a3 w',
       RedisGameService.recordAction gardenPlant statelessWorld
       = (Throw ("Database connection error: Database connection error: "
                 +:+ "Game state not found for subreddit: "
                 +:+ ActionHistory.d_subredditName gardenPlant), w')
       /\ redis w' !! REDIS_KEYS.ACTION_HISTORY (ActionHistory.d_subredditName gardenPlant)
          = Some (VList (RedisGameService.unshiftCapped a3
                           (RedisGameService.unshiftCapped a2
                              (RedisGameService.unshiftCapped a1 [olderAction 0]))))
       /\ (forall key,
             key <> REDIS_KEYS.ACTION_HISTORY (ActionHistory.d_subredditName gardenPlant) ->
             redis w' !! key = redis statelessWorld !! key)
       /\ draftOf a1 = gardenPlant /\ draftOf a2 = gardenPlant /\ draftOf a3 = gardenPlant
       /\ ActionHistory.timestamp a1 = clock statelessWorld
       /\ ActionHistory.timestamp a2 = (clock statelessWorld + 4000)%Z
       /\ ActionHistory.timestamp a3 = (clock statelessWorld + 9000)%Z.
Proof.
  split; [reflexivity |]. split; [reflexivity |]. split; [left; reflexivity |].
  apply (recordAction_without_state_leaves_three_entries
           gardenPlant [olderAction 0] statelessWorld).
  - reflexivity.
  - reflexivity.
  - left. reflexivity.
Defined.

Lemma updateGameState_never_creates_a_state_witness :
  redis emptyWorld !! REDIS_KEYS.SUBREDDIT_STATE "garden" = None
  /\ (forall r w',
        RedisGameService.updateGameState "garden" gardenUpdates emptyWorld = (r, w') ->
        (exists e, r = Throw e) /\ redis w' = redis emptyWorld)
  /\ (calm emptyWorld ->
      exists w',
        RedisGameService.updateGameState "garden" gardenUpdates emptyWorld
        = (Throw ("Database connection error: Game state not found for subreddit: "
                  +:+ "garden"), w')
        /\ pauses (trace w') = pauses (trace emptyWorld) ++ [1000; 2000]%Z).
Proof.
  split; [reflexivity |].
  apply (updateGameState_never_creates_a_state "garden" gardenUpdates emptyWorld).
  reflexivity.
Defined.

Lemma recorded_actions_never_shrink_the_garden_witness :
  gardenIs "garden" gardenState [] gardenWorld
  /\ levelDerived gardenState
  /\ Forall (fun draft => ActionHistory.d_subredditName draft = "garden")
            [gardenPlant; gardenFeed; gardenCharge]
  /\ Forall (fun draft => 0 <= ActionHistory.d_growthContributed draft)
            [gardenPlant; gardenFeed; gardenCharge]
  /\ exists st' l' w',
       recordAll [gardenPlant; gardenFeed; gardenCharge] gardenWorld = (Ok tt, w')
       /\ gardenIs "garden" st' l' w'
       /\ levelDerived st'
       /\ GameState.totalGrowth gardenState <= GameState.totalGrowth st'
       /\ GameState.treeLevel gardenState <= GameState.treeLevel st'
       /\ GameState.seedsPlanted gardenState <= GameState.seedsPlanted st'
       /\ GameState.spiritsFed gardenState <= GameState.spiritsFed st'
       /\ GameState.robotCharged gardenState <= GameState.robotCharged st'.
Proof.
  split; [apply gardenWorld_is_garden |]. split; [reflexivity |].
  split; [repeat constructor |]. split; [repeat constructor; discriminate |].
  apply (recorded_actions_never_shrink_the_garden "garden"
           [gardenPlant; gardenFeed; gardenCharge] gardenState [] gardenWorld).
  - apply gardenWorld_is_garden.
  - reflexivity.
  - repeat constructor.
  - repeat constructor; discriminate.
Defined.

Lemma freshGardenWorld_is_garden : gardenIs "garden" freshGarden [] freshGardenWorld.
Proof.
  split; [reflexivity |]. split; [reflexivity |]. split; [reflexivity |].
  right. split; reflexivity.
Qed.

Lemma stored_growth_matches_formula_on_counters_witness :
  gardenIs "garden" freshGarden [] freshGardenWorld
  /\ balanced freshGarden
  /\ Forall (fun draft => ActionHistory.d_subredditName draft = "garden")
            [gardenPlant; gardenFeed; gardenPlant]
  /\ Forall standardDraft [gardenPlant; gardenFeed; gardenPlant]
  /\ exists st' l' w',
       recordAll [gardenPlant; gardenFeed; gardenPlant] freshGardenWorld = (Ok tt, w')
       /\ gardenIs "garden" st' l' w'
       /\ GameState.totalGrowth st'
          == GrowthUtils.calculateGrowth (GameState.seedsPlanted st')
               (GameState.spiritsFed st') (GameState.robotCharged st') 0
       /\ GameState.dailyUpvotes st' = GameState.dailyUpvotes freshGarden.
Proof.
  split; [apply freshGardenWorld_is_garden |]. split; [reflexivity |].
  split; [repeat constructor |]. split; [repeat constructor |].
  apply (stored_growth_matches_formula_on_counters "garden"
           [gardenPlant; gardenFeed; gardenPlant] freshGarden [] freshGardenWorld).
  - apply freshGardenWorld_is_garden.
  - reflexivity.
  - repeat constructor.
  - repeat constructor.
Defined.

Lemma updateGameStateWithGrowth_agrees_with_recordAction_witness :
  gardenIs (GameState.subredditName gardenState) gardenState [] gardenWorld
  /\ exists computed recorded w',
       updateGameStateWithGrowth gardenState 3 gardenWorld = (Ok computed, gardenWorld)
       /\ RedisGameService.recordAction
            (ActionHistory.mkDraft "alice" (GameState.subredditName gardenState) post 0 3)
            gardenWorld
          = (Ok (actionOf (ActionHistory.mkDraft "alice"
                             (GameState.subredditName gardenState) post 0 3)
                          gardenWorld), w')
       /\ redis w' !! REDIS_KEYS.SUBREDDIT_STATE (GameState.subredditName gardenState)
          = Some (VState recorded)
       /\ sameGameState computed recorded.
Proof.
  split; [apply gardenWorld_is_garden |].
  apply (updateGameStateWithGrowth_agrees_with_recordAction
           "alice" 0 3 gardenState [] gardenWorld).
  apply gardenWorld_is_garden.
Defined.






(* ===================================================================== *)
(** * Milestones *)
(* ===================================================================== *)

Lemma firstCrossed_found (previous new : Q) (milestones : list Z) (m : Z) :
  StronglySorted Z.le milestones ->
  In m milestones ->
  previous < inject_Z m ->
  inject_Z m <= new ->
  exists m',
    GrowthCalculationService.firstCrossed previous new milestones = Some m'
    /\ (m' <= m)%Z.
Proof.
  intros Hsorted. induction Hsorted as [| x rest Hrest IH Hall]; intros Hin Hlt Hle.
  - destruct Hin.
  - cbn [GrowthCalculationService.firstCrossed].
    destruct (num_lt previous (inject_Z x) && num_ge new (inject_Z x)) eqn:Hx.
    + exists x. split; [reflexivity |].
      destruct Hin as [-> | Hin]; [lia |].
      rewrite Forall_forall in Hall. apply Hall. apply list_elem_of_In. exact Hin.
    + destruct Hin as [-> | Hin]; [| apply IH; assumption].
      apply andb_false_iff in Hx as [Hx | Hx].
      * apply num_lt_false in Hx. lra.
      * apply num_ge_false in Hx. lra.
Qed.

Lemma milestones_sorted : StronglySorted Z.le [100; 250; 500; 1000; 2500; 5000]%Z.
Proof. repeat constructor; lia. Qed.

Lemma levelName_cases (level : Q) :
  (GrowthCalculationService.levelNames level = "Seedling" /\ level == 1)
  \/ (GrowthCalculationService.levelNames level = "Sapling" /\ level == 2)
  \/ (GrowthCalculationService.levelNames level = "Young Tree" /\ level == 3)
  \/ (GrowthCalculationService.levelNames level = "Mature Tree" /\ level == 4)
  \/ (GrowthCalculationService.levelNames level = "Ancient Tree" /\ level == 5)
  \/ (GrowthCalculationService.levelNames level = "Spirit Tree" /\ level == 6)
  \/ GrowthCalculationService.levelNames level = "undefined".
Proof.
  unfold GrowthCalculationService.levelNames.
  destruct (Qeq_bool level 1) eqn:H1; [apply Qeq_bool_eq in H1; auto |].
  destruct (Qeq_bool level 2) eqn:H2; [apply Qeq_bool_eq in H2; auto |].
  destruct (Qeq_bool level 3) eqn:H3; [apply Qeq_bool_eq in H3; auto 6 |].
  destruct (Qeq_bool level 4) eqn:H4; [apply Qeq_bool_eq in H4; auto 7 |].
  destruct (Qeq_bool level 5) eqn:H5; [apply Qeq_bool_eq in H5; auto 8 |].
  destruct (Qeq_bool level 6) eqn:H6; [apply Qeq_bool_eq in H6; auto 9 |].
  auto 10.
Qed.

Lemma utils_level_at_least (x : Q) (n : Q) :
  n <= GrowthUtils.calculateTreeLevel x ->
  (5 <= n -> 500 <= x) /\ (6 <= n -> 1000 <= x).
Proof.
  rewrite levels_unfold. split_thresholds x; intros H; split; intros Hn; lra.
Qed.

Lemma utils_level_below (x : Q) (n : Q) :
  GrowthUtils.calculateTreeLevel x < n ->
  (n <= 5 -> x < 500) /\ (n <= 6 -> x < 1000).
Proof.
  rewrite levels_unfold. split_thresholds x; intros H; split; intros Hn; lra.
Qed.

Lemma utils_level_ge_one (x : Q) : 1 <= GrowthUtils.calculateTreeLevel x.
Proof. rewrite levels_unfold. split_thresholds x; lra. Qed.

(** X16: [checkMilestones] never announces the two highest levels.  The
    growth that lifts the tree to level 5 or 6 also crosses a growth
    milestone (500 and 1000 are both level thresholds and milestones), and
    the milestone text overwrites the level text: the result has
    [levelUp] and [newLevel] set, but its message is
    [Community reached N total growth!], never
    [Tree evolved to Ancient Tree!] or [Tree evolved to Spirit Tree!]
    (nor the Seedling text, since level 1 is never a new level). *)
Theorem checkMilestones_never_announces_the_top_levels
    (subredditName : string) (previousTotalGrowth newTotalGrowth : Q) :
  (forall level,
     GrowthCalculationService.newLevel
       (GrowthCalculationService.checkMilestones
          subredditName previousTotalGrowth newTotalGrowth) = Some level ->
     5 <= level ->
     GrowthCalculationService.levelUp
       (GrowthCalculationService.checkMilestones
          subredditName previousTotalGrowth newTotalGrowth) = true
     /\ exists milestone,
          (milestone <= 1000)%Z
          /\ GrowthCalculationService.milestoneReached
               (GrowthCalculationService.checkMilestones
                  subredditName previousTotalGrowth newTotalGrowth)
             = Some ("Community reached " +:+ pretty milestone +:+ " total growth!"))
  /\ GrowthCalculationService.milestoneReached
       (GrowthCalculationService.checkMilestones
          subredditName previousTotalGrowth newTotalGrowth)
     <> Some "Tree evolved to Ancient Tree!"
  /\ GrowthCalculationService.milestoneReached
       (GrowthCalculationService.checkMilestones
          subredditName previousTotalGrowth newTotalGrowth)
     <> Some "Tree evolved to Spirit Tree!"
  /\ GrowthCalculationService.milestoneReached
       (GrowthCalculationService.checkMilestones
          subredditName previousTotalGrowth newTotalGrowth)
     <> Some "Tree evolved to Seedling!".
Proof.
  unfold GrowthCalculationService.checkMilestones. cbv zeta.
  rewrite !service_level_eq_utils.
  set (previousLevel := GrowthUtils.calculateTreeLevel previousTotalGrowth).
  set (newLevel := GrowthUtils.calculateTreeLevel newTotalGrowth).
  set (milestones := [100; 250; 500; 1000; 2500; 5000]%Z).
  cbn [GrowthCalculationService.newLevel GrowthCalculationService.levelUp
       GrowthCalculationService.milestoneReached].
  assert (Hcross : num_gt newLevel previousLevel = true -> 5 <= newLevel ->
            exists m', GrowthCalculationService.firstCrossed
                         previousTotalGrowth newTotalGrowth milestones = Some m'
                       /\ (m' <= 1000)%Z).
  { intros Hup H5. apply num_gt_spec in Hup.
    destruct (utils_level_at_least newTotalGrowth newLevel (Qle_refl _)) as [A5 A6].
    destruct (utils_level_below previousTotalGrowth newLevel Hup) as [B5 B6].
    destruct (Qlt_le_dec newLevel 6) as [Hlt6 | Hge6].
    - assert (Hn5 : newLevel <= 5).
      { subst newLevel. revert Hlt6. rewrite levels_unfold.
        split_thresholds newTotalGrowth; intros; lra. }
      destruct (firstCrossed_found previousTotalGrowth newTotalGrowth milestones 500)
        as (m' & Hm & Hle); [apply milestones_sorted | cbn; auto | | |].
      + apply B5, Hn5.
      + apply A5, H5.
      + exists m'. split; [exact Hm | lia].
    - assert (Hn6 : newLevel <= 6).
      { subst newLevel. rewrite levels_unfold.
        split_thresholds newTotalGrowth; lra. }
      destruct (firstCrossed_found previousTotalGrowth newTotalGrowth milestones 1000)
        as (m' & Hm & Hle); [apply milestones_sorted | cbn; auto 6 | | |].
      + apply B6, Hn6.
      + apply A6, Hge6.
      + exists m'. split; [exact Hm | lia]. }
  assert (Hmsg : forall name : string,
            match GrowthCalculationService.firstCrossed
                    previousTotalGrowth newTotalGrowth milestones with
            | Some milestone =>
                Some ("Community reached " +:+ pretty milestone +:+ " total growth!")
            | None =>
                match (if num_gt newLevel previousLevel then Some newLevel else None) with
                | Some level =>
                    if num_gt newLevel previousLevel && negb (Qeq_bool level 0)
                    then Some ("Tree evolved to "
                               +:+ GrowthCalculationService.levelNames level +:+ "!")
                    else None
                | None => None
                end
            end = Some ("Tree evolved to " +:+ name +:+ "!") ->
            GrowthCalculationService.firstCrossed
              previousTotalGrowth newTotalGrowth milestones = None
            /\ num_gt newLevel previousLevel = true
            /\ GrowthCalculationService.levelNames newLevel = name).
  { intros name.
    destruct (GrowthCalculationService.firstCrossed _ _ _) as [m |].
    - intros H. injection H as H. discriminate H.
    - destruct (num_gt newLevel previousLevel); [| discriminate].
      cbn [andb]. destruct (negb (Qeq_bool newLevel 0)); [| discriminate].
      intros H. injection H as H.
      apply string_app_inj_l in H. apply string_app_inj_r in H. auto. }
  split; [| split; [| split]].
  - intros level Hnew H5.
    destruct (num_gt newLevel previousLevel) eqn:Hup; [| discriminate Hnew].
    injection Hnew as <-.
    split; [reflexivity |].
    destruct (Hcross eq_refl H5) as (m' & Hm & Hle).
    exists m'. split; [exact Hle |]. rewrite Hm. reflexivity.
  - intros H.
    destruct (Hmsg "Ancient Tree" H) as (Hnone & Hup & Hname).
    destruct (levelName_cases newLevel)
      as [[E _] | [[E _] | [[E _] | [[E _] | [[_ E] | [[E _] | E]]]]]];
      try (rewrite E in Hname; discriminate Hname).
    destruct (Hcross Hup) as (m' & Hm & _); [lra |].
    rewrite Hm in Hnone. discriminate Hnone.
  - intros H.
    destruct (Hmsg "Spirit Tree" H) as (Hnone & Hup & Hname).
    destruct (levelName_cases newLevel)
      as [[E _] | [[E _] | [[E _] | [[E _] | [[E _] | [[_ E] | E]]]]]];
      try (rewrite E in Hname; discriminate Hname).
    destruct (Hcross Hup) as (m' & Hm & _); [lra |].
    rewrite Hm in Hnone. discriminate Hnone.
  - intros H.
    destruct (Hmsg "Seedling" H) as (Hnone & Hup & Hname).
    destruct (levelName_cases newLevel)
      as [[_ E] | [[E _] | [[E _] | [[E _] | [[E _] | [[E _] | E]]]]]];
      try (rewrite E in Hname; discriminate Hname).
    apply num_gt_spec in Hup.
    pose proof (utils_level_ge_one previousTotalGrowth) as H1.
    fold previousLevel in H1. lra.
Qed.

(** The level texts for levels 2 to 4 do appear. *)
Example checkMilestones_announces_lower_levels :
  GrowthCalculationService.milestoneReached
    (GrowthCalculationService.checkMilestones "garden" 40 60)
  = Some "Tree evolved to Sapling!"
  /\ GrowthCalculationService.milestoneReached
       (GrowthCalculationService.checkMilestones "garden" 290 310)
     = Some "Tree evolved to Mature Tree!"
  /\ GrowthCalculationService.newLevel
       (GrowthCalculationService.checkMilestones "garden" 490 510)
     = Some 5.
Proof. repeat split. Qed.

(* ===================================================================== *)
(** * The tree emoji of a post *)
(* ===================================================================== *)

(** X17: a post shows one of three emojis only.  [getTreeEmoji] has
    branches for levels from 7 and from 10, but the level of a garden is
    the level of its growth, at most 6: the emoji is the seed below 50
    growth, the seedling from 50, and the young plant from 300 on, however
    large the growth. *)
Theorem getTreeEmoji_of_a_garden (totalGrowth : Q) :
  RedditPostingService.getTreeEmoji (RedisGameService.calculateTreeLevel totalGrowth)
  = (if num_ge totalGrowth 300 then "🌿"
     else if num_ge totalGrowth 50 then "🌱"
     else "🌰")
  /\ RedditPostingService.getTreeEmoji (RedisGameService.calculateTreeLevel totalGrowth)
     <> "🌳"
  /\ RedditPostingService.getTreeEmoji (RedisGameService.calculateTreeLevel totalGrowth)
     <> "🌲".
Proof.
  rewrite repo_level_eq_utils, levels_unfold.
  split_thresholds totalGrowth;
    (destruct (num_ge totalGrowth 300) eqn:H300;
     [apply num_ge_spec in H300 | apply num_ge_false in H300]);
    (destruct (num_ge totalGrowth 50) eqn:H50;
     [apply num_ge_spec in H50 | apply num_ge_false in H50]);
    try lra; repeat split; try reflexivity; discriminate.
Qed.

(* ===================================================================== *)
(** * The next run of a chronicle schedule *)
(* ===================================================================== *)

Lemma setUTCHours_after_days (days now : Z) :
  (1 <= days)%Z ->
  (now < ChronicleGenerationService.Date_setUTCHours 9
           (ChronicleGenerationService.Date_addUTCDays days now))%Z
  /\ (ChronicleGenerationService.Date_setUTCHours 9
        (ChronicleGenerationService.Date_addUTCDays days now) mod 86400000
      = 9 * 3600000)%Z
  /\ (ChronicleGenerationService.Date_setUTCHours 9
        (ChronicleGenerationService.Date_addUTCDays days now) / 86400000
      = now / 86400000 + days)%Z.
Proof.
  intros Hd.
  unfold ChronicleGenerationService.Date_setUTCHours,
         ChronicleGenerationService.Date_addUTCDays.
  rewrite Z.div_add by lia.
  pose proof (Z.div_mod now 86400000 ltac:(lia)) as Hdm.
  pose proof (Z.mod_pos_bound now 86400000 ltac:(lia)) as Hb.
  set (n := (now / 86400000)%Z) in *.
  set (r := (now mod 86400000)%Z) in *.
  split; [lia |]. split.
  - rewrite Z.add_comm, Z.mod_add by lia. reflexivity.
  - rewrite Z.add_comm, Z.div_add by lia. reflexivity.
Qed.

(** X18: the next run of a schedule is always a coming 09:00 UTC, strictly
    after the call.  A daily schedule runs on the next UTC day, so a
    schedule set up before 09:00 skips that day's slot; a weekly schedule
    runs on a Monday, between one and seven days ahead, and on a Monday it
    picks the Monday after. *)
Theorem calculateNextRunTime_is_a_coming_nine_oclock
    (scheduleType : ChronicleGenerationService.ScheduleType) (w : World) :
  exists nextRun,
    ChronicleGenerationService.calculateNextRunTime scheduleType w = (Ok nextRun, w)
    /\ (clock w < nextRun)%Z
    /\ (nextRun mod 86400000 = 9 * 3600000)%Z
    /\ match scheduleType with
       | ChronicleGenerationService.daily =>
           (nextRun / 86400000 = clock w / 86400000 + 1)%Z
       | ChronicleGenerationService.weekly =>
           ChronicleGenerationService.Date_getUTCDay nextRun = 1%Z
           /\ (1 <= nextRun / 86400000 - clock w / 86400000 <= 7)%Z
           /\ (ChronicleGenerationService.Date_getUTCDay (clock w) = 1%Z ->
               nextRun / 86400000 = clock w / 86400000 + 7)%Z
       end.
Proof.
  unfold ChronicleGenerationService.calculateNextRunTime.
  erewrite bind_Ok by reflexivity. cbv zeta.
  destruct scheduleType.
  - eexists. split; [reflexivity |].
    destruct (setUTCHours_after_days 1 (clock w)) as (H1 & H2 & H3); [lia |].
    split; [exact H1 |]. split; [exact H2 | exact H3].
  - set (day := ChronicleGenerationService.Date_getUTCDay (clock w)).
    assert (Hday : (0 <= day < 7)%Z).
    { subst day. unfold ChronicleGenerationService.Date_getUTCDay.
      apply Z.mod_pos_bound. lia. }
    set (days := if (Z.rem (8 - day) 7 =? 0)%Z then 7%Z else Z.rem (8 - day) 7).
    assert (Hdays : (1 <= days <= 7)%Z /\ ((day + days) mod 7 = 1)%Z
                    /\ (day = 1 -> days = 7)%Z).
    { subst days.
      assert (Hcases : (day = 0 \/ day = 1 \/ day = 2 \/ day = 3 \/ day = 4
                        \/ day = 5 \/ day = 6)%Z) by lia.
      destruct Hcases as [-> | [-> | [-> | [-> | [-> | [-> | ->]]]]]];
        vm_compute; repeat split; intros; try reflexivity; discriminate. }
    destruct Hdays as (Hrange & Hmonday & Hskip).
    eexists. split; [reflexivity |].
    destruct (setUTCHours_after_days days (clock w)) as (H1 & H2 & H3); [lia |].
    split; [exact H1 |]. split; [exact H2 |]. split; [| split].
    + unfold ChronicleGenerationService.Date_getUTCDay at 1. rewrite H3.
      replace (clock w / 86400000 + days + 4)%Z
        with ((clock w / 86400000 + 4) + days)%Z by lia.
      rewrite <- Z.add_mod_idemp_l by lia.
      exact Hmonday.
    + rewrite H3. lia.
    + intros Hm. rewrite H3. rewrite (Hskip Hm). reflexivity.
Qed.

(* ===================================================================== *)
(** * The leaderboard *)
(* ===================================================================== *)

Lemma collectPlayers_calm (sub : string) (entries : list Item) :
  forall (players : list PlayerResources.t) (w : World),
    calm w ->
    indexReadable (redis w) sub entries ->
    exists w',
      PlayerResourceService.collectPlayers sub entries players w
      = (Ok (players ++ listedPlayers (redis w) sub entries), w')
      /\ calm w' /\ redis w' = redis w
      /\ pauses (trace w') = pauses (trace w).
Proof.
  induction entries as [| entry rest IH]; intros players w Hc Hread.
  - exists w. cbn [PlayerResourceService.collectPlayers listedPlayers].
    rewrite app_nil_r. auto.
  - apply Forall_cons in Hread as [Hentry Hrest].
    cbn [PlayerResourceService.collectPlayers listedPlayers].
    set (key := REDIS_KEYS.PLAYER_RESOURCES (PlayerResourceService.entryName entry) sub)
      in *.
    destruct (redis w !! key) as [[st | p | l] |] eqn:Hl; try destruct Hentry;
      subst key.
    + erewrite bind_Ok by (apply getPlayerResources_found; eassumption).
      cbv beta iota.
      destruct (IH (players ++ [p]) (record (EvGet (REDIS_KEYS.PLAYER_RESOURCES (PlayerResourceService.entryName entry) sub)) w) Hc Hrest)
        as (w' & Hrun & Hc' & Hr' & Hp').
      exists w'. split; [| split; [exact Hc' | split; [exact Hr' |]]].
      * rewrite Hrun. cbn [redis record]. rewrite <- app_assoc. reflexivity.
      * rewrite Hp'. cbn [trace record]. rewrite pauses_app, app_nil_r. reflexivity.
    + erewrite bind_Ok by (apply getPlayerResources_absent; eassumption).
      cbv beta iota.
      destruct (IH players (record (EvGet (REDIS_KEYS.PLAYER_RESOURCES (PlayerResourceService.entryName entry) sub)) w) Hc Hrest)
        as (w' & Hrun & Hc' & Hr' & Hp').
      exists w'. split; [| split; [exact Hc' | split; [exact Hr' |]]].
      * exact Hrun.
      * rewrite Hp'. cbn [trace record]. rewrite pauses_app, app_nil_r. reflexivity.
Qed.

Lemma getSubredditPlayers_calm (sub : string) (limit : option Z)
    (entries : list Item) (w : World) :
  calm w ->
  redis w !! PlayerResourceService.playerIndexKey sub = Some (VList entries) ->
  indexReadable (redis w) sub (Array_slice0 (default 100%Z limit) entries) ->
  exists w',
    PlayerResourceService.getSubredditPlayers sub limit w
    = (Ok (Array_sort
             (fun a b => PlayerResources.totalContributions b
                         - PlayerResources.totalContributions a)
             (listedPlayers (redis w) sub
                (Array_slice0 (default 100%Z limit) entries))), w')
    /\ calm w' /\ redis w' = redis w
    /\ pauses (trace w') = pauses (trace w).
Proof.
  intros Hc Hl Hread.
  destruct (collectPlayers_calm sub (Array_slice0 (default 100%Z limit) entries) []
              (record (EvGet (PlayerResourceService.playerIndexKey sub)) w) Hc Hread)
    as (w' & Hrun & Hc' & Hr' & Hp').
  exists w'. split; [| split; [exact Hc' | split; [exact Hr' |]]].
  - unfold PlayerResourceService.getSubredditPlayers. cbv zeta.
    apply player_withRetry_Ok.
    erewrite bind_Ok by (apply redis_get_calm; exact Hc).
    change ("cinnarito:subreddit:" +:+ sub +:+ ":players")
      with (PlayerResourceService.playerIndexKey sub).
    rewrite Hl.
    erewrite bind_Ok by exact Hrun. reflexivity.
  - rewrite Hp'. cbn [trace record]. rewrite pauses_app, app_nil_r. reflexivity.
Qed.

Lemma sort_insert_perm {A} (cmp : A -> A -> Q) (x : A) (l : list A) :
  Permutation (sort_insert cmp x l) (x :: l).
Proof.
  induction l as [| y l IH]; cbn [sort_insert]; [reflexivity |].
  destruct (num_gt (cmp x y) 0); [| reflexivity].
  rewrite IH. apply perm_swap.
Qed.

Lemma Array_sort_perm {A} (cmp : A -> A -> Q) (l : list A) :
  Permutation (Array_sort cmp l) l.
Proof.
  unfold Array_sort. induction l as [| x l IH]; cbn [foldr]; [reflexivity |].
  rewrite sort_insert_perm, IH. reflexivity.
Qed.

Lemma sort_insert_by_contributions (x : PlayerResources.t) (l : list PlayerResources.t) :
  StronglySorted byContributions l ->
  StronglySorted byContributions
    (sort_insert (fun a b => PlayerResources.totalContributions b
                             - PlayerResources.totalContributions a) x l).
Proof.
  intros Hs. induction Hs as [| y l Hl IH Hall]; cbn [sort_insert].
  - repeat constructor.
  - destruct (num_gt (PlayerResources.totalContributions y
                      - PlayerResources.totalContributions x) 0) eqn:Hgt.
    + apply num_gt_spec in Hgt. constructor; [exact IH |].
      rewrite (sort_insert_perm _ x l). constructor; [| exact Hall].
      unfold byContributions. lra.
    + apply num_gt_false in Hgt. constructor; [constructor; assumption |].
      constructor; [unfold byContributions; lra |].
      eapply Forall_impl; [exact Hall |].
      unfold byContributions. intros z Hz. lra.
Qed.

Lemma Array_sort_by_contributions (l : list PlayerResources.t) :
  StronglySorted byContributions
    (Array_sort (fun a b => PlayerResources.totalContributions b
                            - PlayerResources.totalContributions a) l).
Proof.
  unfold Array_sort. induction l as [| x l IH]; cbn [foldr]; [constructor |].
  apply sort_insert_by_contributions, IH.
Qed.

(** X19: with the store available, the leaderboard [getSubredditPlayers]
    returns is in order of total contributions, the highest first, and it
    holds exactly the stored records of the players among the first
    [limit] entries of the index (100 when no limit is given); reading it
    changes nothing in the store. *)
Theorem getSubredditPlayers_is_sorted_by_contributions
    (subredditName : string) (limit : option Z) (entries : list Item) (w : World) :
  calm w ->
  redis w !! PlayerResourceService.playerIndexKey subredditName = Some (VList entries) ->
  indexReadable (redis w) subredditName (Array_slice0 (default 100%Z limit) entries) ->
  exists board w',
    PlayerResourceService.getSubredditPlayers subredditName limit w = (Ok board, w')
    /\ StronglySorted byContributions board
    /\ Permutation board
         (listedPlayers (redis w) subredditName
            (Array_slice0 (default 100%Z limit) entries))
    /\ redis w' = redis w.
Proof.
  intros Hc Hl Hread.
  destruct (getSubredditPlayers_calm subredditName limit entries w Hc Hl Hread)
    as (w' & Hrun & _ & Hr & _).
  eexists _, w'. split; [exact Hrun |].
  split; [apply Array_sort_by_contributions |].
  split; [apply Array_sort_perm | exact Hr].
Qed.




Lemma getPlayerRank_calm (username sub : string) (entries : list Item) (w : World) :
  calm w ->
  redis w !! PlayerResourceService.playerIndexKey sub = Some (VList entries) ->
  indexReadable (redis w) sub (take 100 entries) ->
  exists w',
    PlayerResourceService.getPlayerRank username sub w
    = (Ok (let playerIndex :=
             Array_findIndex
               (fun p => bool_decide (PlayerResources.username p = username))
               (Array_sort
                  (fun a b => PlayerResources.totalContributions b
                              - PlayerResources.totalContributions a)
                  (listedPlayers (redis w) sub (take 100 entries))) in
           if (0 <=? playerIndex)%Z then (playerIndex + 1)%Z else (-1)%Z), w')
    /\ PlayerResourceService.getSubredditPlayers sub None w
       = (Ok (Array_sort
                (fun a b => PlayerResources.totalContributions b
                            - PlayerResources.totalContributions a)
                (listedPlayers (redis w) sub (take 100 entries))), w')
    /\ redis w' = redis w.
Proof.
  intros Hc Hl Hread.
  destruct (getSubredditPlayers_calm sub None entries w Hc Hl Hread)
    as (w' & Hrun & _ & Hr & _).
  exists w'. split; [| split; [exact Hrun | exact Hr]].
  unfold PlayerResourceService.getPlayerRank.
  apply player_withRetry_Ok.
  erewrite bind_Ok by exact Hrun. reflexivity.
Qed.


(** ** Sample runs *)

Lemma earlyPlayer_has_no_record (i : nat) :
  redis crowdedWorld
    !! REDIS_KEYS.PLAYER_RESOURCES (PlayerResourceService.entryName (earlyPlayer i)) "garden"
  = None.
Proof.
  cbn [redis crowdedWorld].
  rewrite lookup_insert_ne by (apply not_eq_sym, player_key_not_index_key).
  apply lookup_singleton_None. intros H.
  unfold REDIS_KEYS.PLAYER_RESOURCES in H. apply string_app_inj_l in H.
  apply (f_equal chars_of) in H.
  cbn [PlayerResourceService.entryName earlyPlayer] in H.
  rewrite !chars_of_app in H. discriminate H.
Qed.

Lemma crowdedWorld_readable :
  indexReadable (redis crowdedWorld) "garden"
                (map earlyPlayer (seq 0 100) ++ [IName "zoe"]).
Proof.
  apply Forall_app. split.
  - apply Forall_forall. intros entry Hin.
    apply list_elem_of_In, in_map_iff in Hin as (i & <- & _).
    rewrite earlyPlayer_has_no_record. exact I.
  - constructor; [| constructor].
    assert (H : redis crowdedWorld !! REDIS_KEYS.PLAYER_RESOURCES "zoe" "garden"
                = Some (VPlayer zoe)).
    { cbn [redis crowdedWorld].
      rewrite lookup_insert_ne by (apply not_eq_sym, player_key_not_index_key).
      apply lookup_singleton_eq. }
    cbn [PlayerResourceService.entryName]. rewrite H. exact I.
Qed.

Lemma crowdedWorld_index :
  redis crowdedWorld !! PlayerResourceService.playerIndexKey "garden"
  = Some (VList (map earlyPlayer (seq 0 100) ++ [IName "zoe"])).
Proof. apply lookup_insert_eq. Qed.

Lemma crowdedWorld_first_hundred :
  take 100 (map earlyPlayer (seq 0 100) ++ [IName "zoe"]) = map earlyPlayer (seq 0 100).
Proof. apply take_app_length'. rewrite length_map, length_seq. reflexivity. Qed.

Lemma getSubredditPlayers_is_sorted_by_contributions_witness :
  calm crowdedWorld
  /\ redis crowdedWorld !! PlayerResourceService.playerIndexKey "garden"
     = Some (VList (map earlyPlayer (seq 0 100) ++ [IName "zoe"]))
  /\ indexReadable (redis crowdedWorld) "garden"
       (Array_slice0 (default 100%Z (Some 200%Z))
          (map earlyPlayer (seq 0 100) ++ [IName "zoe"]))
  /\ exists board w',
       PlayerResourceService.getSubredditPlayers "garden" (Some 200%Z) crowdedWorld
       = (Ok board, w')
       /\ StronglySorted byContributions board
       /\ Permutation board
            (listedPlayers (redis crowdedWorld) "garden"
               (Array_slice0 (default 100%Z (Some 200%Z))
                  (map earlyPlayer (seq 0 100) ++ [IName "zoe"])))
       /\ redis w' = redis crowdedWorld.
Proof.
  assert (Hslice : Array_slice0 (default 100%Z (Some 200%Z))
                     (map earlyPlayer (seq 0 100) ++ [IName "zoe"])
                   = map earlyPlayer (seq 0 100) ++ [IName "zoe"]).
  { apply take_ge. rewrite length_app, length_map, length_seq. cbn. lia. }
  split; [reflexivity |]. split; [apply crowdedWorld_index |].
  split; [rewrite Hslice; apply crowdedWorld_readable |].
  apply (getSubredditPlayers_is_sorted_by_contributions "garden" (Some 200%Z)
           (map earlyPlayer (seq 0 100) ++ [IName "zoe"]) crowdedWorld).
  - reflexivity.
  - apply crowdedWorld_index.
  - rewrite Hslice. apply crowdedWorld_readable.
Defined.



Lemma crowdedWorld_lists_no_record (l : list nat) :
  listedPlayers (redis crowdedWorld) "garden" (map earlyPlayer l) = [].
Proof.
  induction l as [| i l IH]; cbn [map listedPlayers]; [reflexivity |].
  rewrite earlyPlayer_has_no_record. exact IH.
Qed.

(** Zoe joined as the 101st player and has contributed most, yet she has
    no rank. *)
Example zoe_has_no_rank :
  exists w',
    PlayerResourceService.getPlayerRank "zoe" "garden" crowdedWorld = (Ok (-1)%Z, w')
    /\ In (IName "zoe") (map earlyPlayer (seq 0 100) ++ [IName "zoe"])
    /\ redis crowdedWorld !! REDIS_KEYS.PLAYER_RESOURCES "zoe" "garden"
       = Some (VPlayer zoe).
Proof.
  destruct getPlayerRank_calm with
    (username := "zoe") (sub := "garden")
    (entries := map earlyPlayer (seq 0 100) ++ [IName "zoe"]) (w := crowdedWorld)
    as (w' & Hrank & _ & _).
  { reflexivity. }
  { apply crowdedWorld_index. }
  { apply Forall_take, crowdedWorld_readable. }
  exists w'. split; [| split].
  - rewrite Hrank. rewrite crowdedWorld_first_hundred.
    rewrite crowdedWorld_lists_no_record. reflexivity.
  - apply in_or_app. right. left. reflexivity.
  - cbn [redis crowdedWorld].
    rewrite lookup_insert_ne by (apply not_eq_sym, player_key_not_index_key).
    apply lookup_singleton_eq.
Qed.

(* ===================================================================== *)
(** * The chronicle scheduler *)
(* ===================================================================== *)

Lemma scheduler_step_start (this : ChronicleScheduler.t) (rt : Runtime) :
  timers rt = timersOf this ->
  (ChronicleScheduler.isRunning this = true <->
   exists handle, ChronicleScheduler.intervalId this = Some handle) ->
  timers (snd (ChronicleScheduler.start this rt))
  = timersOf (fst (ChronicleScheduler.start this rt))
  /\ (ChronicleScheduler.isRunning (fst (ChronicleScheduler.start this rt)) = true <->
      exists handle,
        ChronicleScheduler.intervalId (fst (ChronicleScheduler.start this rt))
        = Some handle).
Proof.
  intros Ht Hr. unfold ChronicleScheduler.start.
  destruct (ChronicleScheduler.isRunning this) eqn:Hrun.
  - cbn [fst snd console_log timers]. rewrite Hrun. split; assumption.
  - cbn [fst snd setInterval console_log timers nextHandle timersOf
         ChronicleScheduler.intervalId ChronicleScheduler.isRunning].
    destruct (ChronicleScheduler.intervalId this) as [handle |] eqn:Hid.
    + pose proof (proj2 Hr (ex_intro _ handle eq_refl)) as Htrue. congruence.
    + unfold timersOf in Ht. rewrite Hid in Ht. rewrite Ht.
      split; [reflexivity |]. split; [intros _; eexists; reflexivity | reflexivity].
Qed.

Lemma scheduler_step_stop (this : ChronicleScheduler.t) (rt : Runtime) :
  timers rt = timersOf this ->
  (ChronicleScheduler.isRunning this = true <->
   exists handle, ChronicleScheduler.intervalId this = Some handle) ->
  timers (snd (ChronicleScheduler.stop this rt))
  = timersOf (fst (ChronicleScheduler.stop this rt))
  /\ (ChronicleScheduler.isRunning (fst (ChronicleScheduler.stop this rt)) = true <->
      exists handle,
        ChronicleScheduler.intervalId (fst (ChronicleScheduler.stop this rt))
        = Some handle).
Proof.
  intros Ht Hr. unfold ChronicleScheduler.stop.
  destruct (ChronicleScheduler.isRunning this) eqn:Hrun; cbn [negb].
  - cbn [ChronicleScheduler.intervalId ChronicleScheduler.isRunning].
    destruct (ChronicleScheduler.intervalId this) as [handle |] eqn:Hid.
    + cbn [fst snd clearInterval console_log timers timersOf
           ChronicleScheduler.intervalId ChronicleScheduler.isRunning].
      unfold timersOf in Ht. rewrite Hid in Ht. rewrite Ht.
      split.
      * rewrite filter_cons_False by (cbn; intros H; apply H; reflexivity).
        reflexivity.
      * split; [discriminate | intros [h Hh]; discriminate Hh].
    + destruct Hr as [Hr _]. destruct (Hr eq_refl) as [h Hh]. discriminate Hh.
  - cbn [fst snd console_log timers]. rewrite Hrun. split; assumption.
Qed.

Lemma runScheduler_invariant (calls : list SchedulerCall) :
  forall (this : ChronicleScheduler.t) (rt : Runtime),
    timers rt = timersOf this ->
    (ChronicleScheduler.isRunning this = true <->
     exists handle, ChronicleScheduler.intervalId this = Some handle) ->
    timers (snd (runScheduler calls this rt))
    = timersOf (fst (runScheduler calls this rt))
    /\ (ChronicleScheduler.isRunning (fst (runScheduler calls this rt)) = true <->
        exists handle,
          ChronicleScheduler.intervalId (fst (runScheduler calls this rt))
          = Some handle).
Proof.
  induction calls as [| [|] rest IH]; intros this rt Ht Hr; cbn [runScheduler].
  - split; assumption.
  - destruct (scheduler_step_start this rt Ht Hr) as [Ht' Hr'].
    destruct (ChronicleScheduler.start this rt) as [this' rt']. apply IH; assumption.
  - destruct (scheduler_step_stop this rt Ht Hr) as [Ht' Hr'].
    destruct (ChronicleScheduler.stop this rt) as [this' rt']. apply IH; assumption.
Qed.

(** X21: however [start] and [stop] are called on a new scheduler, it
    never has more than one timer: the timers set in the runtime are
    exactly the one the object holds while it is running (due every 60
    seconds) and none while it is stopped, so a second [start] adds no
    timer and [stop] leaves none behind.  And a tick of that timer does
    nothing at all, whatever [processScheduledChronicles] would do:
    [getActiveSubreddits] returns no subreddit, so only
    [triggerForSubreddit] ever processes a schedule. *)
Theorem scheduler_holds_one_timer_and_ticks_idle (calls : list SchedulerCall) :
  timers (snd (runScheduler calls ChronicleScheduler.new freshRuntime))
  = timersOf (fst (runScheduler calls ChronicleScheduler.new freshRuntime))
  /\ (length (timers (snd (runScheduler calls ChronicleScheduler.new freshRuntime)))
      <= 1)%nat
  /\ (fst (ChronicleScheduler.getStatus
             (fst (runScheduler calls ChronicleScheduler.new freshRuntime))) = true
      <-> timers (snd (runScheduler calls ChronicleScheduler.new freshRuntime)) <> [])
  /\ (forall (processScheduledChronicles : string -> Promise unit) (w : World),
        ChronicleScheduler.processAllSubreddits processScheduledChronicles w
        = (Ok tt, w))
  /\ (forall (processScheduledChronicles : string -> Promise unit)
             (subredditName : string) (w : World),
        ChronicleScheduler.triggerForSubreddit processScheduledChronicles
          subredditName w
        = processScheduledChronicles subredditName w).
Proof.
  destruct (runScheduler_invariant calls ChronicleScheduler.new freshRuntime)
    as [Ht Hr].
  { reflexivity. }
  { split; [discriminate | intros [h Hh]; discriminate Hh]. }
  split; [exact Ht |]. split; [| split; [| split]].
  - rewrite Ht. unfold timersOf.
    destruct (ChronicleScheduler.intervalId _); cbn; lia.
  - cbn [ChronicleScheduler.getStatus fst]. rewrite Hr, Ht. unfold timersOf.
    destruct (ChronicleScheduler.intervalId _) as [h |].
    + split; [discriminate | intros _; eexists; reflexivity].
    + split; [intros [h Hh]; discriminate Hh | intros H; destruct (H eq_refl)].
  - intros f w. reflexivity.
  - intros f sub w. unfold ChronicleScheduler.triggerForSubreddit, try_catch.
    destruct (f sub w) as [[[] | e] w']; reflexivity.
Qed.

(* ===================================================================== *)
(** * The shared validators and defaults *)
(* ===================================================================== *)

(** X22: the cost table of [validateResourceCost] in the shared validators
    and the one of the player service agree: with the store available,
    [canAffordAction] answers for a stored player exactly what
    [validateResourceCost] answers for the player's record, and it reads
    the store without changing it.  For a player without a record it
    answers no rather than failing. *)
Theorem canAffordAction_agrees_with_validateResourceCost
    (username subredditName : string) (actionType : ActionType) (w : World) :
  calm w ->
  (forall p,
     redis w !! REDIS_KEYS.PLAYER_RESOURCES username subredditName = Some (VPlayer p) ->
     exists w',
       PlayerResourceService.canAffordAction username subredditName
         (actionName actionType) w
       = (Ok (Validation.validateResourceCost actionType p), w')
       /\ redis w' = redis w)
  /\ (redis w !! REDIS_KEYS.PLAYER_RESOURCES username subredditName = None ->
      exists w',
        PlayerResourceService.canAffordAction username subredditName
          (actionName actionType) w
        = (Ok false, w')
        /\ redis w' = redis w).
Proof.
  intros Hc. split.
  - intros p Hl.
    exists (record (EvGet (REDIS_KEYS.PLAYER_RESOURCES username subredditName)) w).
    split; [| reflexivity].
    unfold PlayerResourceService.canAffordAction.
    apply player_withRetry_Ok.
    erewrite bind_Ok by (apply getPlayerResources_found; eassumption).
    cbv beta iota.
    destruct actionType; reflexivity.
  - intros Hl.
    exists (record (EvGet (REDIS_KEYS.PLAYER_RESOURCES username subredditName)) w).
    split; [| reflexivity].
    unfold PlayerResourceService.canAffordAction.
    apply player_withRetry_Ok.
    erewrite bind_Ok by (apply getPlayerResources_absent; eassumption).
    reflexivity.
Qed.

Lemma canAffordAction_agrees_with_validateResourceCost_witness :
  calm aliceWorld
  /\ (forall p,
        redis aliceWorld !! REDIS_KEYS.PLAYER_RESOURCES "alice" "garden"
        = Some (VPlayer p) ->
        exists w',
          PlayerResourceService.canAffordAction "alice" "garden" (actionName feed)
            aliceWorld
          = (Ok (Validation.validateResourceCost feed p), w')
          /\ redis w' = redis aliceWorld)
  /\ (redis aliceWorld !! REDIS_KEYS.PLAYER_RESOURCES "alice" "garden" = None ->
      exists w',
        PlayerResourceService.canAffordAction "alice" "garden" (actionName feed)
          aliceWorld
        = (Ok false, w')
        /\ redis w' = redis aliceWorld).
Proof.
  split; [reflexivity |].
  apply (canAffordAction_agrees_with_validateResourceCost "alice" "garden" feed aliceWorld).
  reflexivity.
Defined.

(** X23: the default records of the shared validators are the records the
    services create.  With the store available, for a subreddit without a
    state [initializeGameState] stores what [createDefaultGameState]
    builds, and for a player without a record [initializePlayerResources]
    stores what [createDefaultPlayerResources] builds. *)
Theorem services_create_the_shared_defaults
    (username subredditName : string) (names : list Item) (w : World) :
  calm w ->
  redis w !! REDIS_KEYS.SUBREDDIT_STATE subredditName = None ->
  redis w !! REDIS_KEYS.PLAYER_RESOURCES username subredditName = None ->
  indexIs subredditName names (redis w) ->
  (exists st w1,
     Validation.createDefaultGameState subredditName w = (Ok st, w)
     /\ RedisGameService.initializeGameState subredditName w = (Ok st, w1)
     /\ redis w1 !! REDIS_KEYS.SUBREDDIT_STATE subredditName = Some (VState st))
  /\ (exists p w1,
        Validation.createDefaultPlayerResources username subredditName w = (Ok p, w)
        /\ PlayerResourceService.initializePlayerResources username subredditName w
           = (Ok p, w1)
        /\ redis w1 !! REDIS_KEYS.PLAYER_RESOURCES username subredditName
           = Some (VPlayer p)).
Proof.
  intros Hc Hst Hpl Hidx. split.
  - eexists _, _. split; [reflexivity |]. split.
    + apply initializeGameState_fresh_calm; assumption.
    + cbn [redis stored]. apply lookup_insert_eq.
  - destruct (initializePlayerResources_fresh_calm username subredditName names w
                Hc Hpl Hidx) as (w1 & Hrun & (_ & Hl & _) & _).
    eexists _, w1. split; [reflexivity |]. split; [exact Hrun | exact Hl].
Qed.

Lemma services_create_the_shared_defaults_witness :
  calm emptyWorld
  /\ redis emptyWorld !! REDIS_KEYS.SUBREDDIT_STATE "garden" = None
  /\ redis emptyWorld !! REDIS_KEYS.PLAYER_RESOURCES "alice" "garden" = None
  /\ indexIs "garden" [] (redis emptyWorld)
  /\ (exists st w1,
        Validation.createDefaultGameState "garden" emptyWorld = (Ok st, emptyWorld)
        /\ RedisGameService.initializeGameState "garden" emptyWorld = (Ok st, w1)
        /\ redis w1 !! REDIS_KEYS.SUBREDDIT_STATE "garden" = Some (VState st))
  /\ (exists p w1,
        Validation.createDefaultPlayerResources "alice" "garden" emptyWorld
        = (Ok p, emptyWorld)
        /\ PlayerResourceService.initializePlayerResources "alice" "garden" emptyWorld
           = (Ok p, w1)
        /\ redis w1 !! REDIS_KEYS.PLAYER_RESOURCES "alice" "garden" = Some (VPlayer p)).
Proof.
  split; [reflexivity |]. split; [reflexivity |]. split; [reflexivity |].
  split; [right; split; reflexivity |].
  apply (services_create_the_shared_defaults "alice" "garden" [] emptyWorld).
  - reflexivity.
  - reflexivity.
  - reflexivity.
  - right. split; reflexivity.
Defined.
